(** * satellite-inference: change detection over a dated series of rasters

    A shallow embedding of [src/analysis/__init__.py]:

    - [load_images_from_directory], with its discovery step [tiff_files]
      and its date resolution [extract_date];
    - [compare_images]: consecutive-pair differencing and its summaries;
    - [estimate_volume_changes]: removed / added / net volume figures;
    - [visualize_changes]: the three panels per period and the saved
      figure, as a trace of the calls it makes;
    - [main]: the four stages in sequence.

    Pixel arithmetic is IEEE 754 binary64 ([numpy.float64]), taken from
    the executable specification [SpecFloat] of the standard library, so
    every definition below can be evaluated.  Python dictionaries are
    association lists in insertion order, [print] is a trace of structured
    lines, and an uncaught exception is a value of type [exn].  The file
    system and the libraries are parameters: what a directory lists,
    whether a creation time can be had, whether a file decodes, whether
    a directory can be created. *)

From Stdlib Require Import ZArith Lia ZifyNat Bool Ascii.
From Stdlib Require Import Floats.SpecFloat.
From stdpp Require Import base list sorting strings.

(** ** Strings as Python uses them

    A Python [str] is a sequence of code points; a [string] here is a
    sequence of bytes.  On ASCII text the two are the same sequence, and
    [len], [isdigit], [count], [split] and [lower] below are Python's.
    A character beyond ASCII is several bytes of one [string], and a
    digit for [str.isdigit] without being one of [0] to [9]: statements
    that count characters or test digits are made for ASCII names
    ([is_ascii]). *)

Definition is_ascii_char (c : ascii) : bool := (nat_of_ascii c <? 128)%nat.

Fixpoint is_ascii (s : string) : bool :=
  match s with
  | EmptyString => true
  | String c s' => is_ascii_char c && is_ascii s'
  end.

(** [str.__le__]: code-point order, which is the byte order of
    [String.leb] (on ASCII plainly, and beyond it because UTF-8 keeps the
    order of the code points). *)
Definition str_le (a b : string) : Prop := String.leb a b = true.

#[export] Instance str_le_dec : RelDecision str_le :=
  fun a b => bool_eq_dec (String.leb a b) true.

(** [sorted(...)] on a list of strings.  The order is total and
    antisymmetric, so the sorted arrangement is unique and any correct
    sorting algorithm is a model of Python's. *)
Definition sorted (l : list string) : list string := merge_sort str_le l.

Definition is_digit (c : ascii) : bool :=
  (48 <=? nat_of_ascii c)%nat && (nat_of_ascii c <=? 57)%nat.

Fixpoint all_digits (s : string) : bool :=
  match s with
  | EmptyString => true
  | String c s' => is_digit c && all_digits s'
  end.

(** [str.isdigit()] on ASCII text: non-empty and every character is one
    of [0] to [9]. *)
Definition isdigit (s : string) : bool :=
  match s with
  | EmptyString => false
  | _ => all_digits s
  end.

(** [s.count(c)] for a single character. *)
Fixpoint count_char (c : ascii) (s : string) : nat :=
  match s with
  | EmptyString => 0
  | String c' s' => (if Ascii.eqb c' c then 1 else 0) + count_char c s'
  end.

(** [s.split(sep)] for a single-character separator: every occurrence
    splits, empty segments are kept, the empty string gives [['']]. *)
Fixpoint split_on (sep : ascii) (s : string) : list string :=
  match s with
  | EmptyString => [EmptyString]
  | String c s' =>
      if Ascii.eqb c sep then EmptyString :: split_on sep s'
      else match split_on sep s' with
           | [] => [String c EmptyString]
           | p :: ps => String c p :: ps
           end
  end.

Definition lower_ascii (c : ascii) : ascii :=
  let n := nat_of_ascii c in
  if (65 <=? n)%nat && (n <=? 90)%nat then ascii_of_nat (n + 32) else c.

Fixpoint lower (s : string) : string :=
  match s with
  | EmptyString => EmptyString
  | String c s' => String (lower_ascii c) (lower s')
  end.

(** [s.endswith(suffix)]. *)
Definition endswith (s suffix : string) : bool :=
  let n := String.length s in
  let k := String.length suffix in
  (k <=? n)%nat && String.eqb (String.substring (n - k) k s) suffix.

(** ** binary64 *)

Module F64.
Definition prec : Z := 53.
Definition emax : Z := 1024.

Definition zero : spec_float := S754_zero false.
Definition add : spec_float -> spec_float -> spec_float := SFadd prec emax.
Definition sub : spec_float -> spec_float -> spec_float := SFsub prec emax.
Definition mul : spec_float -> spec_float -> spec_float := SFmul prec emax.
Definition div : spec_float -> spec_float -> spec_float := SFdiv prec emax.
Definition opp : spec_float -> spec_float := SFopp.
Definition abs : spec_float -> spec_float := SFabs.
Definition ltb : spec_float -> spec_float -> bool := SFltb.
Definition leb : spec_float -> spec_float -> bool := SFleb.

Definition is_nan (x : spec_float) : bool :=
  match x with S754_nan => true | _ => false end.

Definition is_finite (x : spec_float) : bool :=
  match x with S754_zero _ | S754_finite _ _ _ => true | _ => false end.

Definition is_zero (x : spec_float) : bool :=
  match x with S754_zero _ => true | _ => false end.

(** Conversion of an integer, rounding to nearest even: what
    [astype(float)] does to an integer pixel and what Python does to
    an [int] operand that meets a [float64] array. *)
Definition of_Z (z : Z) : spec_float := binary_normalize prec emax z 0 false.
End F64.

Abbreviation float := spec_float (only parsing).

(** The literal [1e-10]: the binary64 number nearest to 10^-10,
    7737125245533627 * 2^-86. *)
Definition epsilon : float := S754_finite false 7737125245533627 (-86).

(** ** The arithmetic an array element type offers

    [estimate_volume_changes] only multiplies, adds, negates, subtracts
    and compares with zero, and Python runs it unchanged on whatever
    element type the difference arrays carry.  The class names these
    operations; [float64] is the instance the pipeline runs on, and the
    integers give the same code under exact arithmetic. *)
Class Num (F : Type) := {
  num_zero : F;
  num_add : F -> F -> F;
  num_sub : F -> F -> F;
  num_opp : F -> F;
  num_mul : F -> F -> F;
  num_ltb : F -> F -> bool
}.

#[export] Instance float64 : Num float := {
  num_zero := F64.zero;
  num_add := F64.add;
  num_sub := F64.sub;
  num_opp := F64.opp;
  num_mul := F64.mul;
  num_ltb := F64.ltb
}.

#[export] Instance exact_Z : Num Z := {
  num_zero := 0%Z;
  num_add := Z.add;
  num_sub := Z.sub;
  num_opp := Z.opp;
  num_mul := Z.mul;
  num_ltb := Z.ltb
}.

(** ** numpy arrays *)

(** An [ndarray]: its shape tuple and its elements in C (row-major)
    order. *)
Record ndarray (A : Type) := NdArray { shape : list nat; data : list A }.
Arguments NdArray {A} _ _.
Arguments shape {A} _.
Arguments data {A} _.

(** numpy keeps [len(data) = prod(shape)]. *)
Definition well_formed {A} (a : ndarray A) : Prop :=
  length (data a) = foldr Nat.mul 1 (shape a).

(** What [src.read()] hands back: an integer-typed or a floating-point
    band stack. *)
Inductive raster :=
  | IntRaster (a : ndarray Z)
  | FloatRaster (a : ndarray float).

Definition raster_shape (r : raster) : list nat :=
  match r with
  | IntRaster a => shape a
  | FloatRaster a => shape a
  end.

Definition raster_size (r : raster) : nat :=
  match r with
  | IntRaster a => length (data a)
  | FloatRaster a => length (data a)
  end.

(** [a.astype(float)] *)
Definition astype_float (r : raster) : ndarray float :=
  match r with
  | IntRaster a => NdArray (shape a) (F64.of_Z <$> data a)
  | FloatRaster a => a
  end.

(** A binary ufunc on two arrays of one shape. *)
Definition elementwise {A B C} (f : A -> B -> C)
    (a : ndarray A) (b : ndarray B) : ndarray C :=
  NdArray (shape a) (zip_with f (data a) (data b)).

(** A unary ufunc, or a binary one with a scalar operand. *)
Definition array_map {A B} (f : A -> B) (a : ndarray A) : ndarray B :=
  NdArray (shape a) (f <$> data a).

(** [np.sum] of a contiguous array is [np.add.reduce]: the identity of
    [np.add], which is 0, plus numpy's pairwise summation of the
    elements ([pairwise_sum] in [loops_utils.h.src]).  Below eight
    elements that is a plain loop; up to [PW_BLOCKSIZE = 128] elements
    eight accumulators run side by side and are added up in pairs; a
    longer array is halved, at a multiple of eight, and the two halves
    are summed by the same rule.  The arrays the pipeline sums are
    contiguous: the result of [np.abs], and the copies a boolean mask
    selects.  (Whether the plain loop starts from 0.0 or, as in later
    versions of numpy, from -0.0 makes no difference to the sum, see
    [np_sum_start_immaterial].) *)
Section PairwiseSum.
Context {F : Type} `{Num F}.

(** [r[0] += a[i + 0]; ...; r[7] += a[i + 7]] for [blocks] blocks of
    eight elements: the accumulators, and the elements left over. *)
Fixpoint unrolled (blocks : nat) (r l : list F) : list F * list F :=
  match blocks with
  | 0 => (r, l)
  | S blocks' => unrolled blocks' (zip_with num_add r (take 8 l)) (drop 8 l)
  end.

(** [((r[0] + r[1]) + (r[2] + r[3])) + ((r[4] + r[5]) + (r[6] + r[7]))] *)
Definition combine8 (r : list F) : F :=
  match r with
  | [r0; r1; r2; r3; r4; r5; r6; r7] =>
      num_add (num_add (num_add r0 r1) (num_add r2 r3))
        (num_add (num_add r4 r5) (num_add r6 r7))
  | _ => num_zero
  end.

(** The branch [n <= PW_BLOCKSIZE], entered with [8 <= n]: the first
    eight elements start the accumulators, [n / 8 - 1] further blocks
    are added to them, and the last [n % 8] elements are added one by
    one to the combined accumulators. *)
Definition block_sum (l : list F) : F :=
  let '(r, rest) := unrolled (length l / 8 - 1) (take 8 l) (drop 8 l) in
  foldl num_add (combine8 r) rest.

(** [pairwise_sum(a, n)]; [depth] bounds the recursion, and the length
    of the list is always enough, each half being shorter (the branch
    for [depth = 0] is then never taken on more than 128 elements, see
    [pairwise_sum_depth]). *)
Fixpoint pairwise_sum (depth : nat) (l : list F) : F :=
  let n := length l in
  if (n <? 8)%nat then foldl num_add num_zero l
  else if (n <=? 128)%nat then block_sum l
  else match depth with
       | 0 => block_sum l
       | S depth' =>
           let n2 := (n / 2 - (n / 2) mod 8)%nat in
           num_add (pairwise_sum depth' (take n2 l))
             (pairwise_sum depth' (drop n2 l))
       end.

Definition np_sum (l : list F) : F :=
  num_add num_zero (pairwise_sum (length l) l).
End PairwiseSum.
Arguments np_sum {F H} l : simpl never.

(** [np.mean] on [float64]: the same sum divided by the element count. *)
Definition np_mean (l : list float) : float :=
  F64.div (np_sum l) (F64.of_Z (Z.of_nat (length l))).

(** [np.maximum], the scalar loop of numpy: a NaN on the left stays. *)
Definition maximum (a b : float) : float :=
  if F64.is_nan a || F64.leb b a then a else b.

(** [np.max]: [None] stands for the [ValueError] numpy raises on a
    zero-size array. *)
Definition np_max (l : list float) : option float :=
  match l with
  | [] => None
  | x :: l' => Some (foldl maximum x l')
  end.

(** [a[a < 0]] and [a[a > 0]]: boolean-mask selection, in element order. *)
Definition select_negative `{Num F} (l : list F) : list F :=
  filter (fun v => num_ltb v num_zero = true) l.
Definition select_positive `{Num F} (l : list F) : list F :=
  filter (fun v => num_ltb num_zero v = true) l.

(** ** Python dictionaries and effects *)

(** A [dict] with string keys: insertion-ordered, keys pairwise distinct. *)
Definition dict (V : Type) : Type := list (string * V).

Definition dict_keys {V} (d : dict V) : list string := fst <$> d.

Fixpoint dict_get {V} (k : string) (d : dict V) : option V :=
  match d with
  | [] => None
  | (k', v) :: d' => if String.eqb k' k then Some v else dict_get k d'
  end.

(** [d[k] = v]: an existing key keeps its position, a new one goes last. *)
Fixpoint dict_set {V} (k : string) (v : V) (d : dict V) : dict V :=
  match d with
  | [] => [(k, v)]
  | (k', v') :: d' =>
      if String.eqb k' k then (k', v) :: d' else (k', v') :: dict_set k v d'
  end.

(** The exceptions of the pipeline; [OSError] stands for the class and
    its subclasses ([FileNotFoundError], [FileExistsError],
    [PermissionError], ...), raised by a call on [path]. *)
Inductive exn :=
  | ValueError (msg : string)
  | KeyError (key : string)
  | OSError (path : string).

(** A computation that prints lines of type [L] and either raises or
    returns an [A]. *)
Definition Py (L A : Type) : Type := list L * (exn + A).

#[export] Instance py_ret {L} : MRet (Py L) := fun A a => ([], inr a).
#[export] Instance py_bind {L} : MBind (Py L) := fun A B f m =>
  match m with
  | (out, inl e) => (out, inl e)
  | (out, inr a) => let '(out', r) := f a in (out ++ out', r)
  end.

Definition raise {L A} (e : exn) : Py L A := ([], inl e).
Definition print {L} (l : L) : Py L unit := ([l], inr tt).

(** A [for] loop that threads a value through its iterations. *)
Fixpoint for_each {L A S} (body : S -> A -> Py L S) (l : list A) (s : S)
    : Py L S :=
  match l with
  | [] => mret s
  | a :: l' => s' ← body s a; for_each body l' s'
  end.

Definition stdout {L A} (m : Py L A) : list L := fst m.
Definition outcome {L A} (m : Py L A) : exn + A := snd m.

(** ** The Raster Loader: discovery

    [glob.glob(os.path.join(directory, "*.tif"))] lists a directory and
    filters the entry names.  [tiff_files] is that filter on the names of
    one listing, under the matching rules of either platform;
    [found_tiff_files] further down is the call on a directory of a POSIX
    file system, with the paths it returns. *)

Inductive platform := Posix | Windows.

Definition backslash_of_slash (c : ascii) : ascii :=
  if Ascii.eqb c "/" then "\"%char else c.

Fixpoint replace_slashes (s : string) : string :=
  match s with
  | EmptyString => EmptyString
  | String c s' => String (backslash_of_slash c) (replace_slashes s')
  end.

(** [os.path.normcase]: the identity in [posixpath], lower-casing (and
    backslashes for slashes) in [ntpath]. *)
Definition normcase (os : platform) (s : string) : string :=
  match os with
  | Posix => s
  | Windows => lower (replace_slashes s)
  end.

(** [glob._ishidden]: the name starts with a dot. *)
Definition ishidden (name : string) : bool :=
  match name with
  | String "." _ => true
  | _ => false
  end.

(** [fnmatch] of a name against the pattern ["*" + suffix], where
    [suffix] holds no pattern character: the pattern compiles to the
    regular expression [(?s:.*suffix)\Z], and name and pattern go through
    [normcase] first. *)
Definition fnmatch_star (os : platform) (suffix name : string) : bool :=
  endswith (normcase os name) (normcase os suffix).

(** [glob.glob(directory/"*" + suffix)]: a pattern that does not itself
    start with a dot never yields a hidden name. *)
Definition glob_star (os : platform) (listing : list string) (suffix : string)
    : list string :=
  filter (fun name => negb (ishidden name) && fnmatch_star os suffix name = true)
    listing.

Definition tiff_files (os : platform) (listing : list string) : list string :=
  glob_star os listing ".tif" ++ glob_star os listing ".tiff".

(** *** The two [glob] calls on a directory (POSIX) *)

(** [glob.has_magic]: the pattern holds one of [*], [?] and [[]. *)
Fixpoint has_magic (s : string) : bool :=
  match s with
  | EmptyString => false
  | String c s' =>
      Ascii.eqb c "*" || Ascii.eqb c "?" || Ascii.eqb c "[" || has_magic s'
  end.

(** [posixpath.join(a, b)] *)
Definition posixpath_join (a b : string) : string :=
  if String.prefix "/" b then b
  else if String.eqb a "" || endswith a "/" then a +:+ b
  else a +:+ "/" +:+ b.

Fixpoint has_slash (s : string) : bool :=
  match s with
  | EmptyString => false
  | String c s' => Ascii.eqb c "/" || has_slash s'
  end.

(** [p[:p.rfind('/') + 1]] *)
Fixpoint up_to_last_slash (p : string) : string :=
  match p with
  | EmptyString => EmptyString
  | String c p' =>
      if has_slash p then String c (up_to_last_slash p') else EmptyString
  end.

(** [s.rstrip('/')] *)
Fixpoint rstrip_slashes (s : string) : string :=
  match s with
  | EmptyString => EmptyString
  | String c s' =>
      match rstrip_slashes s' with
      | EmptyString => if Ascii.eqb c "/" then EmptyString else String c EmptyString
      | rest => String c rest
      end
  end.

(** [posixpath.split(p)[0]]: the part up to the last slash, without its
    trailing slashes unless it consists of slashes only. *)
Definition posixpath_dirname (p : string) : string :=
  let head := up_to_last_slash p in
  match rstrip_slashes head with
  | EmptyString => head
  | stripped => stripped
  end.

Section Glob.
(** The file system as [glob] sees it: [scandir d] is the entry names
    [os.scandir(d)] reports, in its order, and [[]] when [d] cannot be
    listed ([glob] swallows the [OSError]); [glob_dirs pattern] is what
    [glob] itself expands a directory name with metacharacters to, the
    directories the pattern matches. *)
Variable scandir : string -> list string.
Variable glob_dirs : string -> list string.

(** [glob.glob(os.path.join(directory, "*" + suffix))], for a [suffix]
    without slash and metacharacter.  [glob] splits the pattern into a
    directory part and a name part; an empty directory part means the
    current directory, and the names come back bare; a directory part
    with metacharacters is expanded first; the names that match in each
    directory are joined to it. *)
Definition glob_glob (directory suffix : string) : list string :=
  let pathname := posixpath_join directory ("*" +:+ suffix) in
  let dirname := posixpath_dirname pathname in
  if String.eqb dirname "" then glob_star Posix (scandir ".") suffix
  else
    let dirs := if has_magic dirname then glob_dirs dirname else [dirname] in
    dirs ≫= (fun d => posixpath_join d <$> glob_star Posix (scandir d) suffix).

(** The list [tiff_files] of the loader. *)
Definition found_tiff_files (directory : string) : list string :=
  glob_glob directory ".tif" ++ glob_glob directory ".tiff".
End Glob.

(** *** The stem of a path *)

(** [PurePosixPath(p).name]: the last component of the path, where empty
    components and [.] do not count; [''] if there is none. *)
Definition path_name (p : string) : string :=
  default "" (last (filter (fun x => x <> "" /\ x <> ".") (split_on "/" p))).

Fixpoint last_dot (s : string) (i : nat) (found : option nat) : option nat :=
  match s with
  | EmptyString => found
  | String c s' =>
      last_dot s' (S i) (if Ascii.eqb c "." then Some i else found)
  end.

(** [Path(name).stem] for a path of one component: the name up to its
    last dot, unless that dot is the first or the last character. *)
Definition stem (name : string) : string :=
  match last_dot name 0 None with
  | Some i =>
      if (0 <? i)%nat && (i <? String.length name - 1)%nat
      then String.substring 0 i name
      else name
  | None => name
  end.

(** [Path(tiff_file).stem] *)
Definition path_stem (tiff_file : string) : string := stem (path_name tiff_file).

(** ** The Raster Loader: date resolution *)

Record date := Date { year : nat; month : nat; day : nat }.

Inductive load_line :=
  | NoTiffFilesFound (directory : string)
  | FoundTiffFiles (n : nat)
  | CouldNotExtractDate (filename : string)
  | ErrorExtractingDate (filename : string)
  | LoadedImage (date_str : string) (shp : list nat)
  | ErrorLoading (tiff_file : string).

(** The [for part in parts] loop up to its [break]: the segment and the
    format that reach [strptime], or [None] when the loop runs into its
    [else] branch. *)
Fixpoint scan_parts (parts : list string) : option (string * string) :=
  match parts with
  | [] => None
  | part :: rest =>
      if (String.length part =? 8)%nat && isdigit part
      then Some (part, "%Y%m%d")
      else if (String.length part =? 10)%nat && (count_char "-" part =? 2)%nat
      then Some (part, "%Y-%m-%d")
      else scan_parts rest
  end.

Section DateResolution.
(** [datetime.strptime], with [None] for the [ValueError] it raises. *)
Variable strptime : string -> string -> option date.

(** The [try] statement of the loader for one file: [filename] is the
    stem, and [ctime] is what
    [datetime.fromtimestamp(os.path.getctime(tiff_file))] gives, a date
    or the exception it raises.  The call in the [else] branch of the
    loop is inside the [try]: its exception is caught and reported, and
    the handler then makes the same call again, unprotected. *)
Definition extract_date (filename : string) (ctime : exn + date)
    : Py load_line date :=
  match scan_parts (split_on "_" filename) with
  | Some (date_str, fmt) =>
      match strptime date_str fmt with
      | Some date_obj => mret date_obj
      | None => ([ErrorExtractingDate filename], ctime)
      end
  | None =>
      match ctime with
      | inr date_obj => ([CouldNotExtractDate filename], inr date_obj)
      | inl e => ([ErrorExtractingDate filename], inl e)
      end
  end.
End DateResolution.

(** *** CPython's [strptime] on the two formats of the loader *)

Definition digit_value (c : ascii) : option nat :=
  if is_digit c then Some (nat_of_ascii c - 48) else None.

Definition number2 (a b : ascii) : option nat :=
  x ← digit_value a; y ← digit_value b; Some (10 * x + y).

Definition number4 (a b c d : ascii) : option nat :=
  x ← number2 a b; y ← number2 c d; Some (100 * x + y).

(** The [%d] directive on two characters: [3[0-1]|[1-2]\d|0[1-9]| [1-9]]. *)
Definition day2 (a b : ascii) : option nat :=
  if Ascii.eqb a " " then
    y ← digit_value b; if (1 <=? y)%nat then Some y else None
  else
    n ← number2 a b; if (1 <=? n)%nat && (n <=? 31)%nat then Some n else None.

(** The [%m] directive on two characters: [1[0-2]|0[1-9]]. *)
Definition month2 (a b : ascii) : option nat :=
  n ← number2 a b; if (1 <=? n)%nat && (n <=? 12)%nat then Some n else None.

Definition is_leap (y : nat) : bool :=
  ((y mod 4 =? 0) && negb (y mod 100 =? 0) || (y mod 400 =? 0))%nat.

Definition days_in_month (y m : nat) : nat :=
  match m with
  | 2 => if is_leap y then 29 else 28
  | 4 | 6 | 9 | 11 => 30
  | _ => 31
  end.

(** The [datetime] constructor: years from 1, days within the month. *)
Definition make_date (y m d : nat) : option date :=
  if (1 <=? y)%nat && (1 <=? m)%nat && (m <=? 12)%nat
     && (1 <=? d)%nat && (d <=? days_in_month y m)%nat
  then Some (Date y m d) else None.

(** [strptime] as the loader calls it: with ["%Y%m%d"] on a segment of
    eight digits and with ["%Y-%m-%d"] on a segment of ten characters.
    On a string of that length the directives can only match four, two
    and two characters; anything else leaves unconverted data or no
    match, and raises. *)
Definition strptime_cpython (date_str fmt : string) : option date :=
  if String.eqb fmt "%Y%m%d" then
    match String.list_ascii_of_string date_str with
    | [y1; y2; y3; y4; m1; m2; d1; d2] =>
        y ← number4 y1 y2 y3 y4; m ← month2 m1 m2;
        d ← (n ← number2 d1 d2;
             if (1 <=? n)%nat && (n <=? 31)%nat then Some n else None);
        make_date y m d
    | _ => None
    end
  else if String.eqb fmt "%Y-%m-%d" then
    match String.list_ascii_of_string date_str with
    | [y1; y2; y3; y4; s1; m1; m2; s2; d1; d2] =>
        if Ascii.eqb s1 "-" && Ascii.eqb s2 "-" then
          y ← number4 y1 y2 y3 y4; m ← month2 m1 m2; d ← day2 d1 d2;
          make_date y m d
        else None
    | _ => None
    end
  else None.

Definition digit_char (n : nat) : ascii := ascii_of_nat (48 + n mod 10).

(** The form [YYYY-MM-DD] of a date: four, two and two digits. *)
Definition strftime_iso (d : date) : string :=
  String.string_of_list_ascii
    [digit_char (year d / 1000); digit_char (year d / 100);
     digit_char (year d / 10); digit_char (year d); "-"%char;
     digit_char (month d / 10); digit_char (month d); "-"%char;
     digit_char (day d / 10); digit_char (day d)].

(** A number below 1000 in decimal, without padding. *)
Definition decimal (n : nat) : list ascii :=
  if (n <? 10)%nat then [digit_char n]
  else if (n <? 100)%nat then [digit_char (n / 10); digit_char n]
  else [digit_char (n / 100); digit_char (n / 10); digit_char n].

(** [date_obj.strftime('%Y-%m-%d')].  The C library writes the fields:
    month and day always with two digits, the year with four from 1000
    on; below 1000 it depends on the library whether [%Y] pads the year
    with zeros ([pad_year]) or not (glibc: year 999 is written [999]). *)
Definition strftime (pad_year : bool) (d : date) : string :=
  if pad_year || (1000 <=? year d)%nat then strftime_iso d
  else
    String.string_of_list_ascii
      (decimal (year d)
       ++ ["-"%char; digit_char (month d / 10); digit_char (month d);
           "-"%char; digit_char (day d / 10); digit_char (day d)]).

(** ** The Change Detector *)

(** The georeferencing record stored next to the pixels; the transform,
    the reference system and the bounds are opaque values of the raster
    library and play no part in the analysis. *)
Record metadata := Metadata {
  width : nat;
  height : nat;
  count : nat;
  file_path : string
}.

(** One value of the loader's dictionary: [{'data': ..., 'metadata': ...}]. *)
Record image_entry := ImageEntry {
  entry_data : raster;
  entry_metadata : metadata
}.

(** ** The Raster Loader: the whole function *)

(** The entry built from what was read: the pixels and the record of
    their dimensions, which the raster library reports in agreement with
    the pixel shape [(bands, height, width)]. *)
Definition entry_of (path : string) (r : raster) : image_entry :=
  match raster_shape r with
  | [c; h; w] => ImageEntry r (Metadata w h c path)
  | _ => ImageEntry r (Metadata 0 0 0 path)
  end.

Section Loader.
(** What the loader relies on: the file system as [glob] sees it,
    [datetime.strptime], the padding of the year by [strftime],
    [datetime.fromtimestamp(os.path.getctime(path))] with the exception
    it raises when the path cannot be examined, and
    [rasterio.open(path).read()] with [None] for a file that fails to
    open or decode.  Paths are those of a POSIX system. *)
Variable scandir : string -> list string.
Variable glob_dirs : string -> list string.
Variable strptime : string -> string -> option date.
Variable pad_year : bool.
Variable getctime : string -> exn + date.
Variable read_raster : string -> option raster.

(** The body of the loop over [tiff_files]. *)
Definition load_file (images : dict image_entry) (tiff_file : string)
    : Py load_line (dict image_entry) :=
  let filename := path_stem tiff_file in
  date_obj ← extract_date strptime filename (getctime tiff_file);
  let date_str := strftime pad_year date_obj in
  match read_raster tiff_file with
  | Some image_data =>
      let images := dict_set date_str (entry_of tiff_file image_data) images in
      print (LoadedImage date_str (raster_shape image_data));;
      mret images
  | None => print (ErrorLoading tiff_file);; mret images
  end.

Definition load_images_from_directory (directory : string)
    : Py load_line (dict image_entry) :=
  match found_tiff_files scandir glob_dirs directory with
  | [] => print (NoTiffFilesFound directory);; mret []
  | files => print (FoundTiffFiles (length files));; for_each load_file files []
  end.
End Loader.

(** One value of the detector's dictionary. *)
Record ChangeResult (F : Type) := MkChangeResult {
  difference : ndarray F;
  abs_difference : ndarray F;
  percentage_change : ndarray F;
  total_difference : F;
  mean_difference : F;
  max_difference : F;
  date1 : string;
  date2 : string
}.
Arguments MkChangeResult {F}.
Arguments difference {F}.
Arguments abs_difference {F}.
Arguments percentage_change {F}.
Arguments total_difference {F}.
Arguments mean_difference {F}.
Arguments max_difference {F}.
Arguments date1 {F}.
Arguments date2 {F}.

Inductive compare_line :=
  | NeedTwoImages
  | WarnDifferentShapes (d1 d2 : string)
  | ShapeOf (d : string) (shp : list nat)
  | ComparisonFromTo (d1 d2 : string)
  | TotalAbsoluteChange (v : float)
  | MeanAbsoluteChange (v : float)
  | MaximumAbsoluteChange (v : float).

(** [f"{date1}_to_{date2}"] *)
Definition period_key (d1 d2 : string) : string := d1 +:+ "_to_" +:+ d2.

(** The pairs [(dates[i], dates[i + 1])] for [i] in
    [range(len(dates) - 1)]. *)
Fixpoint adjacent_pairs {A} (l : list A) : list (A * A) :=
  match l with
  | [] => []
  | a :: l' =>
      match l' with
      | [] => []
      | b :: _ => (a, b) :: adjacent_pairs l'
      end
  end.

Definition subscript {L V} (d : dict V) (k : string) : Py L V :=
  match dict_get k d with
  | Some v => mret v
  | None => raise (KeyError k)
  end.

(** The arithmetic of one pair, from the two promoted arrays to the
    stored record; [None] is the [ValueError] of [np.max]. *)
Definition change_result (d1 d2 : string) (image1 image2 : raster)
    : option (ChangeResult float) :=
  let diff := elementwise F64.sub (astype_float image2) (astype_float image1) in
  let abs_diff := array_map F64.abs diff in
  let pct :=
    array_map (fun q => F64.mul q (F64.of_Z 100))
      (elementwise F64.div diff
         (array_map (fun x => F64.add x epsilon) (astype_float image1))) in
  let total := np_sum (data abs_diff) in
  let mean := np_mean (data abs_diff) in
  m ← np_max (data abs_diff);
  Some (MkChangeResult diff abs_diff pct total mean m d1 d2).

(** The body of the loop over [i]. *)
Definition compare_pair (image_dict : dict image_entry)
    (results : dict (ChangeResult float)) (p : string * string)
    : Py compare_line (dict (ChangeResult float)) :=
  e1 ← subscript image_dict p.1;
  e2 ← subscript image_dict p.2;
  let image1 := entry_data e1 in
  let image2 := entry_data e2 in
  if decide (raster_shape image1 ≠ raster_shape image2) then
    print (WarnDifferentShapes p.1 p.2);;
    print (ShapeOf p.1 (raster_shape image1));;
    print (ShapeOf p.2 (raster_shape image2));;
    mret results
  else
    match change_result p.1 p.2 image1 image2 with
    | None =>
        raise (ValueError
          "zero-size array to reduction operation maximum which has no identity")
    | Some r =>
        let results := dict_set (period_key p.1 p.2) r results in
        print (ComparisonFromTo p.1 p.2);;
        print (TotalAbsoluteChange (total_difference r));;
        print (MeanAbsoluteChange (mean_difference r));;
        print (MaximumAbsoluteChange (max_difference r));;
        mret results
    end.

(** [compare_images]; the value [None] is Python's [None], what a bare
    [return] gives. *)
Definition compare_images (image_dict : dict image_entry)
    : Py compare_line (option (dict (ChangeResult float))) :=
  if (length image_dict <? 2)%nat then
    print NeedTwoImages;;
    mret None
  else
    let dates := sorted (dict_keys image_dict) in
    results ← for_each (compare_pair image_dict) (adjacent_pairs dates) [];
    mret (Some results).

(** ** The Volume Estimator *)

Record VolumeEstimate (F : Type) := MkVolumeEstimate {
  material_removed_m3 : F;
  material_added_m3 : F;
  net_change_m3 : F
}.
Arguments MkVolumeEstimate {F}.
Arguments material_removed_m3 {F}.
Arguments material_added_m3 {F}.
Arguments net_change_m3 {F}.

Inductive volume_line (F : Type) :=
  | VolumeEstimationFor (period : string)
  | MaterialRemoved (v : F)
  | MaterialAdded (v : F)
  | NetChange (v : F).
Arguments VolumeEstimationFor {F}.
Arguments MaterialRemoved {F}.
Arguments MaterialAdded {F}.
Arguments NetChange {F}.

Section Estimator.
Context {F : Type} `{Num F}.

(** The three figures of one period. *)
Definition volume_estimate (pixel_area : F) (r : ChangeResult F)
    : VolumeEstimate F :=
  let volume_change_per_pixel :=
    array_map (fun d => num_mul d pixel_area) (difference r) in
  let material_removed :=
    num_opp (np_sum (select_negative (data volume_change_per_pixel))) in
  let material_added :=
    np_sum (select_positive (data volume_change_per_pixel)) in
  let net_change := num_sub material_added material_removed in
  MkVolumeEstimate material_removed material_added net_change.

(** The body of the loop over [results.items()]. *)
Definition estimate_item (pixel_area : F)
    (volume_estimates : dict (VolumeEstimate F))
    (item : string * ChangeResult F)
    : Py (volume_line F) (dict (VolumeEstimate F)) :=
  let v := volume_estimate pixel_area item.2 in
  let volume_estimates := dict_set item.1 v volume_estimates in
  print (VolumeEstimationFor item.1);;
  print (MaterialRemoved (material_removed_m3 v));;
  print (MaterialAdded (material_added_m3 v));;
  print (NetChange (net_change_m3 v));;
  mret volume_estimates.

Definition estimate_volume_changes (results : dict (ChangeResult F))
    (pixel_area : F) : Py (volume_line F) (dict (VolumeEstimate F)) :=
  for_each (estimate_item pixel_area) results [].
End Estimator.

(** The default [pixel_area=100] of [estimate_volume_changes]. *)
Definition default_pixel_area : float := F64.of_Z 100.

(** ** Vocabulary of the statements *)

(** The two tests of the loop in [scan_parts], by name. *)
Definition is_yyyymmdd (part : string) : bool :=
  (String.length part =? 8)%nat && isdigit part.
Definition is_dashed (part : string) : bool :=
  (String.length part =? 10)%nat && (count_char "-" part =? 2)%nat.

(** Date resolution the way the specification words it: an 8-digit
    segment anywhere in the stem wins, and a 10-character segment is
    looked for only when there is none. *)
Definition spec_scan_parts (parts : list string) : option (string * string) :=
  match List.find is_yyyymmdd parts with
  | Some part => Some (part, "%Y%m%d")
  | None =>
      match List.find is_dashed parts with
      | Some part => Some (part, "%Y-%m-%d")
      | None => None
      end
  end.

(** Discovery the way the specification words it: the name ends in
    [.tif] or [.tiff], letter case disregarded. *)
Definition has_raster_extension (name : string) : bool :=
  endswith (lower name) ".tif" || endswith (lower name) ".tiff".

(** A key as the loader writes it: [YYYY-MM-DD]. *)
Definition iso_date_key (k : string) : bool :=
  match String.list_ascii_of_string k with
  | [y1; y2; y3; y4; s1; m1; m2; s2; d1; d2] =>
      is_digit y1 && is_digit y2 && is_digit y3 && is_digit y4
      && Ascii.eqb s1 "-" && is_digit m1 && is_digit m2
      && Ascii.eqb s2 "-" && is_digit d1 && is_digit d2
  | _ => false
  end.

(** A raster collection: a dictionary (distinct keys) from ISO dates to
    rasters that hold at least one pixel. *)
Definition raster_collection (image_dict : dict image_entry) : Prop :=
  NoDup (dict_keys image_dict) /\
  Forall (fun kv => iso_date_key kv.1 = true
                    /\ raster_size (entry_data kv.2) <> 0) image_dict.

(** The two rasters of a pair of dates have one shape. *)
Definition shapes_agree (image_dict : dict image_entry) (p : string * string)
    : Prop :=
  (raster_shape ∘ entry_data) <$> dict_get p.1 image_dict
  = (raster_shape ∘ entry_data) <$> dict_get p.2 image_dict.

#[export] Instance shapes_agree_dec image_dict p :
  Decision (shapes_agree image_dict p) :=
  option_eq_dec _ _.

(** The dictionary item one pair of dates contributes, if any. *)
Definition pair_entry (image_dict : dict image_entry) (p : string * string)
    : option (string * ChangeResult float) :=
  e1 ← dict_get p.1 image_dict;
  e2 ← dict_get p.2 image_dict;
  if decide (raster_shape (entry_data e1) ≠ raster_shape (entry_data e2))
  then None
  else r ← change_result p.1 p.2 (entry_data e1) (entry_data e2);
       Some (period_key p.1 p.2, r).

(** The three lines printed for a pair of different shapes. *)
Definition mismatch_lines (d1 d2 : string) (image1 image2 : raster)
    : list compare_line :=
  [WarnDifferentShapes d1 d2;
   ShapeOf d1 (raster_shape image1);
   ShapeOf d2 (raster_shape image2)].

(** The four lines printed for a compared pair. *)
Definition result_lines (r : ChangeResult float) : list compare_line :=
  [ComparisonFromTo (date1 r) (date2 r);
   TotalAbsoluteChange (total_difference r);
   MeanAbsoluteChange (mean_difference r);
   MaximumAbsoluteChange (max_difference r)].

(** Everything one pair of dates prints. *)
Definition pair_lines (image_dict : dict image_entry) (p : string * string)
    : list compare_line :=
  match dict_get p.1 image_dict, dict_get p.2 image_dict with
  | Some e1, Some e2 =>
      if decide (raster_shape (entry_data e1) ≠ raster_shape (entry_data e2))
      then mismatch_lines p.1 p.2 (entry_data e1) (entry_data e2)
      else match change_result p.1 p.2 (entry_data e1) (entry_data e2) with
           | Some r => result_lines r
           | None => []
           end
  | _, _ => []
  end.

(** [results[k] = r] for an item, nothing without one. *)
Definition store_entry {V} (results : dict V) (item : option (string * V))
    : dict V :=
  match item with
  | Some (k, r) => dict_set k r results
  | None => results
  end.

(** The four lines printed for one period. *)
Definition volume_lines `{Num F} (pixel_area : F)
    (item : string * ChangeResult F) : list (volume_line F) :=
  let v := volume_estimate pixel_area item.2 in
  [VolumeEstimationFor item.1;
   MaterialRemoved (material_removed_m3 v);
   MaterialAdded (material_added_m3 v);
   NetChange (net_change_m3 v)].

(** Every pixel of the raster is a finite number once promoted: no NaN,
    no infinity. *)
Definition promoted_finite (r : raster) : Prop :=
  Forall (fun x => F64.is_finite x = true) (data (astype_float r)).

(** The binary64 number of sign [s] and integer magnitude [n], for
    [n] below 2^53: the bits of [n] moved up to a 53-bit mantissa. *)
Definition fin53 (s : bool) (n : positive) : float :=
  S754_finite s
    (Pos.shiftl n (Z.to_N (53 - Z.pos (digits2_pos n))))
    (Z.pos (digits2_pos n) - 53).

(** The sum of the magnitudes of a list of integers. *)
Definition sum_abs (l : list Z) : Z := foldr (fun z acc => Z.abs z + acc)%Z 0%Z l.

(** A float that is not NaN and carries the sign [s]. *)
Definition same_sign (s : bool) (x : float) : Prop :=
  match x with
  | S754_nan => False
  | S754_zero s' | S754_infinity s' | S754_finite s' _ _ => s' = s
  end.

(** The value of a finite float as a fraction [numerator / denominator]
    of integers, for stating how close a result is to a decimal. *)
Definition finite_value (x : float) : option (Z * Z) :=
  match x with
  | S754_zero _ => Some (0, 1)%Z
  | S754_finite s m e =>
      let n := if s then Z.neg m else Z.pos m in
      Some (if (0 <=? e)%Z then (n * 2 ^ e, 1)%Z else (n, 2 ^ (- e))%Z)
  | _ => None
  end.

(** Exact arithmetic: the laws of an ordered commutative ring, which the
    integers satisfy and binary64 does not. *)
Class ExactNum (F : Type) `{Num F} : Prop := {
  exact_add_comm : forall a b : F, num_add a b = num_add b a;
  exact_add_assoc : forall a b c : F,
    num_add a (num_add b c) = num_add (num_add a b) c;
  exact_add_zero : forall a : F, num_add num_zero a = a;
  exact_add_opp : forall a : F, num_add a (num_opp a) = num_zero;
  exact_sub : forall a b : F, num_sub a b = num_add a (num_opp b);
  exact_mul_add : forall a b c : F,
    num_mul (num_add a b) c = num_add (num_mul a c) (num_mul b c);
  exact_mul_comm : forall a b : F, num_mul a b = num_mul b a;
  exact_mul_zero : forall a : F, num_mul num_zero a = num_zero;
  exact_trichotomy : forall a : F,
    num_ltb a num_zero = false -> num_ltb num_zero a = false -> a = num_zero;
  exact_ltb_asym : forall a : F,
    num_ltb a num_zero = true -> num_ltb num_zero a = false
}.

(** ** Sample inputs *)

Definition int_image (shp : list nat) (pixels : list Z) : image_entry :=
  entry_of "scene.tif" (IntRaster (NdArray shp pixels)).

Definition float_image (shp : list nat) (pixels : list float) : image_entry :=
  entry_of "scene.tif" (FloatRaster (NdArray shp pixels)).

(** A file system with the one directory [data], where every file was
    created on 1999-01-01 and decodes to one zero pixel. *)
Definition sample_scandir (listing : list string) (d : string) : list string :=
  if String.eqb d "data" then listing else [].
Definition sample_glob_dirs (pattern : string) : list string := [].
Definition sample_getctime (tiff_file : string) : exn + date :=
  inr (Date 1999 1 1).
Definition sample_read_raster (tiff_file : string) : option raster :=
  Some (IntRaster (NdArray [1; 1; 1] [0%Z])).

(** The loader on that file system, with CPython's [strptime] and a C
    library that does not pad the year. *)
Definition sample_load (listing : list string) (directory : string)
    : Py load_line (dict image_entry) :=
  load_images_from_directory (sample_scandir listing) sample_glob_dirs
    strptime_cpython false sample_getctime sample_read_raster directory.

(** A file system with the directories [data1] and [data[1]], a file
    in each; as a pattern, [data[1]] matches the name [data1] only. *)
Definition bracket_scandir (d : string) : list string :=
  if String.eqb d "data1" then ["one.tif"]
  else if String.eqb d "data[1]" then ["own.tif"]
  else if String.eqb d "." then ["data1"; "data[1]"]
  else [].
Definition bracket_glob_dirs (pattern : string) : list string :=
  if String.eqb pattern "data[1]" then ["data1"] else [].

(** The loader returned one entry. *)
Definition one_image : dict image_entry :=
  [("2023-01-15", int_image [1; 1; 1] [0%Z])].

(** Three single-pixel images, loaded out of date order. *)
Definition three_dates : dict image_entry :=
  [("2023-03-01", int_image [1; 1; 1] [7%Z]);
   ("2023-01-15", int_image [1; 1; 1] [0%Z]);
   ("2023-02-10", int_image [1; 1; 1] [5%Z])].

(** A pixel that goes from 0 to 5. *)
Definition zero_to_five : dict image_entry :=
  [("2023-01-15", int_image [1; 1; 1] [0%Z]);
   ("2023-02-10", int_image [1; 1; 1] [5%Z])].

(** A pixel that goes from 2 to 0: a difference of -2.0. *)
Definition two_to_zero : dict image_entry :=
  [("2023-01-15", int_image [1; 1; 1] [2%Z]);
   ("2023-02-10", int_image [1; 1; 1] [0%Z])].

(** Shapes (1,10,10), (1,12,10), (1,12,10) on three consecutive dates. *)
Definition mixed_shapes : dict image_entry :=
  [("2023-01-15", int_image [1; 10; 10] (replicate 100 0%Z));
   ("2023-02-10", int_image [1; 12; 10] (replicate 120 1%Z));
   ("2023-03-01", int_image [1; 12; 10] (replicate 120 3%Z))].

Definition one_tenth : float := S754_finite false 7205759403792794 (-56).
Definition two_tenths : float := S754_finite false 7205759403792794 (-55).

(** Floating-point rasters: two pixels that go from 0.0 to 0.1 and 0.2. *)
Definition tenths : dict image_entry :=
  [("2023-01-15", float_image [1; 1; 2] [F64.zero; F64.zero]);
   ("2023-02-10", float_image [1; 1; 2] [one_tenth; two_tenths])].

(** Floating-point rasters of ten pixels that all go from 0.0 to 0.1. *)
Definition ten_tenths : dict image_entry :=
  [("2023-01-15", float_image [1; 2; 5] (replicate 10 F64.zero));
   ("2023-02-10", float_image [1; 2; 5] (replicate 10 one_tenth))].

(** Floating-point rasters with a NaN (no-data) pixel in the earlier one. *)
Definition with_nodata : dict image_entry :=
  [("2023-01-15", float_image [1; 1; 2] [S754_nan; F64.of_Z 1]);
   ("2023-02-10", float_image [1; 1; 2] [F64.of_Z 2; F64.of_Z 3])].

(** What the detector returns on a sample, [[]] if it does not return a
    dictionary. *)
Definition results_of (image_dict : dict image_entry)
    : dict (ChangeResult float) :=
  match outcome (compare_images image_dict) with
  | inr (Some results) => results
  | _ => []
  end.

(** A result mapping over the integers: differences 3, -5 and 0. *)
Definition exact_results : dict (ChangeResult Z) :=
  [("2023-01-15_to_2023-02-10",
    MkChangeResult (NdArray [1; 1; 3] [3; -5; 0]%Z)
      (NdArray [1; 1; 3] [3; 5; 0]%Z) (NdArray [1; 1; 3] [0; 0; 0]%Z)
      8%Z 2%Z 5%Z "2023-01-15" "2023-02-10")].

(** ** Vocabulary of the loader, file by file *)

Section LoaderVocabulary.
Variable strptime : string -> string -> option date.
Variable pad_year : bool.
Variable getctime : string -> exn + date.
Variable read_raster : string -> option raster.

(** The date a file resolves to, or the exception that ends the loader
    at this file. *)
Definition resolve_date (tiff_file : string) : exn + date :=
  outcome (extract_date strptime (path_stem tiff_file) (getctime tiff_file)).

(** The lines of date resolution for one file. *)
Definition resolve_lines (tiff_file : string) : list load_line :=
  stdout (extract_date strptime (path_stem tiff_file) (getctime tiff_file)).

Definition resolves (tiff_file : string) : bool :=
  match resolve_date tiff_file with
  | inr _ => true
  | inl _ => false
  end.

(** The key a file is stored under: its resolved date, as [strftime]
    writes it. *)
Definition date_key (tiff_file : string) : option string :=
  match resolve_date tiff_file with
  | inr date_obj => Some (strftime pad_year date_obj)
  | inl _ => None
  end.

(** The dictionary item one file contributes, if it decodes. *)
Definition file_entry (tiff_file : string) : option (string * image_entry) :=
  k ← date_key tiff_file;
  image_data ← read_raster tiff_file;
  Some (k, entry_of tiff_file image_data).

(** Everything the loop prints for one file. *)
Definition file_lines (tiff_file : string) : list load_line :=
  resolve_lines tiff_file
  ++ match date_key tiff_file with
     | Some k =>
         [match read_raster tiff_file with
          | Some image_data => LoadedImage k (raster_shape image_data)
          | None => ErrorLoading tiff_file
          end]
     | None => []
     end.

(** The entry of the file that decodes, when it resolves to the date
    [k]. *)
Definition entry_for (k : string) (tiff_file : string) : option image_entry :=
  if decide (date_key tiff_file = Some k)
  then entry_of tiff_file <$> read_raster tiff_file
  else None.

(** The file resolves to a date that [strftime] writes as YYYY-MM-DD: a
    year from 1000 on, or any year with a C library that pads. *)
Definition resolves_to_iso (tiff_file : string) : Prop :=
  exists d, resolve_date tiff_file = inr d
            /\ (pad_year = true \/ (1000 <= Z.of_nat (year d))%Z).

(** The line the loader opens with. *)
Definition header_line (directory : string) (files : list string) : load_line :=
  match files with
  | [] => NoTiffFilesFound directory
  | _ => FoundTiffFiles (length files)
  end.
End LoaderVocabulary.

(** A compact date [YYYYMMDD] with the dashes [strftime] writes. *)
Definition dashed (part : string) : string :=
  String.substring 0 4 part +:+ "-" +:+ String.substring 4 2 part
  +:+ "-" +:+ String.substring 6 2 part.

(** Calendar order on dates. *)
Definition date_le (d1 d2 : date) : Prop :=
  year d1 < year d2
  \/ (year d1 = year d2
      /\ (month d1 < month d2
          \/ (month d1 = month d2 /\ day d1 <= day d2))).

(** The ranges of the fields of a Python [datetime]. *)
Definition datetime_range (d : date) : Prop :=
  (Z.of_nat (year d) <= 9999)%Z /\ month d <= 12 /\ day d <= 31.

(** A year that [strftime] writes with four digits whatever the C
    library. *)
Definition four_digit_year (d : date) : Prop := (1000 <= Z.of_nat (year d))%Z.

(** The stems of the files are ASCII text, where the date resolution
    modelled here is Python's. *)
Definition ascii_stems (files : list string) : Prop :=
  Forall (fun f => is_ascii (path_stem f) = true) files.

(** A directory entry as the file system names it: not empty, no slash,
    and not the entry [.]. *)
Definition plain_name (name : string) : Prop :=
  name <> "" /\ has_slash name = false /\ name <> ".".

(** The directory [glob] lists for [directory]: its name without
    trailing slashes. *)
Definition glob_dirname (directory : string) : string :=
  posixpath_dirname (posixpath_join directory "*.tif").

(** Comparison in lexicographic order: the first difference decides. *)
Definition lex (c1 c2 : comparison) : comparison :=
  match c1 with
  | Eq => c2
  | _ => c1
  end.

(** ** Vocabulary of the detector's failure *)

(** The message of the [ValueError] that [np.max] raises. *)
Definition zero_size_message : string :=
  "zero-size array to reduction operation maximum which has no identity".

(** A pair of dates whose rasters have one shape and hold no pixel. *)
Definition zero_size_pair (image_dict : dict image_entry)
    (p : string * string) : bool :=
  match dict_get p.1 image_dict, dict_get p.2 image_dict with
  | Some e1, Some e2 =>
      bool_decide (raster_shape (entry_data e1) = raster_shape (entry_data e2))
      && ((raster_size (entry_data e1) =? 0)%nat
          || (raster_size (entry_data e2) =? 0)%nat)
  | _, _ => false
  end.

(** A float that is not below zero: NaN, or a number [>= 0]. *)
Definition nan_or_nonneg (x : float) : Prop :=
  F64.is_nan x = true \/ F64.leb F64.zero x = true.

(** The largest magnitude in a list of integers, [0] for none. *)
Definition max_abs (l : list Z) : Z :=
  foldr (fun z acc => Z.max (Z.abs z) acc) 0%Z l.

(** ** The Change Renderer

    [visualize_changes] draws three panels per period with matplotlib
    and, given an output directory, saves the figure.  The calls into
    matplotlib and the file system are recorded as a trace, in the order
    the function makes them; paths are joined as [posixpath] does. *)

(** What the later stages can raise besides the detector's exceptions. *)
Inductive fault :=
  | Raised (e : exn)
  | IndexError (msg : string)
  | TypeError (shp : list nat)
  | AttributeError (msg : string).

(** A computation that leaves a trace of [L] and either fails or returns
    an [A]. *)
Definition Act (L A : Type) : Type := list L * (fault + A).

#[export] Instance act_ret {L} : MRet (Act L) := fun A a => ([], inr a).
#[export] Instance act_bind {L} : MBind (Act L) := fun A B f m =>
  match m with
  | (out, inl e) => (out, inl e)
  | (out, inr a) => let '(out', r) := f a in (out ++ out', r)
  end.

Definition fail {L A} (f : fault) : Act L A := ([], inl f).
Definition emit {L} (l : L) : Act L unit := ([l], inr tt).

(** A stage run inside a larger one: its lines are tagged, its
    exceptions pass through. *)
Definition lift {L L' A} (tag : L -> L') (m : Py L A) : Act L' A :=
  (tag <$> m.1, match m.2 with inl e => inl (Raised e) | inr a => inr a end).

Definition within {L L' A} (tag : L -> L') (m : Act L A) : Act L' A :=
  (tag <$> m.1, m.2).

(** A [for] loop over a list, for its effects. *)
Fixpoint act_iter {L A} (body : A -> Act L unit) (l : list A) : Act L unit :=
  match l with
  | [] => mret tt
  | a :: l' => body a;; act_iter body l'
  end.

Definition trace {L A} (m : Act L A) : list L := fst m.
Definition result {L A} (m : Act L A) : fault + A := snd m.

(** A Python [int] or [float64] passed to matplotlib. *)
Inductive scalar :=
  | IntValue (z : Z)
  | FloatValue (x : float).

Inductive cmap := RdBu | hot.

Inductive render_line :=
  | MakeDirs (path : string)
  | Subplots (nrows ncols : nat) (figsize : nat * nat)
  | Imshow (axis : nat) (image : ndarray float) (c : cmap) (vmin vmax : scalar)
  | SetTitle (axis : nat) (title : string)
  | Colorbar (axis : nat) (label : string)
  | TightLayout
  | Savefig (path : string) (dpi : nat)
  | SavedVisualization (path : string)
  | Show.

(** [a[0]] on an array: the first slice along axis 0. *)
Definition index0 {L A} (a : ndarray A) : Act L (ndarray A) :=
  match shape a with
  | [] =>
      fail (IndexError
        "too many indices for array: array is 0-dimensional, but 1 were indexed")
  | 0 :: _ => fail (IndexError "index 0 is out of bounds for axis 0 with size 0")
  | S _ :: rest => mret (NdArray rest (take (foldr Nat.mul 1 rest) (data a)))
  end.

(** The shapes [imshow] takes for image data: [(M, N)], or [(M, N, 1)],
    [(M, N, 3)] and [(M, N, 4)]; any other raises [TypeError]. *)
Definition imshow_accepts (shp : list nat) : bool :=
  match shp with
  | [_; _] => true
  | [_; _; c] => (c =? 1)%nat || (c =? 3)%nat || (c =? 4)%nat
  | _ => false
  end.

Definition imshow (axis : nat) (image : ndarray float) (c : cmap)
    (vmin vmax : scalar) : Act render_line unit :=
  if imshow_accepts (shape image) then emit (Imshow axis image c vmin vmax)
  else fail (TypeError (shape image)).

(** [os.makedirs(path)]: [can_create] tells whether the call succeeds,
    [event] records it.  It fails with an [OSError]: [FileExistsError]
    when something is at [path] already, be it a link that leads
    nowhere, and otherwise for a parent that is no directory or cannot
    be written. *)
Definition makedirs {L} (event : string -> L) (can_create : string -> bool)
    (path : string) : Act L unit :=
  if can_create path then emit (event path)
  else fail (Raised (OSError path)).

(** [f"change_{date1}_to_{date2}.png"] in the output directory. *)
Definition figure_path (dir d1 d2 : string) : string :=
  posixpath_join dir ("change_" +:+ d1 +:+ "_to_" +:+ d2 +:+ ".png").

(** [thresholded[thresholded < threshold] = 0] on a copy of the panel,
    with [threshold = 0.1 * max_difference]. *)
Definition thresholded (max_diff : float) (panel : ndarray float)
    : ndarray float :=
  let threshold := F64.mul one_tenth max_diff in
  array_map (fun x => if F64.ltb x threshold then F64.zero else x) panel.

Definition raw_title (d1 d2 : string) : string :=
  "Raw Difference (" +:+ d1 +:+ " to " +:+ d2 +:+ ")".
Definition absolute_title (d1 d2 : string) : string :=
  "Absolute Difference (" +:+ d1 +:+ " to " +:+ d2 +:+ ")".
Definition significant_title (d1 d2 : string) : string :=
  "Significant Changes (" +:+ d1 +:+ " to " +:+ d2 +:+ ")".

(** [if output_dir:] with the figure saved and reported; [None] and
    [''] are false. *)
Definition save_figure (output_dir : option string) (d1 d2 : string)
    : Act render_line unit :=
  match output_dir with
  | Some (String _ _ as dir) =>
      emit (Savefig (figure_path dir d1 d2) 300);;
      emit (SavedVisualization (figure_path dir d1 d2))
  | _ => mret tt
  end.

(** The body of the loop over [results.items()]. *)
Definition render_item (output_dir : option string)
    (item : string * ChangeResult float) : Act render_line unit :=
  let r := item.2 in
  emit (Subplots 1 3 (18, 6));;
  panel ← index0 (difference r);
  imshow 0 panel RdBu (IntValue (-500)) (IntValue 500);;
  emit (SetTitle 0 (raw_title (date1 r) (date2 r)));;
  emit (Colorbar 0 "Pixel value difference");;
  panel ← index0 (abs_difference r);
  imshow 1 panel hot (IntValue 0) (IntValue 500);;
  emit (SetTitle 1 (absolute_title (date1 r) (date2 r)));;
  emit (Colorbar 1 "Absolute pixel value difference");;
  panel ← index0 (abs_difference r);
  imshow 2 (thresholded (max_difference r) panel) hot (IntValue 0)
    (FloatValue (max_difference r));;
  emit (SetTitle 2 (significant_title (date1 r) (date2 r)));;
  emit (Colorbar 2 "Changes above threshold");;
  emit TightLayout;;
  save_figure output_dir (date1 r) (date2 r);;
  emit Show.

(** [results.items()] on what the detector returned: [None] has no such
    attribute. *)
Definition items {L V} (results : option (dict V)) : Act L (dict V) :=
  match results with
  | Some d => mret d
  | None => fail (AttributeError "'NoneType' object has no attribute 'items'")
  end.

(** [visualize_changes]; [path_exists] is [os.path.exists] at the time
    of the call and [can_create] tells whether [os.makedirs] succeeds.
    The calls into matplotlib are recorded, not modelled further. *)
Definition visualize_changes (path_exists can_create : string -> bool)
    (results : option (dict (ChangeResult float)))
    (output_dir : option string) : Act render_line unit :=
  (match output_dir with
   | Some (String _ _ as dir) =>
       if negb (path_exists dir) then makedirs MakeDirs can_create dir
       else mret tt
   | _ => mret tt
   end);;
  results ← items results;
  act_iter (render_item output_dir) results.

(** ** The driver *)

Definition data_dir : string :=
  "/Users/user/Desktop/satellite-inference/data/raw".
Definition output_dir : string :=
  "/Users/user/Desktop/satellite-inference/results".

Inductive main_line :=
  | MainMakeDirs (path : string)
  | LoadingImages
  | FromLoader (l : load_line)
  | NeedTwoImagesForComparison
  | ComparingImages
  | FromDetector (l : compare_line)
  | VisualizingChanges
  | FromRenderer (l : render_line)
  | EstimatingVolumeChanges
  | FromEstimator (l : volume_line float)
  | AnalysisComplete.

(** What [os.path.exists] answers once [path] has been created. *)
Definition created (path : string) (path_exists : string -> bool)
    : string -> bool :=
  fun q => String.eqb q path || path_exists q.

(** [main], on a POSIX system: [path_exists] is [os.path.exists] when
    the program starts, [can_create] tells whether [os.makedirs]
    succeeds, and the other parameters stand for the file system, the C
    library and the raster library as in the loader. *)
Definition main (path_exists can_create : string -> bool)
    (scandir glob_dirs : string -> list string) (pad_year : bool)
    (getctime : string -> exn + date) (read_raster : string -> option raster)
    : Act main_line unit :=
  path_exists ←
    (if negb (path_exists output_dir)
     then makedirs MainMakeDirs can_create output_dir;;
          mret (created output_dir path_exists)
     else mret path_exists);
  emit LoadingImages;;
  images ← lift FromLoader
    (load_images_from_directory scandir glob_dirs strptime_cpython pad_year
       getctime read_raster data_dir);
  if (length images <? 2)%nat then
    emit NeedTwoImagesForComparison
  else
    emit ComparingImages;;
    results ← lift FromDetector (compare_images images);
    emit VisualizingChanges;;
    within FromRenderer
      (visualize_changes path_exists can_create results (Some output_dir));;
    emit EstimatingVolumeChanges;;
    results ← items results;
    volume_estimates ← lift FromEstimator
      (estimate_volume_changes results default_pixel_area);
    emit AnalysisComplete.

(** ** Vocabulary of the renderer *)

(** An array whose first slice [imshow] can draw. *)
Definition drawable {A} (a : ndarray A) : bool :=
  match shape a with
  | S _ :: rest => imshow_accepts rest
  | _ => false
  end.

(** The first slice of an array with a non-empty first axis. *)
Definition slice0 {A} (a : ndarray A) : ndarray A :=
  NdArray (tail (shape a)) (take (foldr Nat.mul 1 (tail (shape a))) (data a)).

(** The lines of saving one figure. *)
Definition save_lines (output_dir : option string) (d1 d2 : string)
    : list render_line :=
  match output_dir with
  | Some (String _ _ as dir) =>
      [Savefig (figure_path dir d1 d2) 300;
       SavedVisualization (figure_path dir d1 d2)]
  | _ => []
  end.

(** Everything the renderer does for one record it can draw. *)
Definition item_lines (output_dir : option string) (r : ChangeResult float)
    : list render_line :=
  [Subplots 1 3 (18, 6);
   Imshow 0 (slice0 (difference r)) RdBu (IntValue (-500)) (IntValue 500);
   SetTitle 0 (raw_title (date1 r) (date2 r));
   Colorbar 0 "Pixel value difference";
   Imshow 1 (slice0 (abs_difference r)) hot (IntValue 0) (IntValue 500);
   SetTitle 1 (absolute_title (date1 r) (date2 r));
   Colorbar 1 "Absolute pixel value difference";
   Imshow 2 (thresholded (max_difference r) (slice0 (abs_difference r))) hot
     (IntValue 0) (FloatValue (max_difference r));
   SetTitle 2 (significant_title (date1 r) (date2 r));
   Colorbar 2 "Changes above threshold";
   TightLayout]
  ++ save_lines output_dir (date1 r) (date2 r) ++ [Show].

(** The paths of the figures a trace saves. *)
Definition saved_paths (out : list render_line) : list string :=
  omap (fun line => match line with Savefig path _ => Some path | _ => None end)
    out.

(** The directories a trace creates. *)
Definition created_dirs (out : list render_line) : list string :=
  omap (fun line => match line with MakeDirs path => Some path | _ => None end)
    out.

(** A raster as the raster library reads it: bands, rows and columns,
    with at least one band and one pixel. *)
Definition band_stack (r : raster) : bool :=
  match raster_shape r with
  | [S _; _; _] => negb (raster_size r =? 0)%nat
  | _ => false
  end.

(** The line of creating the output directory, when the renderer does. *)
Definition dir_lines (path_exists : string -> bool)
    (output_dir : option string) : list render_line :=
  match output_dir with
  | Some (String _ _ as dir) => if path_exists dir then [] else [MakeDirs dir]
  | _ => []
  end.

(** A record both of whose arrays the renderer can draw. *)
Definition drawable_record (r : ChangeResult float) : bool :=
  drawable (difference r) && drawable (abs_difference r).

(** The two exceptions of a record that cannot be drawn. *)
Definition shape_fault (f : fault) : Prop :=
  (exists msg, f = IndexError msg) \/ (exists shp, f = TypeError shp).

(** What goes wrong with the panel of an array, if anything: the
    [IndexError] of [a[0]], or the [TypeError] of [imshow] on the
    slice. *)
Definition panel_fault {A} (a : ndarray A) : option fault :=
  match shape a with
  | [] =>
      Some (IndexError
        "too many indices for array: array is 0-dimensional, but 1 were indexed")
  | 0 :: _ => Some (IndexError "index 0 is out of bounds for axis 0 with size 0")
  | S _ :: rest => if imshow_accepts rest then None else Some (TypeError rest)
  end.

(** Where the renderer stops on a record, if it does: after the first
    line of the figure when the difference has no panel, after the four
    lines of the first panel when the absolute difference has none. *)
Definition record_fault (r : ChangeResult float) : option (nat * fault) :=
  match panel_fault (difference r) with
  | Some f => Some (1, f)
  | None =>
      match panel_fault (abs_difference r) with
      | Some f => Some (4, f)
      | None => None
      end
  end.

(** The output directory has to be created: one is given and nothing is
    at its path. *)
Definition missing_dir (path_exists : string -> bool)
    (output_dir : option string) : option string :=
  match output_dir with
  | Some (String _ _ as dir) => if path_exists dir then None else Some dir
  | _ => None
  end.

(** ** Vocabulary of the driver *)

(** Every line of the trace satisfies [P]. *)
Definition prints_only {L A} (P : L -> Prop) (m : Act L A) : Prop :=
  Forall P (trace m).

(** If the computation fails, its fault satisfies [Q]. *)
Definition fails_only {L A} (Q : fault -> Prop) (m : Act L A) : Prop :=
  match result m with
  | inl f => Q f
  | inr _ => True
  end.

(** The faults of the later stages of [main]: the [ValueError] of a
    zero-size raster, and the two exceptions of a record that cannot be
    drawn. *)
Definition main_fault (f : fault) : Prop :=
  f = Raised (ValueError zero_size_message) \/ shape_fault f.

(** The output directory is there when [main] starts, or can be
    created. *)
Definition output_dir_available (path_exists can_create : string -> bool)
    : Prop :=
  path_exists output_dir = true \/ can_create output_dir = true.

(** A line [main] never prints: the detector's own complaint about
    fewer than two images, or a directory created by the renderer. *)
Definition dead_line (line : main_line) : Prop :=
  line = FromDetector NeedTwoImages
  \/ exists path, line = FromRenderer (MakeDirs path).

(** The line of creating the output directory, when [main] does. *)
Definition main_dir_lines (path_exists : string -> bool) : list main_line :=
  if path_exists output_dir then [] else [MainMakeDirs output_dir].

(** * Properties *)

(** ** The order on keys *)

Lemma string_compare_trans_le a : forall b c,
  String.compare a b <> Gt -> String.compare b c <> Gt -> String.compare a c <> Gt.
Proof.
  induction a as [|x a IH]; intros [|y b] [|z c]; simpl; try congruence.
  unfold Ascii.compare.
  destruct (N.compare_spec (N_of_ascii x) (N_of_ascii y)) as [Hxy|Hxy|Hxy];
    destruct (N.compare_spec (N_of_ascii y) (N_of_ascii z)) as [Hyz|Hyz|Hyz];
    try congruence.
  - rewrite Hxy, Hyz, N.compare_refl. apply IH.
  - intros _ _. rewrite Hxy. apply N.compare_lt_iff in Hyz. rewrite Hyz. congruence.
  - intros _ _. rewrite <- Hyz. apply N.compare_lt_iff in Hxy. rewrite Hxy. congruence.
  - intros _ _. assert (Hxz : (N_of_ascii x < N_of_ascii z)%N) by lia.
    apply N.compare_lt_iff in Hxz. rewrite Hxz. congruence.
Qed.

Lemma str_le_compare a b : str_le a b <-> String.compare a b <> Gt.
Proof.
  unfold str_le, String.leb. destruct (String.compare a b); split; congruence.
Qed.

#[export] Instance str_le_trans : Transitive str_le.
Proof.
  intros a b c. rewrite !str_le_compare. apply string_compare_trans_le.
Qed.

#[export] Instance str_le_total : Total str_le.
Proof. intros a b. apply String.leb_total. Qed.

#[export] Instance str_le_antisymm : AntiSymm (=) str_le.
Proof. intros a b. apply String.leb_antisym. Qed.

Lemma sorted_Sorted l : Sorted str_le (sorted l).
Proof. apply Sorted_merge_sort. apply _. Qed.

Lemma sorted_Permutation l : sorted l ≡ₚ l.
Proof. apply merge_sort_Permutation. Qed.

Lemma sorted_unique l1 l2 : l1 ≡ₚ l2 -> sorted l1 = sorted l2.
Proof.
  intros Hp. apply (Sorted_unique str_le); try apply sorted_Sorted.
  rewrite !sorted_Permutation. exact Hp.
Qed.

(** ** Signs and rounding in binary64 *)

Section Rounding.
Local Open Scope Z_scope.

Lemma iter_pos_invariant {A} (P : A -> Prop) (f : A -> A) :
  (forall x, P x -> P (f x)) -> forall n x, P x -> P (SpecFloat.iter_pos f n x).
Proof.
  intros Hf. induction n as [n IH|n IH|]; intros x Hx; simpl; auto.
Qed.

Lemma shr_1_nonneg mrs : 0 <= shr_m mrs -> 0 <= shr_m (shr_1 mrs).
Proof.
  destruct mrs as [m r s]. simpl.
  destruct m as [|p|p]; [easy| |lia].
  destruct p; simpl; lia.
Qed.

Lemma shr_nonneg mrs e n : 0 <= shr_m mrs -> 0 <= shr_m (shr mrs e n).1.
Proof.
  intros Hm. destruct n as [|p|p]; simpl; auto.
  apply (iter_pos_invariant (fun x => 0 <= shr_m x)); auto using shr_1_nonneg.
Qed.

Lemma shr_fexp_nonneg m e l :
  0 <= m -> 0 <= shr_m (shr_fexp F64.prec F64.emax m e l).1.
Proof.
  intros Hm. unfold shr_fexp. apply shr_nonneg.
  destruct l as [|[]]; simpl; exact Hm.
Qed.

Lemma round_nearest_even_nonneg m l : 0 <= m -> 0 <= round_nearest_even m l.
Proof.
  intros Hm. destruct l as [|[]]; simpl; try lia.
  destruct (Z.even m); lia.
Qed.

Lemma binary_round_aux_sign s m e l :
  0 <= m -> same_sign s (binary_round_aux F64.prec F64.emax s m e l).
Proof.
  intros Hm. unfold binary_round_aux.
  pose proof (shr_fexp_nonneg m e l Hm) as H1.
  destruct (shr_fexp F64.prec F64.emax m e l) as [mrs' e'].
  simpl in H1.
  pose proof (shr_fexp_nonneg _ e' loc_Exact
                (round_nearest_even_nonneg _ (loc_of_shr_record mrs') H1)) as H2.
  destruct (shr_fexp F64.prec F64.emax _ e' loc_Exact) as [mrs'' e''].
  simpl in H2.
  destruct (shr_m mrs'') as [|p|p]; simpl; [reflexivity| |lia].
  destruct (e'' <=? F64.emax - F64.prec); reflexivity.
Qed.

Lemma binary_round_sign s m e :
  same_sign s (binary_round F64.prec F64.emax s m e).
Proof.
  unfold binary_round.
  destruct (shl_align m e _) as [mz ez].
  apply binary_round_aux_sign. lia.
Qed.

Lemma binary_normalize_not_nan m e sz :
  F64.is_nan (binary_normalize F64.prec F64.emax m e sz) = false.
Proof.
  destruct m as [|p|p]; simpl; [reflexivity| |].
  - pose proof (binary_round_sign false p e) as H.
    destruct (binary_round _ _ false p e); simpl in *; auto; contradiction.
  - pose proof (binary_round_sign true p e) as H.
    destruct (binary_round _ _ true p e); simpl in *; auto; contradiction.
Qed.
End Rounding.

(** [x <= 0] and [0 <= x] as shapes of the value. *)
Lemma leb_zero_r x :
  F64.leb x F64.zero = true <->
  match x with
  | S754_zero _ | S754_infinity true | S754_finite true _ _ => True
  | _ => False
  end.
Proof. destruct x as [[]|[]| |[] m e]; simpl; split; (easy || auto). Qed.

Lemma leb_zero_l x :
  F64.leb F64.zero x = true <->
  match x with
  | S754_zero _ | S754_infinity false | S754_finite false _ _ => True
  | _ => False
  end.
Proof. destruct x as [[]|[]| |[] m e]; simpl; split; (easy || auto). Qed.

Lemma add_finite_same_sign s mx ex my ey :
  same_sign s (F64.add (S754_finite s mx ex) (S754_finite s my ey)).
Proof.
  unfold F64.add, SFadd.
  set (a := fst (shl_align mx ex (Z.min ex ey))).
  set (b := fst (shl_align my ey (Z.min ex ey))).
  destruct s; simpl.
  - change (Z.neg a + Z.neg b)%Z with (Z.neg (a + b)). simpl.
    apply (binary_round_sign true).
  - change (Z.pos a + Z.pos b)%Z with (Z.pos (a + b)). simpl.
    apply (binary_round_sign false).
Qed.

Lemma add_nonpos x y :
  F64.leb x F64.zero = true -> F64.leb y F64.zero = true ->
  F64.leb (F64.add x y) F64.zero = true.
Proof.
  rewrite !leb_zero_r.
  destruct x as [[]|[]| |[] mx ex], y as [[]|[]| |[] my ey]; try easy.
  intros _ _. pose proof (add_finite_same_sign true mx ex my ey) as H.
  destruct (F64.add _ _) as [|[]| |[]]; simpl in *; auto; congruence.
Qed.

Lemma add_nonneg x y :
  F64.leb F64.zero x = true -> F64.leb F64.zero y = true ->
  F64.leb F64.zero (F64.add x y) = true.
Proof.
  rewrite !leb_zero_l.
  destruct x as [[]|[]| |[] mx ex], y as [[]|[]| |[] my ey]; try easy.
  intros _ _. pose proof (add_finite_same_sign false mx ex my ey) as H.
  destruct (F64.add _ _) as [|[]| |[]]; simpl in *; auto; congruence.
Qed.

(** ** The order of binary64 away from NaN *)

Ltac compare_cases :=
  repeat match goal with
  | |- context [(?a ?= ?b)%Z] =>
      destruct (Z.compare_spec a b); try lia; subst; simpl
  | |- context [Pos.compare_cont Eq ?a ?b] =>
      change (Pos.compare_cont Eq a b) with (a ?= b)%positive;
      destruct (Pos.compare_spec a b); try lia; subst; simpl
  end.

Lemma leb_refl x : F64.is_nan x = false -> F64.leb x x = true.
Proof.
  destruct x as [s|[]| |[] m e]; unfold F64.leb, SFleb; simpl;
    try easy; intros _;
    change (Pos.compare_cont Eq m m) with (m ?= m)%positive;
    rewrite Z.compare_refl, Pos.compare_refl; reflexivity.
Qed.

Lemma leb_total x y :
  F64.is_nan x = false -> F64.is_nan y = false ->
  F64.leb x y = true \/ F64.leb y x = true.
Proof.
  destruct x as [s|[]| |[] m e], y as [s'|[]| |[] m' e'];
    unfold F64.leb, SFleb; simpl; try easy; auto;
    intros _ _; compare_cases; auto.
Qed.

Lemma leb_trans x y z :
  F64.leb x y = true -> F64.leb y z = true -> F64.leb x z = true.
Proof.
  destruct x as [s|[]| |[] m e], y as [s'|[]| |[] m' e'],
           z as [s''|[]| |[] m'' e''];
    unfold F64.leb, SFleb; simpl; try easy;
    compare_cases; easy.
Qed.

(** ** [np.max] *)

Lemma foldl_maximum_nan l : foldl maximum S754_nan l = S754_nan.
Proof. induction l as [|y l IH]; simpl; auto. Qed.

Lemma foldl_maximum_propagates l : forall acc,
  F64.is_nan acc = true \/ Exists (fun x => F64.is_nan x = true) l ->
  foldl maximum acc l = S754_nan.
Proof.
  induction l as [|y l IH]; intros acc [Hacc|Hex]; simpl.
  - destruct acc; easy.
  - inversion Hex.
  - destruct acc; try easy. apply foldl_maximum_nan.
  - apply IH. inversion Hex as [? ? Hy|? ? Hl]; subst; [left|right; exact Hl].
    unfold maximum. destruct (F64.is_nan acc) eqn:Ha; simpl; [exact Ha|].
    destruct y; try easy.
Qed.

Lemma foldl_maximum_upper l : forall acc,
  F64.is_nan acc = false -> Forall (fun x => F64.is_nan x = false) l ->
  F64.is_nan (foldl maximum acc l) = false
  /\ F64.leb acc (foldl maximum acc l) = true
  /\ Forall (fun x => F64.leb x (foldl maximum acc l) = true) l.
Proof.
  induction l as [|y l IH]; intros acc Hacc Hl; simpl.
  - split; [exact Hacc|]. split; [apply leb_refl, Hacc|constructor].
  - inversion Hl as [|? ? Hy Hl']; subst.
    assert (Hstep : F64.is_nan (maximum acc y) = false
                    /\ F64.leb acc (maximum acc y) = true
                    /\ F64.leb y (maximum acc y) = true).
    { unfold maximum. rewrite Hacc. simpl.
      destruct (F64.leb y acc) eqn:Hle.
      - split; [exact Hacc|]. split; [apply leb_refl, Hacc|exact Hle].
      - split; [exact Hy|]. split; [|apply leb_refl, Hy].
        destruct (leb_total y acc Hy Hacc) as [H|H]; congruence. }
    destruct Hstep as (Hn & Ha & Hb).
    destruct (IH (maximum acc y) Hn Hl') as (Hn' & Hm & Hall).
    split; [exact Hn'|]. split; [eapply leb_trans; eassumption|].
    constructor; [eapply leb_trans; eassumption|exact Hall].
Qed.

Lemma np_max_upper l m :
  np_max l = Some m -> Forall (fun x => F64.is_nan x = false) l ->
  Forall (fun x => F64.leb x m = true) l.
Proof.
  destruct l as [|x l]; [discriminate|]. simpl. intros [= <-] Hl.
  inversion Hl as [|? ? Hx Hl']; subst.
  destruct (foldl_maximum_upper l x Hx Hl') as (_ & Hm & Hall).
  constructor; assumption.
Qed.

Lemma np_max_nan l m :
  np_max l = Some m -> Exists (fun x => F64.is_nan x = true) l ->
  m = S754_nan.
Proof.
  destruct l as [|x l]; [discriminate|]. simpl. intros [= <-] Hex.
  apply foldl_maximum_propagates.
  inversion Hex; subst; auto.
Qed.

(** ** numpy's pairwise summation *)

Lemma pairwise_sum_eq `{Num F} (depth : nat) (l : list F) :
  pairwise_sum depth l
  = if (length l <? 8)%nat then foldl num_add num_zero l
    else if (length l <=? 128)%nat then block_sum l
    else match depth with
         | 0 => block_sum l
         | S depth' =>
             let n2 := (length l / 2 - (length l / 2) mod 8)%nat in
             num_add (pairwise_sum depth' (take n2 l))
               (pairwise_sum depth' (drop n2 l))
         end.
Proof. destruct depth; reflexivity. Qed.

(** The bound on the depth is immaterial once it reaches the length. *)
Lemma pairwise_sum_depth `{Num F} (d : nat) : forall (d' : nat) (l : list F),
  length l <= d -> length l <= d' -> pairwise_sum d l = pairwise_sum d' l.
Proof.
  induction d as [|d IH]; intros d' l Hd Hd'; rewrite !pairwise_sum_eq.
  - destruct l; [|simpl in Hd; lia]. reflexivity.
  - destruct (Nat.ltb_spec (length l) 8) as [|H8]; [reflexivity|].
    destruct (Nat.leb_spec (length l) 128) as [|H128]; [reflexivity|].
    destruct d' as [|d']; [lia|]. cbv zeta.
    set (n2 := (length l / 2 - (length l / 2) mod 8)%nat).
    assert (57 <= n2 /\ n2 < length l) as [Hlo Hhi].
    { subst n2. pose proof (Nat.mod_upper_bound (length l / 2) 8).
      pose proof (Nat.Div0.div_le_upper_bound (length l) 2 (length l)).
      assert (64 <= length l / 2) by (apply Nat.div_le_lower_bound; lia).
      assert (length l / 2 < length l) by (apply Nat.div_lt; lia).
      lia. }
    f_equal; apply IH; rewrite ?length_take, ?length_drop; lia.
Qed.

Section PairwiseClosed.
Context {F : Type} `{Num F}.
Variable P : F -> Prop.
Hypothesis P_zero : P num_zero.
Hypothesis P_add : forall x y, P x -> P y -> P (num_add x y).

Lemma foldl_add_closed (l : list F) : forall acc,
  P acc -> Forall P l -> P (foldl num_add acc l).
Proof.
  induction l as [|x l IH]; intros acc Hacc Hl; simpl; [exact Hacc|].
  inversion Hl; subst. apply IH; [apply P_add|]; assumption.
Qed.

Lemma zip_with_add_closed (r : list F) : forall b,
  Forall P r -> Forall P b -> Forall P (zip_with num_add r b).
Proof.
  induction r as [|x r IH]; intros [|y b] Hr Hb; simpl; try constructor;
    inversion Hr; inversion Hb; subst; auto.
Qed.

Lemma unrolled_closed (blocks : nat) : forall r l,
  Forall P r -> Forall P l ->
  Forall P (unrolled blocks r l).1 /\ Forall P (unrolled blocks r l).2.
Proof.
  induction blocks as [|blocks IH]; intros r l Hr Hl; simpl; [by split|].
  apply IH; [apply zip_with_add_closed; [exact Hr|by apply Forall_take]|].
  by apply Forall_drop.
Qed.

Lemma combine8_closed (r : list F) : Forall P r -> P (combine8 r).
Proof.
  intros Hr. unfold combine8.
  repeat (destruct r as [|? r]; [exact P_zero|]).
  destruct r; [|exact P_zero].
  repeat match goal with
         | Hf : Forall P (_ :: _) |- _ =>
             apply Forall_cons in Hf; destruct Hf as [? Hf]
         end.
  repeat apply P_add; assumption.
Qed.

Lemma block_sum_closed (l : list F) : Forall P l -> P (block_sum l).
Proof.
  intros Hl. unfold block_sum.
  destruct (unrolled_closed (length l / 8 - 1) (take 8 l) (drop 8 l))
    as [Hr Hrest]; [by apply Forall_take|by apply Forall_drop|].
  destruct (unrolled _ _ _) as [r rest].
  apply foldl_add_closed; [apply combine8_closed, Hr|exact Hrest].
Qed.

Lemma pairwise_sum_closed (depth : nat) : forall l : list F,
  Forall P l -> P (pairwise_sum depth l).
Proof.
  induction depth as [|depth IH]; intros l Hl; rewrite pairwise_sum_eq;
    destruct (length l <? 8)%nat; try (by apply foldl_add_closed);
    destruct (length l <=? 128)%nat; try (by apply block_sum_closed).
  cbv zeta. apply P_add; apply IH; [by apply Forall_take|by apply Forall_drop].
Qed.

(** What zero has and addition keeps, the sum of a list has. *)
Lemma np_sum_closed (l : list F) : Forall P l -> P (np_sum l).
Proof.
  intros Hl. unfold np_sum. apply P_add; [exact P_zero|].
  by apply pairwise_sum_closed.
Qed.
End PairwiseClosed.

(** Below eight elements the sum is the plain loop from zero. *)
Lemma np_sum_short `{Num F} (l : list F) :
  length l < 8 -> np_sum l = num_add num_zero (foldl num_add num_zero l).
Proof.
  intros Hl. unfold np_sum. rewrite pairwise_sum_eq.
  destruct (Nat.ltb_spec (length l) 8); [reflexivity|lia].
Qed.

(** Some versions of numpy start the plain loop from -0.0 rather than
    0.0.  Added to the identity 0.0 of [np.add], the result is the same
    number, sign of zero included. *)
Lemma add_zero_start (a b x : float) :
  a = b \/ (F64.is_zero a = true /\ F64.is_zero b = true) ->
  F64.add a x = F64.add b x
  \/ (F64.is_zero (F64.add a x) = true /\ F64.is_zero (F64.add b x) = true).
Proof.
  intros [->|[Ha Hb]]; [by left|].
  destruct a as [sa| | |]; try discriminate.
  destruct b as [sb| | |]; try discriminate.
  destruct x as [sx|sx| |sx mx ex]; [right|left|left|left];
    destruct sa, sb; try destruct sx; try split; reflexivity.
Qed.

Lemma foldl_add_zero_start (l : list float) : forall a b,
  a = b \/ (F64.is_zero a = true /\ F64.is_zero b = true) ->
  foldl F64.add a l = foldl F64.add b l
  \/ (F64.is_zero (foldl F64.add a l) = true
      /\ F64.is_zero (foldl F64.add b l) = true).
Proof.
  induction l as [|x l IH]; intros a b Hab; [exact Hab|].
  simpl. apply IH. by apply add_zero_start.
Qed.

Lemma np_sum_start_immaterial (l : list float) :
  F64.add F64.zero (foldl F64.add (S754_zero true) l)
  = F64.add F64.zero (foldl F64.add F64.zero l).
Proof.
  destruct (foldl_add_zero_start l (S754_zero true) F64.zero) as [->|[Ha Hb]];
    [by right|done|].
  destruct (foldl F64.add (S754_zero true) l) as [sa| | |]; try discriminate.
  destruct (foldl F64.add F64.zero l) as [sb| | |]; try discriminate.
  by destruct sa, sb.
Qed.

(** ** Sums of one sign *)

Lemma ltb_leb x y : F64.ltb x y = true -> F64.leb x y = true.
Proof.
  unfold F64.ltb, F64.leb, SFltb, SFleb.
  destruct (SFcompare x y) as [[]|]; easy.
Qed.

Lemma opp_nonpos x : F64.leb x F64.zero = true -> F64.leb F64.zero (F64.opp x) = true.
Proof. destruct x as [[]|[]| |[] m e]; easy. Qed.

Lemma sum_negative_nonpos (l : list float) :
  F64.leb (np_sum (select_negative l)) F64.zero = true.
Proof.
  apply (np_sum_closed (fun x => F64.leb x F64.zero = true));
    [reflexivity|apply add_nonpos|].
  apply Forall_forall. intros x Hx.
  apply list_elem_of_filter in Hx as [Hx _]. apply ltb_leb, Hx.
Qed.

Lemma sum_positive_nonneg (l : list float) :
  F64.leb F64.zero (np_sum (select_positive l)) = true.
Proof.
  apply (np_sum_closed (fun x => F64.leb F64.zero x = true));
    [reflexivity|apply add_nonneg|].
  apply Forall_forall. intros x Hx.
  apply list_elem_of_filter in Hx as [Hx _]. apply ltb_leb, Hx.
Qed.

(** A zero pixel times anything is a zero or NaN: neither mask takes it. *)
Lemma mul_zero_unselected d a :
  F64.is_zero d = true ->
  F64.ltb (F64.mul d a) F64.zero = false
  /\ F64.ltb F64.zero (F64.mul d a) = false.
Proof.
  destruct d as [s| | |]; try discriminate. intros _.
  destruct s, a as [[]|[]| |[] m e]; easy.
Qed.

(** ** Promotion of integers and differences of finite numbers *)

Lemma digits2_pos_lower (m : positive) :
  (2 ^ (Z.pos (digits2_pos m) - 1) <= Z.pos m)%Z.
Proof.
  induction m as [m IH|m IH|]; simpl digits2_pos; [| |simpl; lia].
  - rewrite Pos2Z.inj_succ.
    replace (Z.succ (Z.pos (digits2_pos m)) - 1)%Z
      with (Z.succ (Z.pos (digits2_pos m) - 1)) by lia.
    rewrite Z.pow_succ_r by lia. lia.
  - rewrite Pos2Z.inj_succ.
    replace (Z.succ (Z.pos (digits2_pos m)) - 1)%Z
      with (Z.succ (Z.pos (digits2_pos m) - 1)) by lia.
    rewrite Z.pow_succ_r by lia. lia.
Qed.

Lemma digits2_pos_small (m : positive) :
  (Z.pos m < 2 ^ 53)%Z -> (Z.pos (digits2_pos m) <= 53)%Z.
Proof.
  intros Hm. pose proof (digits2_pos_lower m) as Hd.
  destruct (Z.le_gt_cases (Z.pos (digits2_pos m)) 53) as [?|Hgt]; [assumption|].
  exfalso.
  assert (2 ^ 53 <= 2 ^ (Z.pos (digits2_pos m) - 1))%Z
    by (apply Z.pow_le_mono_r; lia).
  lia.
Qed.

Lemma digits2_pos_iter_xO (k m : positive) :
  digits2_pos (Pos.iter xO m k) = (digits2_pos m + k)%positive.
Proof.
  induction k as [|k IH] using Pos.peano_ind.
  - simpl. lia.
  - rewrite Pos.iter_succ. simpl. rewrite IH. lia.
Qed.

(** A mantissa of exactly 53 bits with an exponent in range is a fixed
    point of rounding. *)
Lemma binary_round_aux_canonical s (m : positive) (e : Z) :
  Z.pos (digits2_pos m) = 53%Z -> (-1074 <= e <= 971)%Z ->
  binary_round_aux F64.prec F64.emax s (Z.pos m) e loc_Exact
  = S754_finite s m e.
Proof.
  intros Hd He. unfold binary_round_aux.
  assert (Hshr : shr_fexp F64.prec F64.emax (Z.pos m) e loc_Exact
                 = ({| shr_m := Z.pos m; shr_r := false; shr_s := false |}, e)).
  { unfold shr_fexp, fexp, emin, F64.prec, F64.emax. simpl Zdigits2. rewrite Hd.
    replace (Z.max (53 + e - 53) (3 - 1024 - 53) - e)%Z with 0%Z by lia.
    reflexivity. }
  rewrite Hshr. simpl. rewrite Hshr. simpl.
  destruct (Z.leb_spec e (F64.emax - F64.prec)) as [_|Hgt]; [reflexivity|].
  unfold F64.emax, F64.prec in Hgt. lia.
Qed.

(** Integers below 2^53 in magnitude promote to finite floats. *)
Lemma of_Z_finite (z : Z) :
  (Z.abs z < 2 ^ 53)%Z -> F64.is_finite (F64.of_Z z) = true.
Proof.
  intros Hz. unfold F64.of_Z, binary_normalize.
  assert (Hround : forall s (m : positive), (Z.pos m < 2 ^ 53)%Z ->
            F64.is_finite (binary_round F64.prec F64.emax s m 0) = true).
  { intros s m Hm. pose proof (digits2_pos_small m Hm) as Hd.
    unfold binary_round, shl_align, fexp, emin, F64.prec, F64.emax.
    replace (Z.max (Z.pos (digits2_pos m) + 0 - 53) (3 - 1024 - 53) - 0)%Z
      with (Z.pos (digits2_pos m) - 53)%Z by lia.
    destruct (Z.pos (digits2_pos m) - 53)%Z as [|d|d] eqn:Hdiff; [|lia|].
    - change (binary_round_aux 53 1024 s (Z.pos m) 0 loc_Exact)
        with (binary_round_aux F64.prec F64.emax s (Z.pos m) 0 loc_Exact).
      rewrite binary_round_aux_canonical by lia. reflexivity.
    - replace (Z.max (Z.pos (digits2_pos m) + 0 - 53) (3 - 1024 - 53))
        with (Z.neg d) by lia.
      change (binary_round_aux 53 1024 s (Z.pos (Pos.iter xO m d)) (Z.neg d) loc_Exact)
        with (binary_round_aux F64.prec F64.emax s (Z.pos (Pos.iter xO m d))
                (Z.neg d) loc_Exact).
      rewrite binary_round_aux_canonical; [reflexivity| |lia].
      rewrite digits2_pos_iter_xO. lia. }
  destruct z as [|m|m]; [reflexivity| |]; apply Hround; lia.
Qed.

Lemma sub_finite_not_nan (a b : float) :
  F64.is_finite a = true -> F64.is_finite b = true ->
  F64.is_nan (F64.sub a b) = false.
Proof.
  destruct a as [[]| | |sa ma ea], b as [[]| | |sb mb eb]; try easy.
  intros _ _. unfold F64.sub, SFsub. apply binary_normalize_not_nan.
Qed.

Lemma abs_not_nan (x : float) : F64.is_nan (F64.abs x) = F64.is_nan x.
Proof. destruct x; reflexivity. Qed.

(** ** Dictionaries *)

Section Dict.
Context {V : Type}.
Implicit Types (d : dict V) (k : string) (v : V).

Lemma dict_get_elem k d v : dict_get k d = Some v -> (k, v) ∈ d.
Proof.
  induction d as [|[k' v'] d IH]; simpl; [discriminate|].
  destruct (String.eqb_spec k' k) as [->|Hne].
  - intros [= ->]. left.
  - intros H. right. auto.
Qed.

Lemma dict_get_None k d : dict_get k d = None <-> k ∉ dict_keys d.
Proof.
  induction d as [|[k' v'] d IH]; simpl.
  - split; [intros _; apply not_elem_of_nil|reflexivity].
  - rewrite not_elem_of_cons. destruct (String.eqb_spec k' k) as [->|Hne].
    + split; [discriminate|intros [? _]; congruence].
    + rewrite IH. split; [intros ?; split; congruence|intros [_ ?]; assumption].
Qed.

Lemma dict_get_is_Some k d : k ∈ dict_keys d -> is_Some (dict_get k d).
Proof.
  intros Hk. destruct (dict_get k d) eqn:E; [eauto|].
  apply dict_get_None in E. contradiction.
Qed.

Lemma dict_get_NoDup k v d :
  NoDup (dict_keys d) -> (k, v) ∈ d -> dict_get k d = Some v.
Proof.
  induction d as [|[k' v'] d IH]; simpl; intros Hnd Hin.
  - apply elem_of_nil in Hin. contradiction.
  - apply NoDup_cons in Hnd as [Hk' Hnd].
    apply elem_of_cons in Hin as [[= -> ->]|Hin].
    + rewrite String.eqb_refl. reflexivity.
    + destruct (String.eqb_spec k' k) as [->|Hne]; [|auto].
      exfalso. apply Hk'. apply list_elem_of_fmap. exists (k, v). auto.
Qed.

Lemma dict_get_Permutation d d' k :
  NoDup (dict_keys d) -> d ≡ₚ d' -> dict_get k d = dict_get k d'.
Proof.
  intros Hnd Hp.
  assert (Hk : dict_keys d ≡ₚ dict_keys d') by (unfold dict_keys; rewrite Hp; reflexivity).
  destruct (dict_get k d) as [v|] eqn:E.
  - symmetry. apply dict_get_NoDup; [rewrite <- Hk; exact Hnd|].
    rewrite <- Hp. apply dict_get_elem, E.
  - symmetry. apply dict_get_None. rewrite <- Hk. apply dict_get_None, E.
Qed.

Lemma dict_set_fresh k v d : k ∉ dict_keys d -> dict_set k v d = d ++ [(k, v)].
Proof.
  induction d as [|[k' v'] d IH]; simpl; [reflexivity|].
  rewrite not_elem_of_cons. intros [Hne Hk].
  destruct (String.eqb_spec k' k); [congruence|]. rewrite IH; auto.
Qed.

Lemma dict_set_elem k v d kv : kv ∈ dict_set k v d -> kv = (k, v) \/ kv ∈ d.
Proof.
  induction d as [|[k' v'] d IH]; simpl.
  - rewrite list_elem_of_singleton. auto.
  - destruct (String.eqb_spec k' k) as [->|Hne]; rewrite !elem_of_cons.
    + intros [->|H]; auto.
    + intros [->|H]; auto. destruct (IH H); auto.
Qed.

Lemma foldl_store_fresh {A} (f : A -> option (string * V)) (l : list A) :
  forall d,
  NoDup (dict_keys d ++ (fst <$> omap f l)) ->
  foldl (fun acc a => store_entry acc (f a)) d l = d ++ omap f l.
Proof.
  induction l as [|a l IH]; intros d Hnd; simpl.
  - rewrite app_nil_r. reflexivity.
  - change (omap f (a :: l)) with
      (match f a with Some y => y :: omap f l | None => omap f l end) in *.
    destruct (f a) as [[k v]|]; simpl in *.
    + assert (Hk : k ∉ dict_keys d).
      { apply NoDup_app in Hnd as (_ & Hd & _). intros Hin.
        apply (Hd k Hin). left. }
      rewrite (dict_set_fresh _ _ _ Hk), IH.
      * rewrite <- app_assoc. reflexivity.
      * unfold dict_keys. rewrite fmap_app, <- app_assoc. exact Hnd.
    + apply IH. exact Hnd.
Qed.
End Dict.

(** ** Running the loops *)

(** A loop whose body always returns: the printed lines concatenate and
    the threaded value is a left fold. *)
Lemma for_each_total {L A S} (body : S -> A -> Py L S)
    (lines : A -> list L) (step : S -> A -> S) (l : list A) : forall s,
  (forall s a, a ∈ l -> body s a = (lines a, inr (step s a))) ->
  for_each body l s = (l ≫= lines, inr (foldl step s l)).
Proof.
  induction l as [|a l IH]; intros s Hbody; simpl; [reflexivity|].
  rewrite Hbody by left. simpl.
  rewrite IH by (intros; apply Hbody; right; assumption).
  reflexivity.
Qed.

(** An invariant of the threaded value survives the loop. *)
Lemma for_each_invariant {L A S} (body : S -> A -> Py L S) (I : S -> Prop)
    (l : list A) : forall s out s',
  (forall s a out s', a ∈ l -> I s -> body s a = (out, inr s') -> I s') ->
  I s -> for_each body l s = (out, inr s') -> I s'.
Proof.
  induction l as [|a l IH]; intros s out s' Hbody Hs; simpl.
  - intros [= _ <-]. exact Hs.
  - destruct (body s a) as [out1 [e|s1]] eqn:E; simpl; [discriminate|].
    destruct (for_each body l s1) as [out2 [e|s2]] eqn:E2; simpl; [discriminate|].
    intros [= _ <-].
    eapply IH; [| |exact E2].
    + intros; eapply Hbody; eauto. right; assumption.
    + eapply Hbody; eauto. left.
Qed.

(** ** One pair of dates *)

Lemma astype_float_length r : length (data (astype_float r)) = raster_size r.
Proof. destruct r as [a|a]; simpl; [apply length_fmap|reflexivity]. Qed.

Lemma astype_float_shape r : shape (astype_float r) = raster_shape r.
Proof. destruct r; reflexivity. Qed.

Lemma change_result_is_Some d1 d2 image1 image2 :
  raster_size image1 <> 0 -> raster_size image2 <> 0 ->
  is_Some (change_result d1 d2 image1 image2).
Proof.
  intros H1 H2. unfold change_result.
  rewrite <- astype_float_length in H1, H2.
  destruct (data (astype_float image1)) as [|x xs] eqn:E1; [simpl in H1; lia|].
  destruct (data (astype_float image2)) as [|y ys] eqn:E2; [simpl in H2; lia|].
  simpl. rewrite E1, E2. simpl. eauto.
Qed.

Lemma change_result_dates d1 d2 image1 image2 r :
  change_result d1 d2 image1 image2 = Some r -> date1 r = d1 /\ date2 r = d2.
Proof.
  unfold change_result. destruct (np_max _); simpl; [|discriminate].
  intros [= <-]. split; reflexivity.
Qed.

(** An iteration on two rasters that hold pixels returns normally. *)
Lemma compare_pair_run image_dict results p e1 e2 :
  dict_get p.1 image_dict = Some e1 -> dict_get p.2 image_dict = Some e2 ->
  raster_size (entry_data e1) <> 0 -> raster_size (entry_data e2) <> 0 ->
  compare_pair image_dict results p
  = (pair_lines image_dict p, inr (store_entry results (pair_entry image_dict p))).
Proof.
  intros H1 H2 Hs1 Hs2.
  unfold compare_pair, pair_lines, pair_entry, subscript. rewrite H1, H2. simpl.
  destruct (decide _) as [Hne|Heq]; [reflexivity|].
  destruct (change_result_is_Some p.1 p.2 _ _ Hs1 Hs2) as [r Hr].
  rewrite Hr. simpl.
  destruct (change_result_dates _ _ _ _ _ Hr) as [<- <-]. reflexivity.
Qed.

(** ** Adjacent pairs and period keys *)

Lemma adjacent_pairs_elem {A} (l : list A) a b :
  (a, b) ∈ adjacent_pairs l -> a ∈ l /\ b ∈ l.
Proof.
  induction l as [|x l IH]; simpl; [intros H; apply elem_of_nil in H; easy|].
  destruct l as [|y l]; [intros H; apply elem_of_nil in H; easy|].
  rewrite elem_of_cons. intros [[= -> ->]|H].
  - split; [left|right; left].
  - destruct (IH H); split; right; assumption.
Qed.

(** [adjacent_pairs] is the loop over [i]: its [i]-th pair is
    [(dates[i], dates[i + 1])], and there are [len(dates) - 1] of them. *)
Lemma adjacent_pairs_lookup {A} (l : list A) i a b :
  adjacent_pairs l !! i = Some (a, b) <-> l !! i = Some a /\ l !! S i = Some b.
Proof.
  revert i. induction l as [|x l IH]; intros i; simpl.
  - split; [discriminate|intros [? _]; discriminate].
  - destruct l as [|y l].
    + destruct i; simpl; split; try discriminate; intros [_ ?]; discriminate.
    + destruct i as [|i]; simpl.
      * split; [intros [= -> ->]; auto|intros [[= ->] [= ->]]; reflexivity].
      * apply IH.
Qed.

Lemma adjacent_pairs_length {A} (l : list A) :
  length (adjacent_pairs l) = length l - 1.
Proof.
  induction l as [|x l IH]; [reflexivity|].
  destruct l as [|y l]; [reflexivity|].
  change (S (length (adjacent_pairs (y :: l))) = S (length (y :: l)) - 1).
  rewrite IH. simpl. lia.
Qed.

Lemma adjacent_pairs_fst_NoDup {A} (l : list A) :
  NoDup l -> NoDup (fst <$> adjacent_pairs l).
Proof.
  induction l as [|x l IH]; simpl; [constructor|].
  destruct l as [|y l]; [constructor|].
  intros Hnd. apply NoDup_cons in Hnd as [Hx Hnd].
  change (NoDup (x :: (fst <$> adjacent_pairs (y :: l)))).
  apply NoDup_cons. split; [|auto].
  intros Hin. apply list_elem_of_fmap in Hin as ([a b] & -> & Hab).
  apply adjacent_pairs_elem in Hab as [Ha _]. auto.
Qed.

Lemma append_inj_length (a a' b b' : string) :
  String.length a = String.length a' -> a +:+ b = a' +:+ b' -> a = a' /\ b = b'.
Proof.
  revert a'. induction a as [|c a IH]; intros [|c' a']; simpl; try discriminate.
  - auto.
  - intros [= Hl] [= -> Hab]. destruct (IH a' Hl Hab) as [-> ->]. auto.
Qed.

Lemma append_inj_l (s a b : string) : s +:+ a = s +:+ b -> a = b.
Proof.
  induction s as [|c s IH]; [auto|].
  change (String c (s +:+ a) = String c (s +:+ b) -> a = b).
  intros [= H]. auto.
Qed.

Lemma period_key_inj (a a' b b' : string) :
  String.length a = String.length a' ->
  period_key a b = period_key a' b' -> a = a' /\ b = b'.
Proof.
  unfold period_key. intros Hl H.
  destruct (append_inj_length _ _ _ _ Hl H) as [-> H'].
  split; [reflexivity|]. eapply append_inj_l, H'.
Qed.

Lemma iso_date_key_length k : iso_date_key k = true -> String.length k = 10.
Proof.
  unfold iso_date_key.
  do 11 (destruct k as [|? k]; simpl; try discriminate).
  reflexivity.
Qed.

Lemma NoDup_period_keys (pairs : list (string * string)) :
  NoDup (fst <$> pairs) ->
  Forall (fun p => String.length p.1 = 10) pairs ->
  NoDup ((fun p => period_key p.1 p.2) <$> pairs).
Proof.
  induction pairs as [|p pairs IH]; simpl; [constructor|].
  intros Hnd Hall. apply NoDup_cons in Hnd as [Hp Hnd].
  inversion Hall as [|? ? Hlen Hall']; subst.
  change (NoDup (period_key p.1 p.2 :: ((fun p => period_key p.1 p.2) <$> pairs))).
  apply NoDup_cons. split; [|auto].
  intros Hin. apply list_elem_of_fmap in Hin as (q & Hq & Hqin).
  apply Hp. apply list_elem_of_fmap. exists q. split; [|exact Hqin].
  rewrite Forall_forall in Hall'.
  apply period_key_inj in Hq as [? _]; [assumption|].
  rewrite Hlen. symmetry. apply Hall', Hqin.
Qed.

(** ** The detector on a raster collection *)

Lemma raster_collection_lookup image_dict k :
  raster_collection image_dict -> k ∈ dict_keys image_dict ->
  exists e, dict_get k image_dict = Some e
            /\ String.length k = 10
            /\ raster_size (entry_data e) <> 0.
Proof.
  intros [Hnd Hall] Hk.
  destruct (dict_get_is_Some k image_dict Hk) as [e He].
  exists e. split; [exact He|].
  apply dict_get_elem in He. rewrite Forall_forall in Hall.
  destruct (Hall _ He) as [Hiso Hsize]. split; [|exact Hsize].
  apply iso_date_key_length, Hiso.
Qed.

Lemma sorted_pairs_keys (keys : list string) a b :
  (a, b) ∈ adjacent_pairs (sorted keys) -> a ∈ keys /\ b ∈ keys.
Proof.
  intros H. apply adjacent_pairs_elem in H.
  rewrite !(sorted_Permutation keys) in H. exact H.
Qed.

Lemma raster_collection_pair image_dict p :
  raster_collection image_dict ->
  p ∈ adjacent_pairs (sorted (dict_keys image_dict)) ->
  exists e1 e2,
    dict_get p.1 image_dict = Some e1 /\ dict_get p.2 image_dict = Some e2
    /\ raster_size (entry_data e1) <> 0 /\ raster_size (entry_data e2) <> 0
    /\ String.length p.1 = 10.
Proof.
  intros Hc Hp. destruct p as [a b].
  apply sorted_pairs_keys in Hp as [Ha Hb].
  destruct (raster_collection_lookup _ _ Hc Ha) as (e1 & H1 & Hl & Hs1).
  destruct (raster_collection_lookup _ _ Hc Hb) as (e2 & H2 & _ & Hs2).
  exists e1, e2. auto.
Qed.

Lemma pair_entry_shapes image_dict p e1 e2 :
  dict_get p.1 image_dict = Some e1 -> dict_get p.2 image_dict = Some e2 ->
  raster_size (entry_data e1) <> 0 -> raster_size (entry_data e2) <> 0 ->
  (shapes_agree image_dict p ->
   exists r, change_result p.1 p.2 (entry_data e1) (entry_data e2) = Some r
             /\ pair_entry image_dict p = Some (period_key p.1 p.2, r))
  /\ (~ shapes_agree image_dict p -> pair_entry image_dict p = None).
Proof.
  intros H1 H2 Hs1 Hs2. unfold shapes_agree, pair_entry. rewrite H1, H2. simpl.
  destruct (decide _) as [Hne|Heq]; split.
  - intros [= ?]. contradiction.
  - reflexivity.
  - intros _. destruct (change_result_is_Some p.1 p.2 _ _ Hs1 Hs2) as [r Hr].
    exists r. rewrite Hr. auto.
  - intros Hn. exfalso. apply Hn. f_equal. apply dec_stable. exact Heq.
Qed.

Lemma NoDup_fmap_filter {A B} (f : A -> B) (P : A -> Prop)
    `{forall x, Decision (P x)} (l : list A) :
  NoDup (f <$> l) -> NoDup (f <$> filter P l).
Proof.
  induction l as [|x l IH]; simpl; [auto|].
  intros Hnd. apply NoDup_cons in Hnd as [Hx Hnd].
  rewrite filter_cons. destruct (decide (P x)); [|auto].
  change (NoDup (f x :: (f <$> filter P l))).
  apply NoDup_cons. split; [|auto].
  intros Hin. apply Hx.
  apply list_elem_of_fmap in Hin as (y & -> & Hy).
  apply list_elem_of_filter in Hy as [_ Hy].
  apply list_elem_of_fmap. eauto.
Qed.

Lemma pair_entry_keys image_dict (pairs : list (string * string)) :
  Forall (fun p => exists e1 e2,
            dict_get p.1 image_dict = Some e1 /\ dict_get p.2 image_dict = Some e2
            /\ raster_size (entry_data e1) <> 0
            /\ raster_size (entry_data e2) <> 0
            /\ String.length p.1 = 10) pairs ->
  fst <$> omap (pair_entry image_dict) pairs
  = (fun p => period_key p.1 p.2) <$> filter (shapes_agree image_dict) pairs.
Proof.
  induction pairs as [|p pairs IH]; [reflexivity|].
  intros Hall. inversion Hall as [|? ? (e1 & e2 & H1 & H2 & Hs1 & Hs2 & _) Hall'];
    subst.
  destruct (pair_entry_shapes _ _ _ _ H1 H2 Hs1 Hs2) as [Hyes Hno].
  change (omap (pair_entry image_dict) (p :: pairs)) with
    (match pair_entry image_dict p with
     | Some y => y :: omap (pair_entry image_dict) pairs
     | None => omap (pair_entry image_dict) pairs
     end).
  destruct (decide (shapes_agree image_dict p)) as [Hs|Hs].
  - destruct (Hyes Hs) as (r & _ & ->).
    rewrite filter_cons_True by exact Hs.
    rewrite !fmap_cons, IH by assumption. reflexivity.
  - rewrite (Hno Hs), filter_cons_False by exact Hs. auto.
Qed.

(** On a raster collection of two or more dates the detector returns,
    prints the lines of every pair in order and stores one item for
    every pair of equal shapes, in order. *)
Lemma compare_images_closed_form image_dict :
  raster_collection image_dict -> 2 <= length image_dict ->
  compare_images image_dict
  = (adjacent_pairs (sorted (dict_keys image_dict)) ≫= pair_lines image_dict,
     inr (Some (omap (pair_entry image_dict)
                  (adjacent_pairs (sorted (dict_keys image_dict)))))).
Proof.
  intros Hc Hlen. unfold compare_images.
  destruct (Nat.ltb_spec (length image_dict) 2) as [?|_]; [lia|].
  set (pairs := adjacent_pairs (sorted (dict_keys image_dict))).
  assert (Hpairs : Forall (fun p => exists e1 e2,
            dict_get p.1 image_dict = Some e1 /\ dict_get p.2 image_dict = Some e2
            /\ raster_size (entry_data e1) <> 0
            /\ raster_size (entry_data e2) <> 0
            /\ String.length p.1 = 10) pairs).
  { apply Forall_forall. intros p Hp. apply raster_collection_pair; assumption. }
  rewrite (for_each_total (compare_pair image_dict) (pair_lines image_dict)
             (fun s p => store_entry s (pair_entry image_dict p))).
  - rewrite foldl_store_fresh.
    + unfold mbind, py_bind, mret, py_ret. simpl. rewrite app_nil_r. reflexivity.
    + simpl. rewrite pair_entry_keys by exact Hpairs.
      apply NoDup_fmap_filter, NoDup_period_keys.
      * apply adjacent_pairs_fst_NoDup.
        rewrite (sorted_Permutation (dict_keys image_dict)). apply Hc.
      * eapply Forall_impl; [exact Hpairs|].
        intros p (e1 & e2 & _ & _ & _ & _ & Hl). exact Hl.
  - intros s p Hp. rewrite Forall_forall in Hpairs.
    destruct (Hpairs p Hp) as (e1 & e2 & H1 & H2 & Hs1 & Hs2 & _).
    eapply compare_pair_run; eassumption.
Qed.

(** * The specification, claim by claim *)

(** ** C1: fewer than two images *)

(** C1, as stated, does not hold: on a collection of one image the
    detector returns Python's [None], not an empty result mapping. *)
Lemma C1_one_image_returns_None_not_empty_dict :
  outcome (compare_images one_image) = inr None
  /\ outcome (compare_images one_image) <> inr (Some []).
Proof. split; [reflexivity|discriminate]. Qed.

(** C1, amended: for every collection with fewer than two entries the
    detector prints the one line "Need at least two images to compare",
    raises nothing, and returns [None] (no result mapping at all). *)
Theorem C1_fewer_than_two_images (image_dict : dict image_entry) :
  length image_dict < 2 ->
  compare_images image_dict = ([NeedTwoImages], inr None).
Proof.
  intros Hlen. unfold compare_images.
  destruct (Nat.ltb_spec (length image_dict) 2); [reflexivity|lia].
Qed.

Lemma C1_fewer_than_two_images_witness :
  compare_images one_image = ([NeedTwoImages], inr None).
Proof. apply C1_fewer_than_two_images. simpl. lia. Defined.

(** ** C2: which segment of the stem gives the date *)

(** C2, as stated, does not hold: in the stem [2023-01-15_20230210] there
    is an 8-digit segment, yet the date comes from the 10-character
    segment in front of it. *)
Lemma C2_dashed_segment_before_digits_wins :
  let filename := path_stem "data/2023-01-15_20230210.tif" in
  let parts := split_on "_" filename in
  is_ascii filename = true
  /\ parts = ["2023-01-15"; "20230210"]
  /\ spec_scan_parts parts = Some ("20230210", "%Y%m%d")
  /\ scan_parts parts = Some ("2023-01-15", "%Y-%m-%d")
  /\ extract_date strptime_cpython filename (inr (Date 1999 1 1))
     = ([], inr (Date 2023 1 15))
  /\ strftime false (Date 2023 1 15) = "2023-01-15"
  /\ strptime_cpython "20230210" "%Y%m%d" = Some (Date 2023 2 10)
  /\ dict_keys
       (match outcome (sample_load ["2023-01-15_20230210.tif"] "data") with
        | inr images => images
        | inl _ => []
        end)
     = ["2023-01-15"].
Proof. repeat split; vm_compute; reflexivity. Qed.

Lemma scan_parts_find (parts : list string) :
  scan_parts parts
  = match List.find (fun p => is_yyyymmdd p || is_dashed p) parts with
    | Some part =>
        Some (part, if is_yyyymmdd part then "%Y%m%d" else "%Y-%m-%d")
    | None => None
    end.
Proof.
  induction parts as [|part rest IH]; [reflexivity|].
  change (scan_parts (part :: rest)) with
    (if is_yyyymmdd part then Some (part, "%Y%m%d")
     else if is_dashed part then Some (part, "%Y-%m-%d")
     else scan_parts rest).
  cbn [List.find].
  destruct (is_yyyymmdd part) eqn:E8; cbn [orb]; [rewrite E8; reflexivity|].
  destruct (is_dashed part) eqn:E10; [rewrite E8; reflexivity|exact IH].
Qed.

(** C2, amended: for a stem of ASCII characters, the segments are
    scanned once, in order, and the first segment that matches either
    pattern decides: it is parsed as YYYYMMDD when it is an 8-digit
    number and as YYYY-MM-DD otherwise (ten characters, two dashes).  The
    8-digit test comes first only on one and the same segment.  When the
    chosen segment does not parse, or no segment matches, the file's
    creation time is used, and if that cannot be had its exception ends
    the loader. *)
Theorem C2_first_matching_segment_decides
    (strptime : string -> string -> option date)
    (filename : string) (ctime : exn + date) :
  is_ascii filename = true ->
  let parts := split_on "_" filename in
  match List.find (fun p => is_yyyymmdd p || is_dashed p) parts with
  | Some part =>
      let fmt := if is_yyyymmdd part then "%Y%m%d" else "%Y-%m-%d" in
      scan_parts parts = Some (part, fmt)
      /\ extract_date strptime filename ctime
         = match strptime part fmt with
           | Some date_obj => ([], inr date_obj)
           | None => ([ErrorExtractingDate filename], ctime)
           end
  | None =>
      scan_parts parts = None
      /\ extract_date strptime filename ctime
         = match ctime with
           | inr date_obj => ([CouldNotExtractDate filename], inr date_obj)
           | inl e => ([ErrorExtractingDate filename], inl e)
           end
  end.
Proof.
  intros _ parts. unfold extract_date. fold parts.
  rewrite (scan_parts_find parts).
  destruct (List.find _ parts) as [part|]; split; reflexivity.
Qed.

Lemma C2_first_matching_segment_decides_witness :
  extract_date strptime_cpython "S2_2023-02-30_20230210"
    (inl (OSError "data/S2_2023-02-30_20230210.tif"))
  = ([ErrorExtractingDate "S2_2023-02-30_20230210"],
     inl (OSError "data/S2_2023-02-30_20230210.tif")).
Proof.
  exact (proj2 (C2_first_matching_segment_decides strptime_cpython
                  "S2_2023-02-30_20230210"
                  (inl (OSError "data/S2_2023-02-30_20230210.tif")) eq_refl)).
Defined.

(** ** C3: which files are discovered *)

(** C3, as stated, does not hold: with the matching of [posixpath] a file
    named [IMG.TIF] has a raster extension up to letter case and is not
    discovered. *)
Lemma C3_upper_case_extension_not_discovered :
  has_raster_extension "IMG.TIF" = true
  /\ tiff_files Posix ["IMG.TIF"; "img.tif"] = ["img.tif"]
  /\ found_tiff_files (sample_scandir ["IMG.TIF"; "img.tif"]) sample_glob_dirs
       "data" = ["data/img.tif"]
  /\ sample_load ["IMG.TIF"] "data" = ([NoTiffFilesFound "data"], inr []).
Proof. repeat split; vm_compute; reflexivity. Qed.

Lemma glob_star_elem os listing suffix name :
  name ∈ glob_star os listing suffix
  <-> name ∈ listing /\ ishidden name = false
      /\ endswith (normcase os name) (normcase os suffix) = true.
Proof.
  unfold glob_star, fnmatch_star. rewrite list_elem_of_filter.
  rewrite andb_true_iff, negb_true_iff. tauto.
Qed.

Lemma substring_all (s : string) : String.substring 0 (String.length s) s = s.
Proof. induction s as [|c s IH]; simpl; [reflexivity|]. rewrite IH. reflexivity. Qed.

Lemma substring_suffix (i k : nat) : forall s suffix : string,
  i + k = String.length s -> String.substring i k s = suffix ->
  exists pre, s = pre +:+ suffix.
Proof.
  induction i as [|i IH]; intros s suffix Hlen Hsub.
  - simpl in Hlen. subst k. rewrite substring_all in Hsub. subst suffix.
    exists EmptyString. reflexivity.
  - destruct s as [|c s]; [discriminate|].
    simpl in Hlen, Hsub. injection Hlen as Hlen.
    destruct (IH s suffix Hlen Hsub) as [pre ->].
    exists (String c pre). reflexivity.
Qed.

Lemma endswith_app (s suffix : string) :
  endswith s suffix = true -> exists pre, s = pre +:+ suffix.
Proof.
  unfold endswith. rewrite andb_true_iff, Nat.leb_le.
  intros [Hle Heq]. apply String.eqb_eq in Heq.
  eapply substring_suffix; [|exact Heq]. lia.
Qed.

Lemma length_append (a b : string) :
  String.length (a +:+ b) = String.length a + String.length b.
Proof. induction a as [|c a IH]; simpl; [reflexivity|]. rewrite IH. reflexivity. Qed.

(** No name ends in [.tif] and in [.tiff]. *)
Lemma tif_tiff_disjoint (s : string) :
  endswith s ".tif" = true -> endswith s ".tiff" = true -> False.
Proof.
  intros H1 H2.
  apply endswith_app in H1 as [p1 ->]. apply endswith_app in H2 as [p2 H].
  assert (Hlen : String.length p1 = S (String.length p2)).
  { apply (f_equal String.length) in H. rewrite !length_append in H.
    simpl in H. lia. }
  clear -H Hlen. revert p1 H Hlen.
  induction p2 as [|c2 p2 IH]; intros [|c1 p1] H Hlen; simpl in Hlen;
    try discriminate.
  - destruct p1; [|discriminate]. simpl in H. discriminate.
  - simpl in H. injection H as _ H. apply (IH p1); [exact H|lia].
Qed.

Lemma tiff_files_NoDup os (listing : list string) :
  NoDup listing -> NoDup (tiff_files os listing).
Proof.
  intros Hnd. unfold tiff_files. apply NoDup_app.
  split; [apply NoDup_filter, Hnd|]. split; [|apply NoDup_filter, Hnd].
  intros name H1 H2.
  apply glob_star_elem in H1 as (_ & _ & H1).
  apply glob_star_elem in H2 as (_ & _ & H2).
  assert (E1 : normcase os ".tif" = ".tif") by (destruct os; reflexivity).
  assert (E2 : normcase os ".tiff" = ".tiff") by (destruct os; reflexivity).
  rewrite E1 in H1. rewrite E2 in H2.
  exact (tif_tiff_disjoint _ H1 H2).
Qed.

(** *** The directory [glob] lists *)

Lemma up_to_last_slash_plain (x : string) :
  has_slash x = false -> up_to_last_slash x = "".
Proof. destruct x as [|c x]; [reflexivity|]. simpl. intros ->. reflexivity. Qed.

Lemma has_slash_app (a x : string) :
  has_slash (a +:+ "/" +:+ x) = true.
Proof.
  induction a as [|c a IH]; simpl; [reflexivity|].
  change (has_slash (a +:+ "/" +:+ x) = true) in IH. rewrite IH.
  apply orb_true_r.
Qed.

Lemma up_to_last_slash_app (a x : string) :
  has_slash x = false -> up_to_last_slash (a +:+ "/" +:+ x) = a +:+ "/".
Proof.
  intros Hx. induction a as [|c a IH].
  - change (up_to_last_slash (String "/" x) = "/").
    cbn [up_to_last_slash has_slash]. rewrite up_to_last_slash_plain by exact Hx.
    reflexivity.
  - change (up_to_last_slash (String c (a +:+ "/" +:+ x))
            = String c (a +:+ "/")).
    cbn [up_to_last_slash]. rewrite <- IH.
    change (has_slash (String c (a +:+ "/" +:+ x)))
      with (Ascii.eqb c "/" || has_slash (a +:+ "/" +:+ x)).
    rewrite has_slash_app, orb_true_r. reflexivity.
Qed.

Lemma rstrip_slashes_app (a : string) :
  rstrip_slashes (a +:+ "/") = rstrip_slashes a.
Proof.
  induction a as [|c a IH]; [reflexivity|].
  change (rstrip_slashes (String c (a +:+ "/")) = rstrip_slashes (String c a)).
  cbn [rstrip_slashes]. rewrite IH. reflexivity.
Qed.

Lemma append_assoc (a b c : string) : (a +:+ b) +:+ c = a +:+ (b +:+ c).
Proof.
  induction a as [|x a IH]; [reflexivity|].
  change (String x ((a +:+ b) +:+ c) = String x (a +:+ (b +:+ c))).
  by rewrite IH.
Qed.

Lemma prefix_slash (x : string) :
  has_slash x = false -> String.prefix "/" x = false.
Proof.
  destruct x as [|c x]; [reflexivity|]. cbn [has_slash String.prefix].
  intros [Hc _]%orb_false_iff. apply Ascii.eqb_neq in Hc.
  destruct (ascii_dec "/" c) as [<-|_]; [done|reflexivity].
Qed.

(** The directory part of the pattern is the directory given, without
    its trailing slashes. *)
Lemma dirname_join (directory x : string) :
  has_slash x = false ->
  posixpath_dirname (posixpath_join directory x)
  = match rstrip_slashes directory with
    | EmptyString => directory
    | stripped => stripped
    end.
Proof.
  intros Hx. unfold posixpath_dirname, posixpath_join.
  rewrite prefix_slash by exact Hx.
  destruct directory as [|c d].
  - cbn [String.eqb orb]. change ("" +:+ x) with x.
    rewrite up_to_last_slash_plain by exact Hx. reflexivity.
  - change (String.eqb (String c d) "") with false. cbn [orb].
    destruct (endswith (String c d) "/") eqn:Hend.
    + apply endswith_app in Hend as [a Ha]. rewrite Ha, append_assoc.
      rewrite up_to_last_slash_app by exact Hx. reflexivity.
    + rewrite up_to_last_slash_app by exact Hx.
      rewrite rstrip_slashes_app.
      destruct (rstrip_slashes (String c d)) eqn:Hr; [|reflexivity].
      exfalso. clear -Hend Hr.
      assert (forall s, s <> "" -> rstrip_slashes s = "" -> endswith s "/" = true)
        as Hall.
      { clear. induction s as [|c s IH]; [done|]. intros _. cbn [rstrip_slashes].
        destruct (rstrip_slashes s) eqn:Hs; [|done].
        destruct (Ascii.eqb_spec c "/") as [->|]; [|done]. intros _.
        destruct s as [|c' s]; [reflexivity|].
        specialize (IH ltac:(done) eq_refl).
        unfold endswith in *. apply andb_true_iff in IH as [Hlen Heq].
        apply andb_true_iff. split; [done|].
        revert Heq. cbn [String.length].
        replace (S (S (String.length s)) - 1) with (S (S (String.length s) - 1))
          by lia.
        cbn [String.substring]. done. }
      rewrite (Hall (String c d)) in Hend; done.
Qed.

Lemma has_magic_rstrip (s : string) :
  has_magic s = false -> has_magic (rstrip_slashes s) = false.
Proof.
  induction s as [|c s IH]; [done|]. cbn [has_magic rstrip_slashes].
  intros [Hc Hs]%orb_false_iff. specialize (IH Hs).
  destruct (rstrip_slashes s) as [|c' r].
  - destruct (Ascii.eqb c "/"); [done|]. cbn [has_magic]. by rewrite Hc.
  - change (has_magic (String c (String c' r)))
      with (Ascii.eqb c "*" || Ascii.eqb c "?" || Ascii.eqb c "["
            || has_magic (String c' r)).
    by rewrite Hc, IH.
Qed.

Lemma glob_dirname_plain (directory : string) :
  has_magic directory = false -> directory <> "" ->
  has_magic (glob_dirname directory) = false /\ glob_dirname directory <> "".
Proof.
  intros Hm Hne. unfold glob_dirname. rewrite dirname_join by reflexivity.
  pose proof (has_magic_rstrip directory Hm) as Hr.
  destruct (rstrip_slashes directory); [done|]. by split.
Qed.

Lemma glob_glob_plain scandir glob_dirs (directory suffix : string) :
  has_slash suffix = false ->
  has_magic directory = false -> directory <> "" ->
  glob_glob scandir glob_dirs directory suffix
  = posixpath_join (glob_dirname directory)
      <$> glob_star Posix (scandir (glob_dirname directory)) suffix.
Proof.
  intros Hs Hm Hne.
  destruct (glob_dirname_plain directory Hm Hne) as [Hmd Hned].
  unfold glob_glob. cbv zeta.
  assert (posixpath_dirname (posixpath_join directory ("*" +:+ suffix))
          = glob_dirname directory) as ->.
  { unfold glob_dirname. rewrite !dirname_join; done. }
  rewrite Hmd. apply String.eqb_neq in Hned. rewrite Hned.
  cbn [mbind list_bind]. by rewrite app_nil_r.
Qed.

Lemma found_tiff_files_plain scandir glob_dirs (directory : string) :
  has_magic directory = false -> directory <> "" ->
  found_tiff_files scandir glob_dirs directory
  = posixpath_join (glob_dirname directory)
      <$> tiff_files Posix (scandir (glob_dirname directory)).
Proof.
  intros Hm Hne. unfold found_tiff_files, tiff_files.
  rewrite !glob_glob_plain, fmap_app; done.
Qed.

(** C3, amended: for a directory whose name holds none of the
    metacharacters of [glob], the loader discovers exactly the entries of
    that directory (no recursion) that are not hidden (no leading dot)
    and whose name, after the platform's [normcase], ends in [.tif] or
    [.tiff], each of them once, as the path of the entry under the
    directory named without trailing slashes.  [normcase] is the identity
    on POSIX, so there the match is case-sensitive and [.TIF] is not
    discovered; letter case is disregarded only where [normcase]
    lower-cases (Windows).  A directory name with a metacharacter is
    itself a pattern: [data[1]] yields the files of [data1], not its own;
    the empty name stands for the current directory. *)
Theorem C3_discovery_follows_platform_glob :
  (forall os listing, NoDup listing -> NoDup (tiff_files os listing))
  /\ (forall os listing name,
     name ∈ tiff_files os listing
     <-> name ∈ listing /\ ishidden name = false
         /\ (endswith (normcase os name) ".tif" = true
             \/ endswith (normcase os name) ".tiff" = true))
  /\ (forall listing name,
        name ∈ tiff_files Posix listing
        <-> name ∈ listing /\ ishidden name = false
            /\ (endswith name ".tif" = true \/ endswith name ".tiff" = true))
  /\ tiff_files Posix ["IMG.TIF"; "a.tiff"; ".b.tif"; "c.tif"]
     = ["c.tif"; "a.tiff"]
  /\ tiff_files Windows ["IMG.TIF"; "a.tiff"; ".b.tif"; "c.tif"]
     = ["IMG.TIF"; "c.tif"; "a.tiff"]
  /\ (forall scandir glob_dirs directory,
        has_magic directory = false -> directory <> "" ->
        found_tiff_files scandir glob_dirs directory
        = posixpath_join (glob_dirname directory)
            <$> tiff_files Posix (scandir (glob_dirname directory)))
  /\ (forall directory,
        glob_dirname directory
        = match rstrip_slashes directory with
          | EmptyString => directory
          | stripped => stripped
          end)
  /\ (forall scandir glob_dirs,
        found_tiff_files scandir glob_dirs "" = tiff_files Posix (scandir "."))
  /\ found_tiff_files bracket_scandir bracket_glob_dirs "data[1]"
     = ["data1/one.tif"]
  /\ found_tiff_files bracket_scandir bracket_glob_dirs "data1/"
     = ["data1/one.tif"].
Proof.
  assert (Hgen : forall os listing name,
     name ∈ tiff_files os listing
     <-> name ∈ listing /\ ishidden name = false
         /\ (endswith (normcase os name) ".tif" = true
             \/ endswith (normcase os name) ".tiff" = true)).
  { intros os listing name. unfold tiff_files.
    rewrite elem_of_app, !glob_star_elem.
    assert (H1 : normcase os ".tif" = ".tif") by (destruct os; reflexivity).
    assert (H2 : normcase os ".tiff" = ".tiff") by (destruct os; reflexivity).
    rewrite H1, H2. tauto. }
  split; [exact tiff_files_NoDup|].
  split; [exact Hgen|]. split; [intros listing name; apply (Hgen Posix)|].
  split; [reflexivity|]. split; [reflexivity|].
  split; [intros; by apply found_tiff_files_plain|].
  split; [intros; by apply dirname_join|].
  split; [reflexivity|]. split; vm_compute; reflexivity.
Qed.

Lemma C3_discovery_follows_platform_glob_witness :
  NoDup (tiff_files Posix ["IMG.TIF"; "a.tiff"; ".b.tif"; "c.tif"])
  /\ found_tiff_files (sample_scandir ["a.tiff"; "notes.txt"; "c.tif"])
       sample_glob_dirs "data//"
     = ["data/c.tif"; "data/a.tiff"].
Proof.
  split.
  - apply (proj1 C3_discovery_follows_platform_glob).
    apply (bool_decide_unpack _). vm_compute. exact I.
  - rewrite (proj1 (proj2 (proj2 (proj2 (proj2
               (proj2 C3_discovery_follows_platform_glob))))))
      by done.
    vm_compute. reflexivity.
Defined.

(** ** What the stored records are *)

Lemma compare_pair_entries image_dict results p out results' :
  compare_pair image_dict results p = (out, inr results') ->
  forall kr, kr ∈ results' ->
    kr ∈ results
    \/ exists e1 e2,
         dict_get p.1 image_dict = Some e1 /\ dict_get p.2 image_dict = Some e2
         /\ raster_shape (entry_data e1) = raster_shape (entry_data e2)
         /\ change_result p.1 p.2 (entry_data e1) (entry_data e2) = Some kr.2
         /\ kr.1 = period_key p.1 p.2.
Proof.
  unfold compare_pair, subscript.
  destruct (dict_get p.1 image_dict) as [e1|]; [|discriminate].
  destruct (dict_get p.2 image_dict) as [e2|]; [|discriminate].
  simpl. destruct (decide _) as [Hne|Heq].
  - intros [= _ <-] kr Hkr. left. exact Hkr.
  - destruct (change_result _ _ _ _) as [r|] eqn:Hr; [|discriminate].
    intros [= _ <-] kr Hkr.
    apply dict_set_elem in Hkr as [->|Hkr]; [right|left; exact Hkr].
    exists e1, e2. repeat split; auto. apply dec_stable. exact Heq.
Qed.

(** Every record the detector returns is the change result of its own
    two dates, which are adjacent in date order and have one shape. *)
Lemma compare_images_entries image_dict out results k r :
  compare_images image_dict = (out, inr (Some results)) ->
  (k, r) ∈ results ->
  exists e1 e2,
    (date1 r, date2 r) ∈ adjacent_pairs (sorted (dict_keys image_dict))
    /\ dict_get (date1 r) image_dict = Some e1
    /\ dict_get (date2 r) image_dict = Some e2
    /\ raster_shape (entry_data e1) = raster_shape (entry_data e2)
    /\ change_result (date1 r) (date2 r) (entry_data e1) (entry_data e2) = Some r
    /\ k = period_key (date1 r) (date2 r).
Proof.
  unfold compare_images.
  destruct (length image_dict <? 2); [discriminate|].
  set (pairs := adjacent_pairs (sorted (dict_keys image_dict))).
  destruct (for_each (compare_pair image_dict) pairs [])
    as [out' [e|results']] eqn:Hrun;
    [discriminate|].
  unfold mbind, py_bind, mret, py_ret. simpl. intros [= _ <-] Hin.
  pose (I := fun res : dict (ChangeResult float) =>
    forall kr, kr ∈ res ->
      exists p e1 e2, p ∈ pairs
        /\ dict_get p.1 image_dict = Some e1 /\ dict_get p.2 image_dict = Some e2
        /\ raster_shape (entry_data e1) = raster_shape (entry_data e2)
        /\ change_result p.1 p.2 (entry_data e1) (entry_data e2) = Some kr.2
        /\ kr.1 = period_key p.1 p.2).
  assert (HI : I results').
  { eapply (for_each_invariant _ I); [| |exact Hrun].
    - intros s p o s' Hp Hs Hbody kr Hkr.
      destruct (compare_pair_entries _ _ _ _ _ Hbody kr Hkr)
        as [Hold|(e1 & e2 & ?)]; [apply Hs, Hold|].
      exists p, e1, e2. split; [exact Hp|assumption].
    - intros kr Hkr. apply elem_of_nil in Hkr. contradiction. }
  destruct (HI _ Hin) as (p & e1 & e2 & Hp & H1 & H2 & Hs & Hr & Hk).
  simpl in Hr, Hk.
  destruct (change_result_dates _ _ _ _ _ Hr) as [Hd1 Hd2].
  destruct p as [a b]. simpl in *. subst a b.
  exists e1, e2. auto 10.
Qed.

Lemma change_result_fields d1 d2 image1 image2 r :
  change_result d1 d2 image1 image2 = Some r ->
  difference r
  = elementwise F64.sub (astype_float image2) (astype_float image1)
  /\ abs_difference r = array_map F64.abs (difference r)
  /\ percentage_change r
     = array_map (fun q => F64.mul q (F64.of_Z 100))
         (elementwise F64.div (difference r)
            (array_map (fun x => F64.add x epsilon) (astype_float image1)))
  /\ total_difference r = np_sum (data (abs_difference r))
  /\ mean_difference r = np_mean (data (abs_difference r))
  /\ np_max (data (abs_difference r)) = Some (max_difference r).
Proof.
  unfold change_result.
  destruct (np_max _) as [m|] eqn:Hm; simpl; [|discriminate].
  intros [= <-]. simpl. auto 10.
Qed.

(** ** C9: determinism *)

Lemma for_each_ext {L A S} (body body' : S -> A -> Py L S) (l : list A) :
  (forall s a, body s a = body' s a) ->
  forall s, for_each body l s = for_each body' l s.
Proof.
  intros Hext. induction l as [|a l IH]; intros s; simpl; [reflexivity|].
  rewrite Hext. destruct (body' s a) as [out [e|s']]; simpl; [reflexivity|].
  rewrite IH. reflexivity.
Qed.

(** C9: the detector is a function of the collection as a mapping.  Two
    runs on the same collection give the same lines and the same result
    mapping, key for key in the same order and value for value, and so do
    runs on two dictionaries that hold the same items in different
    insertion orders. *)
Theorem C9_detector_is_deterministic (image_dict image_dict' : dict image_entry) :
  NoDup (dict_keys image_dict) ->
  image_dict ≡ₚ image_dict' ->
  compare_images image_dict = compare_images image_dict'.
Proof.
  intros Hnd Hp. unfold compare_images.
  rewrite <- (Permutation_length Hp).
  destruct (length image_dict <? 2); [reflexivity|].
  assert (Hk : sorted (dict_keys image_dict) = sorted (dict_keys image_dict')).
  { apply sorted_unique. unfold dict_keys. rewrite Hp. reflexivity. }
  rewrite <- Hk.
  rewrite (for_each_ext (compare_pair image_dict) (compare_pair image_dict'));
    [reflexivity|].
  intros s p. unfold compare_pair.
  unfold subscript. rewrite !(dict_get_Permutation image_dict image_dict') by assumption.
  reflexivity.
Qed.

Lemma C9_detector_is_deterministic_witness :
  compare_images three_dates = compare_images three_dates
  /\ compare_images three_dates = compare_images (reverse three_dates).
Proof.
  split.
  - apply C9_detector_is_deterministic; [|reflexivity].
    apply (bool_decide_unpack _). vm_compute. exact I.
  - apply C9_detector_is_deterministic.
    + apply (bool_decide_unpack _). vm_compute. exact I.
    + symmetry. apply reverse_Permutation.
Defined.

(** ** C6: order of the pairs and form of the keys *)

Lemma collection_pairs image_dict :
  raster_collection image_dict ->
  Forall (fun p => exists e1 e2,
            dict_get p.1 image_dict = Some e1 /\ dict_get p.2 image_dict = Some e2
            /\ raster_size (entry_data e1) <> 0
            /\ raster_size (entry_data e2) <> 0
            /\ String.length p.1 = 10)
    (adjacent_pairs (sorted (dict_keys image_dict))).
Proof.
  intros Hc. apply Forall_forall. intros p Hp.
  apply raster_collection_pair; assumption.
Qed.

Lemma result_keys image_dict :
  raster_collection image_dict ->
  dict_keys (omap (pair_entry image_dict)
               (adjacent_pairs (sorted (dict_keys image_dict))))
  = (fun p => period_key p.1 p.2)
      <$> filter (shapes_agree image_dict)
            (adjacent_pairs (sorted (dict_keys image_dict))).
Proof. intros Hc. apply pair_entry_keys, collection_pairs, Hc. Qed.

Lemma result_keys_NoDup image_dict :
  raster_collection image_dict ->
  NoDup (dict_keys (omap (pair_entry image_dict)
                      (adjacent_pairs (sorted (dict_keys image_dict))))).
Proof.
  intros Hc. rewrite result_keys by exact Hc.
  apply NoDup_fmap_filter, NoDup_period_keys.
  - apply adjacent_pairs_fst_NoDup.
    rewrite (sorted_Permutation (dict_keys image_dict)). apply Hc.
  - eapply Forall_impl; [apply collection_pairs, Hc|].
    intros p (e1 & e2 & _ & _ & _ & _ & Hl). exact Hl.
Qed.

(** C6: on a raster collection of two or more dates the pairs are the
    neighbours in the list of date keys sorted ascending (a sorted
    rearrangement of the keys); they are processed in that order, the
    result keys are ["{date1}_to_{date2}"] and appear in that order.  For
    the dates 2023-03-01, 2023-01-15, 2023-02-10 (any three rasters of one
    shape) the keys are 2023-01-15_to_2023-02-10 and then
    2023-02-10_to_2023-03-01. *)
Theorem C6_pairs_follow_sorted_dates :
  (forall image_dict : dict image_entry,
     raster_collection image_dict -> 2 <= length image_dict ->
     let dates := sorted (dict_keys image_dict) in
     Sorted str_le dates
     /\ dates ≡ₚ dict_keys image_dict
     /\ exists results,
          compare_images image_dict
          = (adjacent_pairs dates ≫= pair_lines image_dict, inr (Some results))
          /\ dict_keys results
             = (fun p => period_key p.1 p.2)
                 <$> filter (shapes_agree image_dict) (adjacent_pairs dates)
          /\ Forall (fun kr => kr.1 = period_key (date1 kr.2) (date2 kr.2)
                               /\ str_le (date1 kr.2) (date2 kr.2)) results)
  /\ (forall e1 e2 e3 : image_entry,
        raster_size (entry_data e1) <> 0 ->
        raster_shape (entry_data e1) = raster_shape (entry_data e2) ->
        raster_size (entry_data e2) <> 0 ->
        raster_shape (entry_data e2) = raster_shape (entry_data e3) ->
        raster_size (entry_data e3) <> 0 ->
        exists out results,
          compare_images
            [("2023-03-01", e1); ("2023-01-15", e2); ("2023-02-10", e3)]
          = (out, inr (Some results))
          /\ dict_keys results
             = ["2023-01-15_to_2023-02-10"; "2023-02-10_to_2023-03-01"]).
Proof.
  assert (Hmain : forall image_dict : dict image_entry,
     raster_collection image_dict -> 2 <= length image_dict ->
     let dates := sorted (dict_keys image_dict) in
     Sorted str_le dates
     /\ dates ≡ₚ dict_keys image_dict
     /\ exists results,
          compare_images image_dict
          = (adjacent_pairs dates ≫= pair_lines image_dict, inr (Some results))
          /\ dict_keys results
             = (fun p => period_key p.1 p.2)
                 <$> filter (shapes_agree image_dict) (adjacent_pairs dates)
          /\ Forall (fun kr => kr.1 = period_key (date1 kr.2) (date2 kr.2)
                               /\ str_le (date1 kr.2) (date2 kr.2)) results).
  { intros image_dict Hc Hlen dates.
    split; [apply sorted_Sorted|]. split; [apply sorted_Permutation|].
    eexists. split; [apply compare_images_closed_form; assumption|].
    split; [apply result_keys, Hc|].
    apply Forall_forall. intros [k r] Hkr.
    destruct (compare_images_entries _ _ _ k r
                (compare_images_closed_form _ Hc Hlen) Hkr)
      as (e1 & e2 & Hp & _ & _ & _ & _ & Hk).
    split; [exact Hk|]. simpl.
    pose proof (sorted_Sorted (dict_keys image_dict)) as Hs.
    fold dates in Hs, Hp. clear -Hs Hp.
    induction Hs as [|a l Hs IH Hhd]; simpl in Hp.
    - apply elem_of_nil in Hp. contradiction.
    - destruct l as [|b l]; [apply elem_of_nil in Hp; contradiction|].
      apply elem_of_cons in Hp as [[= -> ->]|Hp]; [|auto].
      inversion Hhd; assumption. }
  split; [exact Hmain|].
  intros e1 e2 e3 Hs1 H12 Hs2 H23 Hs3.
  set (image_dict := [("2023-03-01", e1); ("2023-01-15", e2); ("2023-02-10", e3)]).
  assert (Hc : raster_collection image_dict).
  { split.
    - apply (bool_decide_unpack _). vm_compute. exact I.
    - repeat constructor; assumption. }
  destruct (Hmain image_dict Hc) as (_ & _ & results & Hrun & Hkeys & _);
    [simpl; lia|].
  eexists _, results. split; [exact Hrun|]. rewrite Hkeys.
  change (sorted (dict_keys image_dict))
    with (sorted ["2023-03-01"; "2023-01-15"; "2023-02-10"]).
  assert (Hsort : sorted ["2023-03-01"; "2023-01-15"; "2023-02-10"]
                  = ["2023-01-15"; "2023-02-10"; "2023-03-01"])
    by (vm_compute; reflexivity).
  rewrite Hsort. simpl adjacent_pairs.
  rewrite !filter_cons_True, filter_nil; [reflexivity| |].
  - unfold shapes_agree. simpl. congruence.
  - unfold shapes_agree. simpl. congruence.
Qed.

Lemma C6_pairs_follow_sorted_dates_witness :
  exists results,
    compare_images three_dates
    = (adjacent_pairs (sorted (dict_keys three_dates)) ≫= pair_lines three_dates,
       inr (Some results))
    /\ dict_keys results
       = ["2023-01-15_to_2023-02-10"; "2023-02-10_to_2023-03-01"].
Proof.
  assert (Hc : raster_collection three_dates).
  { split.
    - apply (bool_decide_unpack _). vm_compute. exact I.
    - repeat constructor; simpl; lia. }
  destruct (proj1 C6_pairs_follow_sorted_dates three_dates Hc)
    as (_ & _ & results & Hrun & Hkeys & _); [simpl; lia|].
  exists results. split; [exact Hrun|].
  rewrite Hkeys. vm_compute. reflexivity.
Defined.

(** ** C8: pairs of different shapes *)

(** C8: on a raster collection of two or more dates the detector returns
    a result mapping whatever the shapes are.  A pair of neighbouring
    dates whose rasters differ in shape leaves no record (none under its
    key, none with its two dates) and prints the warning with the two
    shapes; every neighbouring pair of one shape has its record under its
    key. *)
Theorem C8_shape_mismatch_skips_that_pair_only (image_dict : dict image_entry) :
  raster_collection image_dict -> 2 <= length image_dict ->
  exists out results,
    compare_images image_dict = (out, inr (Some results))
    /\ forall d1 d2 e1 e2,
         (d1, d2) ∈ adjacent_pairs (sorted (dict_keys image_dict)) ->
         dict_get d1 image_dict = Some e1 ->
         dict_get d2 image_dict = Some e2 ->
         (raster_shape (entry_data e1) <> raster_shape (entry_data e2) ->
            dict_get (period_key d1 d2) results = None
            /\ (forall k r, (k, r) ∈ results -> ~ (date1 r = d1 /\ date2 r = d2))
            /\ exists before after,
                 out = before
                       ++ mismatch_lines d1 d2 (entry_data e1) (entry_data e2)
                       ++ after)
         /\ (raster_shape (entry_data e1) = raster_shape (entry_data e2) ->
               exists r,
                 change_result d1 d2 (entry_data e1) (entry_data e2) = Some r
                 /\ dict_get (period_key d1 d2) results = Some r).
Proof.
  intros Hc Hlen.
  pose proof (compare_images_closed_form _ Hc Hlen) as Hrun.
  set (pairs := adjacent_pairs (sorted (dict_keys image_dict))) in *.
  eexists _, _. split; [exact Hrun|].
  intros d1 d2 e1 e2 Hp H1 H2.
  pose proof (collection_pairs _ Hc) as Hok. fold pairs in Hok.
  rewrite Forall_forall in Hok.
  destruct (Hok _ Hp) as (e1' & e2' & H1' & H2' & Hs1 & Hs2 & Hl).
  simpl in H1', H2', Hl. rewrite H1 in H1'. rewrite H2 in H2'.
  injection H1' as <-. injection H2' as <-.
  destruct (pair_entry_shapes image_dict (d1, d2) e1 e2 H1 H2 Hs1 Hs2)
    as [Hyes Hno].
  assert (Hagree : shapes_agree image_dict (d1, d2)
                   <-> raster_shape (entry_data e1) = raster_shape (entry_data e2)).
  { unfold shapes_agree. simpl. rewrite H1, H2. simpl.
    split; [intros [= ?]; assumption|intros ->; reflexivity]. }
  split.
  - intros Hne.
    assert (Hnone : dict_get (period_key d1 d2)
                      (omap (pair_entry image_dict) pairs) = None).
    { apply dict_get_None. unfold pairs. rewrite result_keys by exact Hc.
      fold pairs. intros Hin.
      apply list_elem_of_fmap in Hin as (q & Hq & Hqin).
      apply list_elem_of_filter in Hqin as [Hqs Hqin].
      destruct (Hok _ Hqin) as (_ & _ & _ & _ & _ & _ & Hlq).
      apply period_key_inj in Hq as [Hq1 Hq2]; [|simpl; congruence].
      destruct q as [q1 q2]. simpl in Hq1, Hq2. subst q1 q2.
      apply Hne, Hagree, Hqs. }
    split; [exact Hnone|]. split.
    + intros k r Hkr [Hd1 Hd2].
      destruct (compare_images_entries _ _ _ k r Hrun Hkr)
        as (_ & _ & _ & _ & _ & _ & _ & Hk).
      rewrite Hd1, Hd2 in Hk. subst k.
      apply dict_get_None in Hnone. apply Hnone.
      apply list_elem_of_fmap. exists (period_key d1 d2, r). auto.
    + destruct (list_elem_of_split _ _ Hp) as (pre & post & Hsplit).
      exists (pre ≫= pair_lines image_dict), (post ≫= pair_lines image_dict).
      rewrite Hsplit, bind_app, bind_cons. do 2 f_equal.
      unfold pair_lines. simpl. rewrite H1, H2.
      destruct (decide _) as [_|Heq]; [reflexivity|].
      exfalso. apply Heq. exact Hne.
  - intros Heq. destruct (Hyes (proj2 Hagree Heq)) as (r & Hr & Hentry).
    exists r. split; [exact Hr|].
    apply dict_get_NoDup; [apply result_keys_NoDup, Hc|].
    apply list_elem_of_omap. exists (d1, d2). auto.
Qed.

Lemma C8_shape_mismatch_skips_that_pair_only_witness :
  exists out results,
    compare_images mixed_shapes = (out, inr (Some results))
    /\ dict_get "2023-01-15_to_2023-02-10" results = None
    /\ is_Some (dict_get "2023-02-10_to_2023-03-01" results).
Proof.
  assert (Hc : raster_collection mixed_shapes).
  { split.
    - apply (bool_decide_unpack _). vm_compute. exact I.
    - repeat constructor; simpl; lia. }
  destruct (C8_shape_mismatch_skips_that_pair_only mixed_shapes Hc)
    as (out & results & Hrun & Hpairs); [simpl; lia|].
  exists out, results. split; [exact Hrun|].
  assert (Hsort : sorted (dict_keys mixed_shapes)
                  = ["2023-01-15"; "2023-02-10"; "2023-03-01"])
    by (vm_compute; reflexivity).
  rewrite Hsort in Hpairs. split.
  - eapply (Hpairs "2023-01-15" "2023-02-10");
      [left|reflexivity|reflexivity|discriminate].
  - edestruct (Hpairs "2023-02-10" "2023-03-01") as [_ Hsame];
      [right; left|reflexivity|reflexivity|].
    destruct Hsame as (r & _ & Hr); [reflexivity|].
    change (period_key "2023-02-10" "2023-03-01")
      with "2023-02-10_to_2023-03-01" in Hr.
    rewrite Hr. eauto.
Defined.

(** ** C4: the fields of a change result *)

(** Integer rasters below 2^53 in magnitude, which covers every 8-, 16-
    and 32-bit pixel type, promote to finite numbers. *)
Lemma int_raster_promoted_finite (a : ndarray Z) :
  Forall (fun z => (Z.abs z < 2 ^ 53)%Z) (data a) ->
  promoted_finite (IntRaster a).
Proof.
  intros Hsmall. unfold promoted_finite. simpl.
  apply Forall_fmap. eapply Forall_impl; [exact Hsmall|].
  intros z Hz. apply of_Z_finite, Hz.
Qed.




(** ** C7: the guarded percentage change *)

(** C7: in every record, percentage_change is difference divided by
    (earlier + 1e-10), times 100, element by element.  Where earlier is
    exactly zero the divisor is 1e-10 itself, a finite non-zero number
    (the binary64 number nearest to 10^-10), so no division by zero takes
    place.  A pixel that goes from 0 to 5 gets difference 5 and
    percentage_change 5 * 10^12, a finite number. *)
Theorem C7_percentage_change_guarded :
  (forall (image_dict : dict image_entry) out results k r,
     compare_images image_dict = (out, inr (Some results)) ->
     (k, r) ∈ results ->
     exists e1,
       dict_get (date1 r) image_dict = Some e1
       /\ forall i d e,
            data (difference r) !! i = Some d ->
            data (astype_float (entry_data e1)) !! i = Some e ->
            data (percentage_change r) !! i
            = Some (F64.mul (F64.div d (F64.add e epsilon)) (F64.of_Z 100)))
  /\ (forall e, F64.is_zero e = true -> F64.add e epsilon = epsilon)
  /\ (epsilon = F64.div (F64.of_Z 1) (F64.of_Z (10 ^ 10))
      /\ F64.is_zero epsilon = false /\ F64.is_finite epsilon = true
      /\ exists n q, finite_value epsilon = Some (n, q)
                     /\ (2 * Z.abs (n * 10 ^ 10 - q) <= 10 ^ 10)%Z)
  /\ (exists r x,
        results_of zero_to_five = [("2023-01-15_to_2023-02-10", r)]
        /\ data (difference r) = [F64.of_Z 5]
        /\ data (percentage_change r) = [x]
        /\ x = F64.mul (F64.div (F64.of_Z 5) epsilon) (F64.of_Z 100)
        /\ F64.is_finite x = true
        /\ exists n q, finite_value x = Some (n, q)
                       /\ (n = 5 * 10 ^ 12 * q)%Z).
Proof.
  split; [|split; [|split]].
  - intros image_dict out results k r Hrun Hin.
    destruct (compare_images_entries _ _ _ _ _ Hrun Hin)
      as (e1 & e2 & _ & H1 & _ & _ & Hr & _).
    exists e1. split; [exact H1|]. intros i d e Hd He.
    destruct (change_result_fields _ _ _ _ _ Hr) as (_ & _ & Hp & _).
    rewrite Hp. simpl.
    rewrite list_lookup_fmap, lookup_zip_with, Hd, list_lookup_fmap, He.
    reflexivity.
  - intros [s| | |] Hz; try discriminate. destruct s; reflexivity.
  - split; [vm_compute; reflexivity|]. split; [reflexivity|].
    split; [reflexivity|]. eexists _, _. split; [reflexivity|].
    vm_compute. discriminate.
  - eexists _, _. split; [vm_compute; reflexivity|].
    split; [vm_compute; reflexivity|]. split; [reflexivity|].
    split; [vm_compute; reflexivity|]. split; [reflexivity|].
    eexists _, _. split; [reflexivity|]. vm_compute. reflexivity.
Qed.

Lemma C7_percentage_change_guarded_witness :
  exists k r,
    head (results_of zero_to_five) = Some (k, r)
    /\ data (percentage_change r) !! 0
       = Some (F64.mul (F64.div (F64.of_Z 5) (F64.add F64.zero epsilon))
                 (F64.of_Z 100)).
Proof.
  eexists _, _. split; [vm_compute; reflexivity|].
  edestruct (proj1 C7_percentage_change_guarded zero_to_five
               (stdout (compare_images zero_to_five)) (results_of zero_to_five))
    as (e1 & H1 & Hpct); [vm_compute; reflexivity|vm_compute; left|].
  vm_compute in H1. injection H1 as <-.
  apply Hpct; vm_compute; reflexivity.
Defined.

(** ** The estimator *)

Section EstimatorFacts.
Context {F : Type} `{Num F}.
Implicit Types (results : dict (ChangeResult F)) (pixel_area : F).

Lemma estimate_item_run pixel_area (estimates : dict (VolumeEstimate F)) item :
  estimate_item pixel_area estimates item
  = (volume_lines pixel_area item,
     inr (store_entry estimates
            (Some (item.1, volume_estimate pixel_area item.2)))).
Proof. reflexivity. Qed.

Lemma omap_Some_fmap {A B} (g : A -> B) (l : list A) :
  omap (fun a => Some (g a)) l = g <$> l.
Proof.
  induction l as [|a l IH]; [reflexivity|].
  rewrite fmap_cons, <- IH. reflexivity.
Qed.

Lemma dict_get_fmap_value {V W} (g : V -> W) (d : dict V) k :
  dict_get k ((fun kv => (kv.1, g kv.2)) <$> d) = g <$> dict_get k d.
Proof.
  induction d as [|[k' v] d IH]; simpl; [reflexivity|].
  destruct (String.eqb k' k); [reflexivity|exact IH].
Qed.

(** On a dictionary the estimator returns one estimate per period, in
    the order of the periods. *)
Lemma estimate_volume_changes_run results pixel_area :
  NoDup (dict_keys results) ->
  estimate_volume_changes results pixel_area
  = (results ≫= volume_lines pixel_area,
     inr ((fun kr => (kr.1, volume_estimate pixel_area kr.2)) <$> results)).
Proof.
  intros Hnd. unfold estimate_volume_changes.
  rewrite (for_each_total (estimate_item pixel_area) (volume_lines pixel_area)
             (fun s item => store_entry s
                (Some (item.1, volume_estimate pixel_area item.2)))).
  - rewrite foldl_store_fresh; rewrite omap_Some_fmap.
    + reflexivity.
    + simpl. rewrite <- list_fmap_compose. exact Hnd.
  - intros s item _. apply estimate_item_run.
Qed.

Lemma estimate_entries results pixel_area out estimates k v :
  estimate_volume_changes results pixel_area = (out, inr estimates) ->
  (k, v) ∈ estimates ->
  exists r, (k, r) ∈ results /\ v = volume_estimate pixel_area r.
Proof.
  intros Hrun Hin. unfold estimate_volume_changes in Hrun.
  pose (I := fun est : dict (VolumeEstimate F) =>
    forall kv, kv ∈ est ->
      exists r, (kv.1, r) ∈ results /\ kv.2 = volume_estimate pixel_area r).
  assert (HI : I estimates).
  { eapply (for_each_invariant _ I); [| |exact Hrun].
    - intros s [k' r'] o s' Hitem Hs Hbody kv Hkv.
      rewrite estimate_item_run in Hbody. injection Hbody as _ <-.
      apply dict_set_elem in Hkv as [->|Hkv]; [|apply Hs, Hkv].
      exists r'. split; [exact Hitem|reflexivity].
    - intros kv Hkv. apply elem_of_nil in Hkv. contradiction. }
  apply (HI (k, v)), Hin.
Qed.
End EstimatorFacts.

(** ** C5: the three volume figures *)



(** ** Integers in binary64: arithmetic without rounding *)

Lemma iter_xO_mul (k a : positive) :
  Z.pos (Pos.iter xO a k) = (Z.pos a * 2 ^ Z.pos k)%Z.
Proof.
  induction k as [|k IH] using Pos.peano_ind.
  - simpl. lia.
  - rewrite Pos.iter_succ, Pos2Z.inj_xO, IH, Pos2Z.inj_succ.
    rewrite Z.pow_succ_r by lia. lia.
Qed.

Lemma shiftl_mul (a : positive) (n : N) :
  Z.pos (Pos.shiftl a n) = (Z.pos a * 2 ^ Z.of_N n)%Z.
Proof.
  destruct n as [|k]; unfold Pos.shiftl.
  - change (Z.of_N 0) with 0%Z. rewrite Z.pow_0_r. lia.
  - apply iter_xO_mul.
Qed.

Lemma digits2_pos_shiftl (a : positive) (n : N) :
  Z.pos (digits2_pos (Pos.shiftl a n)) = (Z.pos (digits2_pos a) + Z.of_N n)%Z.
Proof.
  destruct n as [|k]; unfold Pos.shiftl; [change (Z.of_N 0) with 0%Z; lia|].
  rewrite digits2_pos_iter_xO. change (Z.of_N (N.pos k)) with (Z.pos k). lia.
Qed.

(** Shifting right by [k] a mantissa that ends in [k] zero bits loses
    nothing. *)
Lemma shr_exact (k : positive) : forall q : positive,
  SpecFloat.iter_pos shr_1 k
    {| shr_m := Z.pos (Pos.iter xO q k); shr_r := false; shr_s := false |}
  = {| shr_m := Z.pos q; shr_r := false; shr_s := false |}.
Proof.
  induction k as [k IH|k IH|]; intros q; simpl.
  - rewrite IH, IH. reflexivity.
  - rewrite IH, IH. reflexivity.
  - reflexivity.
Qed.

Lemma digits2_pos_upper (m : positive) :
  (Z.pos m < 2 ^ Z.pos (digits2_pos m))%Z.
Proof.
  induction m as [m IH|m IH|]; simpl digits2_pos; [| |simpl; lia];
    rewrite Pos2Z.inj_succ, Z.pow_succ_r by lia; lia.
Qed.

Lemma fexp_small (d : Z) :
  (1 <= d <= 53)%Z -> fexp F64.prec F64.emax d = (d - 53)%Z.
Proof. unfold fexp, emin, F64.prec, F64.emax. lia. Qed.

Lemma shr_fexp_canonical (m : positive) (e : Z) :
  Z.pos (digits2_pos m) = 53%Z -> (-1074 <= e <= 971)%Z ->
  shr_fexp F64.prec F64.emax (Z.pos m) e loc_Exact
  = ({| shr_m := Z.pos m; shr_r := false; shr_s := false |}, e).
Proof.
  intros Hd He.
  unfold shr_fexp, fexp, emin, F64.prec, F64.emax. simpl Zdigits2. rewrite Hd.
  replace (Z.max (53 + e - 53) (3 - 1024 - 53) - e)%Z with 0%Z by lia.
  reflexivity.
Qed.

(** Rounding a mantissa that is the canonical one moved up by [k] more
    bits, at an exponent lowered by [k], gives the canonical float: the
    bits shifted out are zero. *)
Lemma binary_round_aux_shifted s (n : positive) (k : N) :
  (Z.pos n < 2 ^ 53)%Z ->
  binary_round_aux F64.prec F64.emax s
    (Z.pos (Pos.shiftl
              (Pos.shiftl n (Z.to_N (53 - Z.pos (digits2_pos n)))) k))
    (Z.pos (digits2_pos n) - 53 - Z.of_N k) loc_Exact
  = fin53 s n.
Proof.
  intros Hn. pose proof (digits2_pos_small n Hn) as Hd.
  set (c := Pos.shiftl n (Z.to_N (53 - Z.pos (digits2_pos n)))).
  assert (Hc : Z.pos (digits2_pos c) = 53%Z).
  { unfold c. rewrite digits2_pos_shiftl. lia. }
  destruct k as [|p].
  - unfold Pos.shiftl at 1. change (Z.of_N 0) with 0%Z. rewrite Z.sub_0_r.
    apply binary_round_aux_canonical; [exact Hc|lia].
  - unfold Pos.shiftl at 1. change (Z.of_N (N.pos p)) with (Z.pos p).
    unfold binary_round_aux.
    assert (Hshr : shr_fexp F64.prec F64.emax (Z.pos (Pos.iter xO c p))
                     (Z.pos (digits2_pos n) - 53 - Z.pos p) loc_Exact
                   = ({| shr_m := Z.pos c; shr_r := false; shr_s := false |},
                      Z.pos (digits2_pos n) - 53)%Z).
    { unfold shr_fexp. simpl Zdigits2. rewrite digits2_pos_iter_xO.
      rewrite Pos2Z.inj_add, Hc.
      replace (53 + Z.pos p + (Z.pos (digits2_pos n) - 53 - Z.pos p))%Z
        with (Z.pos (digits2_pos n)) by lia.
      rewrite fexp_small by lia.
      replace (Z.pos (digits2_pos n) - 53
               - (Z.pos (digits2_pos n) - 53 - Z.pos p))%Z
        with (Z.pos p) by lia.
      unfold shr, shr_record_of_loc. rewrite shr_exact. f_equal. lia. }
    rewrite Hshr. cbn [shr_m loc_of_shr_record round_nearest_even].
    rewrite shr_fexp_canonical by (exact Hc || lia).
    cbn [shr_m].
    destruct (Z.leb_spec (Z.pos (digits2_pos n) - 53) (F64.emax - F64.prec))
      as [_|Hgt]; [reflexivity|].
    unfold F64.emax, F64.prec in Hgt. lia.
Qed.

Lemma binary_round_aux_exact s (M n : positive) (e : Z) :
  (Z.pos n < 2 ^ 53)%Z -> (e <= Z.pos (digits2_pos n) - 53)%Z ->
  Z.pos M = (Z.pos n * 2 ^ (- e))%Z ->
  binary_round_aux F64.prec F64.emax s (Z.pos M) e loc_Exact = fin53 s n.
Proof.
  intros Hn He HM. pose proof (digits2_pos_small n Hn) as Hd.
  set (k := Z.to_N (Z.pos (digits2_pos n) - 53 - e)).
  assert (M = Pos.shiftl (Pos.shiftl n (Z.to_N (53 - Z.pos (digits2_pos n)))) k)
    as ->.
  { apply Pos2Z.inj. rewrite HM, !shiftl_mul, <- Z.mul_assoc, <- Z.pow_add_r by lia.
    f_equal. f_equal. unfold k. lia. }
  replace e with (Z.pos (digits2_pos n) - 53 - Z.of_N k)%Z at 1 by (unfold k; lia).
  apply binary_round_aux_shifted, Hn.
Qed.

Lemma binary_round_exact s (M n : positive) (e : Z) :
  (Z.pos n < 2 ^ 53)%Z -> (e <= 0)%Z ->
  Z.pos M = (Z.pos n * 2 ^ (- e))%Z ->
  binary_round F64.prec F64.emax s M e = fin53 s n.
Proof.
  intros Hn He HM. pose proof (digits2_pos_small n Hn) as Hd.
  assert (HdM : Z.pos (digits2_pos M) = (Z.pos (digits2_pos n) - e)%Z).
  { assert (M = Pos.shiftl n (Z.to_N (- e))) as ->.
    { apply Pos2Z.inj. rewrite HM, shiftl_mul. f_equal. f_equal. lia. }
    rewrite digits2_pos_shiftl. lia. }
  unfold binary_round. rewrite HdM.
  replace (Z.pos (digits2_pos n) - e + e)%Z with (Z.pos (digits2_pos n)) by lia.
  rewrite fexp_small by lia. unfold shl_align.
  destruct (Z.pos (digits2_pos n) - 53 - e)%Z as [|d|d] eqn:Hdiff.
  - apply binary_round_aux_exact; [exact Hn|lia|exact HM].
  - apply binary_round_aux_exact; [exact Hn|lia|exact HM].
  - apply binary_round_aux_exact; [exact Hn|lia|].
    rewrite iter_xO_mul, HM, <- Z.mul_assoc, <- Z.pow_add_r by lia.
    f_equal. f_equal. lia.
Qed.

Lemma of_Z_pos (n : positive) :
  (Z.pos n < 2 ^ 53)%Z -> F64.of_Z (Z.pos n) = fin53 false n.
Proof.
  intros Hn. unfold F64.of_Z, binary_normalize.
  apply binary_round_exact; [exact Hn|lia|]. simpl. lia.
Qed.

Lemma of_Z_neg (n : positive) :
  (Z.pos n < 2 ^ 53)%Z -> F64.of_Z (Z.neg n) = fin53 true n.
Proof.
  intros Hn. unfold F64.of_Z, binary_normalize.
  apply binary_round_exact; [exact Hn|lia|]. simpl. lia.
Qed.

Lemma of_Z_zero : F64.of_Z 0 = F64.zero.
Proof. reflexivity. Qed.

Lemma shl_align_fin53 (n : positive) (ez : Z) :
  (Z.pos n < 2 ^ 53)%Z -> (ez <= Z.pos (digits2_pos n) - 53)%Z ->
  Z.pos (shl_align (Pos.shiftl n (Z.to_N (53 - Z.pos (digits2_pos n))))
           (Z.pos (digits2_pos n) - 53) ez).1
  = (Z.pos n * 2 ^ (- ez))%Z.
Proof.
  intros Hn He. pose proof (digits2_pos_small n Hn) as Hd.
  unfold shl_align.
  destruct (ez - (Z.pos (digits2_pos n) - 53))%Z as [|p|p] eqn:Hdiff;
    [|lia|]; cbn [fst].
  - rewrite shiftl_mul. f_equal. f_equal. lia.
  - rewrite iter_xO_mul, shiftl_mul, <- Z.mul_assoc, <- Z.pow_add_r by lia.
    f_equal. f_equal. lia.
Qed.

(** Adding two integers held in binary64 is exact while the sum stays
    below 2^53. *)
Lemma add_of_Z (a b : Z) :
  (Z.abs a < 2 ^ 53)%Z -> (Z.abs b < 2 ^ 53)%Z -> (Z.abs (a + b) < 2 ^ 53)%Z ->
  F64.add (F64.of_Z a) (F64.of_Z b) = F64.of_Z (a + b).
Proof.
  intros Ha Hb Hab.
  assert (Hfin : forall sa sb (na nb : positive),
            (Z.pos na < 2 ^ 53)%Z -> (Z.pos nb < 2 ^ 53)%Z ->
            (Z.abs (cond_Zopp sa (Z.pos na) + cond_Zopp sb (Z.pos nb)) < 2 ^ 53)%Z ->
            F64.add (fin53 sa na) (fin53 sb nb)
            = F64.of_Z (cond_Zopp sa (Z.pos na) + cond_Zopp sb (Z.pos nb))).
  { intros sa sb na nb Hna Hnb Hsum.
    unfold fin53, F64.add, SFadd. cbv zeta.
    set (ez := Z.min (Z.pos (digits2_pos na) - 53) (Z.pos (digits2_pos nb) - 53)).
    pose proof (digits2_pos_small na Hna). pose proof (digits2_pos_small nb Hnb).
    rewrite !shl_align_fin53 by (assumption || (unfold ez; lia)).
    assert (Hez : (ez <= 0)%Z) by (unfold ez; lia).
    set (S := (cond_Zopp sa (Z.pos na) + cond_Zopp sb (Z.pos nb))%Z) in *.
    replace (cond_Zopp sa (Z.pos na * 2 ^ (- ez))
             + cond_Zopp sb (Z.pos nb * 2 ^ (- ez)))%Z
      with (S * 2 ^ (- ez))%Z
      by (unfold S; destruct sa, sb; unfold cond_Zopp; ring).
    destruct S as [|N|N].
    - reflexivity.
    - replace (Z.pos N * 2 ^ (- ez))%Z with (Z.pos (Pos.shiftl N (Z.to_N (- ez))))
        by (rewrite shiftl_mul; f_equal; f_equal; lia).
      unfold binary_normalize. rewrite of_Z_pos by lia.
      apply binary_round_exact; [lia|exact Hez|].
      rewrite shiftl_mul. f_equal. f_equal. lia.
    - replace (Z.neg N * 2 ^ (- ez))%Z with (Z.neg (Pos.shiftl N (Z.to_N (- ez))))
        by (rewrite <- !Pos2Z.opp_pos, shiftl_mul;
            replace (Z.of_N (Z.to_N (- ez))) with (- ez)%Z by lia; ring).
      unfold binary_normalize. rewrite of_Z_neg by lia.
      apply binary_round_exact; [lia|exact Hez|].
      rewrite shiftl_mul. f_equal. f_equal. lia. }
  destruct a as [|na|na], b as [|nb|nb].
  - reflexivity.
  - change (0 + Z.pos nb)%Z with (Z.pos nb). rewrite of_Z_pos by lia. reflexivity.
  - change (0 + Z.neg nb)%Z with (Z.neg nb). rewrite of_Z_neg by lia. reflexivity.
  - change (Z.pos na + 0)%Z with (Z.pos na). rewrite of_Z_pos by lia. reflexivity.
  - rewrite (of_Z_pos na), (of_Z_pos nb) by lia. apply (Hfin false false); unfold cond_Zopp; lia.
  - rewrite (of_Z_pos na), (of_Z_neg nb) by lia. apply (Hfin false true); unfold cond_Zopp; lia.
  - change (Z.neg na + 0)%Z with (Z.neg na). rewrite of_Z_neg by lia. reflexivity.
  - rewrite (of_Z_neg na), (of_Z_pos nb) by lia. apply (Hfin true false); unfold cond_Zopp; lia.
  - rewrite (of_Z_neg na), (of_Z_neg nb) by lia. apply (Hfin true true); unfold cond_Zopp; lia.
Qed.

Lemma digits2_pos_mul_lower (a b : positive) :
  (Z.pos (digits2_pos a) + Z.pos (digits2_pos b) - 1
   <= Z.pos (digits2_pos (a * b)))%Z.
Proof.
  pose proof (digits2_pos_lower a) as Ha.
  pose proof (digits2_pos_lower b) as Hb.
  pose proof (digits2_pos_upper (a * b)) as Hab.
  assert (Hlow : (2 ^ (Z.pos (digits2_pos a) - 1 + (Z.pos (digits2_pos b) - 1))
                  <= Z.pos (a * b))%Z).
  { rewrite Z.pow_add_r, Pos2Z.inj_mul by lia.
    apply Z.mul_le_mono_nonneg; try assumption; apply Z.pow_nonneg; lia. }
  assert (Hlt : (2 ^ (Z.pos (digits2_pos a) - 1 + (Z.pos (digits2_pos b) - 1))
                 < 2 ^ Z.pos (digits2_pos (a * b)))%Z) by lia.
  apply Z.pow_lt_mono_r_iff in Hlt; lia.
Qed.

Lemma mul_fin53 sa sb (na nb : positive) :
  (Z.pos (na * nb) < 2 ^ 53)%Z ->
  F64.mul (fin53 sa na) (fin53 sb nb) = fin53 (xorb sa sb) (na * nb).
Proof.
  intros Hab.
  assert (Hna : (Z.pos na < 2 ^ 53)%Z) by nia.
  assert (Hnb : (Z.pos nb < 2 ^ 53)%Z) by nia.
  pose proof (digits2_pos_small na Hna). pose proof (digits2_pos_small nb Hnb).
  pose proof (digits2_pos_small _ Hab).
  pose proof (digits2_pos_mul_lower na nb).
  unfold fin53 at 1 2. unfold F64.mul, SFmul.
  apply binary_round_aux_exact; [exact Hab|lia|].
  rewrite !Pos2Z.inj_mul, !shiftl_mul.
  replace (- (Z.pos (digits2_pos na) - 53 + (Z.pos (digits2_pos nb) - 53)))%Z
    with (Z.of_N (Z.to_N (53 - Z.pos (digits2_pos na)))
          + Z.of_N (Z.to_N (53 - Z.pos (digits2_pos nb))))%Z by lia.
  rewrite Z.pow_add_r by lia. ring.
Qed.

(** Multiplying two integers held in binary64 is exact while the product
    stays below 2^53; a zero factor gives the zero of [of_Z] when the
    other factor is not negative. *)
Lemma mul_of_Z (a b : Z) :
  (Z.abs a < 2 ^ 53)%Z -> (Z.abs b < 2 ^ 53)%Z -> (Z.abs (a * b) < 2 ^ 53)%Z ->
  (a = 0 -> 0 <= b)%Z -> (b = 0 -> 0 <= a)%Z ->
  F64.mul (F64.of_Z a) (F64.of_Z b) = F64.of_Z (a * b).
Proof.
  intros Ha Hb Hab Hza Hzb.
  destruct a as [|na|na], b as [|nb|nb]; try (exfalso; lia).
  - reflexivity.
  - rewrite of_Z_pos by lia. reflexivity.
  - rewrite of_Z_pos by lia. reflexivity.
  - change (Z.pos na * Z.pos nb)%Z with (Z.pos (na * nb)) in *.
    rewrite !of_Z_pos by lia. apply (mul_fin53 false false). lia.
  - change (Z.pos na * Z.neg nb)%Z with (Z.neg (na * nb)) in *.
    rewrite (of_Z_pos na), (of_Z_neg nb), (of_Z_neg (na * nb)) by lia.
    apply (mul_fin53 false true). lia.
  - change (Z.neg na * Z.pos nb)%Z with (Z.neg (na * nb)) in *.
    rewrite (of_Z_neg na), (of_Z_pos nb), (of_Z_neg (na * nb)) by lia.
    apply (mul_fin53 true false). lia.
  - change (Z.neg na * Z.neg nb)%Z with (Z.pos (na * nb)) in *.
    rewrite (of_Z_neg na), (of_Z_neg nb), (of_Z_pos (na * nb)) by lia.
    apply (mul_fin53 true true). lia.
Qed.

(** [x - (-y)] is [x + y], bit for bit. *)
Lemma sub_opp (x y : float) : F64.sub x (F64.opp y) = F64.add x y.
Proof.
  destruct x as [[]|[]| |sx mx ex], y as [[]|[]| |[] my ey]; try reflexivity;
    unfold F64.sub, F64.add, F64.opp, SFsub, SFadd, SFopp; cbv zeta;
    f_equal; unfold cond_Zopp; simpl negb; cbv iota; lia.
Qed.

(** [x - y] is [x + (-y)], bit for bit. *)
Lemma sub_add_opp (x y : float) : F64.sub x y = F64.add x (F64.opp y).
Proof.
  destruct x as [[]|[]| |sx mx ex], y as [[]|[]| |[] my ey]; try reflexivity;
    unfold F64.sub, F64.add, F64.opp, SFsub, SFadd, SFopp; cbv zeta;
    f_equal; unfold cond_Zopp; simpl negb; cbv iota; lia.
Qed.

Lemma opp_of_Z (z : Z) :
  (Z.abs z < 2 ^ 53)%Z -> z <> 0%Z -> F64.opp (F64.of_Z z) = F64.of_Z (- z).
Proof.
  intros Hz Hnz. destruct z as [|n|n]; [congruence| |].
  - change (- Z.pos n)%Z with (Z.neg n).
    rewrite of_Z_pos, of_Z_neg by lia. reflexivity.
  - change (- Z.neg n)%Z with (Z.pos n).
    rewrite of_Z_pos, of_Z_neg by lia. reflexivity.
Qed.

(** Subtracting two integers held in binary64 is exact while the
    difference stays below 2^53. *)
Lemma sub_of_Z (a b : Z) :
  (Z.abs a < 2 ^ 53)%Z -> (Z.abs b < 2 ^ 53)%Z -> (Z.abs (a - b) < 2 ^ 53)%Z ->
  F64.sub (F64.of_Z a) (F64.of_Z b) = F64.of_Z (a - b).
Proof.
  intros Ha Hb Hab. destruct (Z.eq_dec b 0%Z) as [->|Hnz].
  - rewrite Z.sub_0_r. destruct a as [|n|n]; [reflexivity| |].
    + rewrite of_Z_pos by lia. reflexivity.
    + rewrite of_Z_neg by lia. reflexivity.
  - rewrite sub_add_opp, opp_of_Z by assumption.
    apply add_of_Z; lia.
Qed.

Lemma ltb_of_Z_zero (z : Z) :
  (Z.abs z < 2 ^ 53)%Z ->
  F64.ltb (F64.of_Z z) F64.zero = (z <? 0)%Z
  /\ F64.ltb F64.zero (F64.of_Z z) = (0 <? z)%Z.
Proof.
  intros Hz. destruct z as [|n|n].
  - split; reflexivity.
  - rewrite of_Z_pos by lia. split; reflexivity.
  - rewrite of_Z_neg by lia. split; reflexivity.
Qed.

(** ** C10: signs of the figures and the net change *)

Section Exact.
Context {F : Type} `{ExactNum F}.

Lemma exact_add_zero_r (a : F) : num_add a num_zero = a.
Proof. rewrite exact_add_comm. apply exact_add_zero. Qed.

Lemma exact_opp_opp (a : F) : num_opp (num_opp a) = a.
Proof.
  rewrite <- (exact_add_zero (num_opp (num_opp a))).
  rewrite <- (exact_add_opp a), <- exact_add_assoc, exact_add_opp.
  apply exact_add_zero_r.
Qed.

Lemma exact_foldl_acc (l : list F) : forall acc,
  foldl num_add acc l = num_add acc (foldl num_add num_zero l).
Proof.
  induction l as [|x l IH]; intros acc; simpl.
  - symmetry. apply exact_add_zero_r.
  - rewrite (IH (num_add acc x)), (IH (num_add num_zero x)).
    rewrite exact_add_zero, exact_add_assoc. reflexivity.
Qed.

Lemma exact_fold_cons (x : F) (l : list F) :
  foldl num_add num_zero (x :: l) = num_add x (foldl num_add num_zero l).
Proof. simpl. rewrite exact_foldl_acc, exact_add_zero. reflexivity. Qed.

Lemma exact_fold_app (l1 l2 : list F) :
  foldl num_add num_zero (l1 ++ l2)
  = num_add (foldl num_add num_zero l1) (foldl num_add num_zero l2).
Proof. rewrite foldl_app. apply exact_foldl_acc. Qed.

Lemma exact_add_swap (a b c d : F) :
  num_add (num_add a b) (num_add c d) = num_add (num_add a c) (num_add b d).
Proof.
  rewrite <- !exact_add_assoc. f_equal.
  rewrite !exact_add_assoc. f_equal. apply exact_add_comm.
Qed.

Lemma exact_zip_with_add (r : list F) : forall b,
  length r = length b ->
  foldl num_add num_zero (zip_with num_add r b)
  = num_add (foldl num_add num_zero r) (foldl num_add num_zero b).
Proof.
  induction r as [|x r IH]; intros [|y b] Hlen; try discriminate.
  - symmetry. apply exact_add_zero.
  - change (zip_with num_add (x :: r) (y :: b))
      with (num_add x y :: zip_with num_add r b).
    rewrite !exact_fold_cons, IH by (simpl in Hlen; lia).
    apply exact_add_swap.
Qed.

Lemma exact_take_drop (n : nat) (l : list F) :
  num_add (foldl num_add num_zero (take n l)) (foldl num_add num_zero (drop n l))
  = foldl num_add num_zero l.
Proof. rewrite <- exact_fold_app, take_drop. reflexivity. Qed.

Lemma exact_unrolled (blocks : nat) : forall r l : list F,
  length r = 8 -> 8 * blocks <= length l ->
  length (unrolled blocks r l).1 = 8
  /\ num_add (foldl num_add num_zero (unrolled blocks r l).1)
       (foldl num_add num_zero (unrolled blocks r l).2)
     = num_add (foldl num_add num_zero r) (foldl num_add num_zero l).
Proof.
  induction blocks as [|blocks IH]; intros r l Hr Hl; [by split|].
  change (unrolled (S blocks) r l)
    with (unrolled blocks (zip_with num_add r (take 8 l)) (drop 8 l)).
  assert (length (take 8 l) = 8) as Ht by (rewrite length_take; lia).
  destruct (IH (zip_with num_add r (take 8 l)) (drop 8 l)) as [Hlen Hsum].
  { rewrite length_zip_with; lia. }
  { rewrite length_drop; lia. }
  split; [exact Hlen|]. rewrite Hsum, exact_zip_with_add by lia.
  rewrite <- exact_add_assoc, exact_take_drop. reflexivity.
Qed.

Lemma exact_combine8 (r : list F) :
  length r = 8 -> combine8 r = foldl num_add num_zero r.
Proof.
  intros Hr. do 8 (destruct r as [|? r]; [discriminate|]).
  destruct r; [|discriminate].
  unfold combine8, foldl. rewrite exact_add_zero, !exact_add_assoc.
  reflexivity.
Qed.

Lemma exact_block_sum (l : list F) :
  8 <= length l -> block_sum l = foldl num_add num_zero l.
Proof.
  intros Hl. unfold block_sum.
  destruct (exact_unrolled (length l / 8 - 1) (take 8 l) (drop 8 l))
    as [Hlen Hsum].
  { rewrite length_take; lia. }
  { rewrite length_drop.
    pose proof (Nat.Div0.mul_div_le (length l) 8). lia. }
  destruct (unrolled _ _ _) as [r rest]. simpl in Hlen, Hsum.
  rewrite exact_foldl_acc, exact_combine8, Hsum by exact Hlen.
  apply exact_take_drop.
Qed.

Lemma exact_pairwise_sum (depth : nat) : forall l : list F,
  pairwise_sum depth l = foldl num_add num_zero l.
Proof.
  induction depth as [|depth IH]; intros l; rewrite pairwise_sum_eq;
    destruct (Nat.ltb_spec (length l) 8); try reflexivity;
    destruct (length l <=? 128)%nat; try (by apply exact_block_sum).
  cbv zeta. rewrite !IH. apply exact_take_drop.
Qed.

(** In exact arithmetic the grouping of the additions is immaterial:
    [np.sum] is the sum from zero in element order. *)
Lemma exact_np_sum (l : list F) : np_sum l = foldl num_add num_zero l.
Proof. unfold np_sum. rewrite exact_pairwise_sum. apply exact_add_zero. Qed.

Lemma exact_sum_cons (x : F) (l : list F) :
  np_sum (x :: l) = num_add x (np_sum l).
Proof. rewrite !exact_np_sum. apply exact_fold_cons. Qed.

Lemma exact_sum_split (l : list F) :
  num_add (np_sum (select_positive l)) (np_sum (select_negative l))
  = np_sum l.
Proof.
  induction l as [|x l IH];
    [rewrite !exact_np_sum; apply exact_add_zero|].
  unfold select_positive, select_negative in *.
  rewrite exact_sum_cons, <- IH.
  destruct (num_ltb x num_zero) eqn:Hneg.
  - pose proof (exact_ltb_asym x Hneg) as Hpos.
    rewrite (filter_cons_True (fun v => num_ltb v num_zero = true)) by exact Hneg.
    rewrite (filter_cons_False (fun v => num_ltb num_zero v = true)) by congruence.
    rewrite exact_sum_cons, !exact_add_assoc.
    f_equal. apply exact_add_comm.
  - rewrite (filter_cons_False (fun v => num_ltb v num_zero = true)) by congruence.
    destruct (num_ltb num_zero x) eqn:Hpos.
    + rewrite (filter_cons_True (fun v => num_ltb num_zero v = true)) by exact Hpos.
      rewrite exact_sum_cons, exact_add_assoc. reflexivity.
    + rewrite (filter_cons_False (fun v => num_ltb num_zero v = true)) by congruence.
      rewrite (exact_trichotomy x Hneg Hpos), exact_add_zero. reflexivity.
Qed.

Lemma exact_sum_scale (a : F) (l : list F) :
  np_sum ((fun d => num_mul d a) <$> l) = num_mul (np_sum l) a.
Proof.
  induction l as [|x l IH];
    [rewrite !exact_np_sum; symmetry; apply exact_mul_zero|].
  rewrite fmap_cons, !exact_sum_cons, IH, exact_mul_add. reflexivity.
Qed.

Lemma exact_net_change (pixel_area : F) (r : ChangeResult F) :
  net_change_m3 (volume_estimate pixel_area r)
  = num_mul pixel_area (np_sum (data (difference r))).
Proof.
  unfold volume_estimate. simpl.
  rewrite exact_sub, exact_opp_opp, exact_sum_split, exact_sum_scale.
  apply exact_mul_comm.
Qed.
End Exact.

#[export] Instance exact_Z_laws : ExactNum Z.
Proof.
  constructor; simpl; intros; lia.
Qed.

(** *** Integer-valued arrays: the estimator computes without rounding *)

Lemma sum_abs_nonneg (l : list Z) : (0 <= sum_abs l)%Z.
Proof. induction l as [|x l IH]; simpl; lia. Qed.

Lemma sum_abs_elem (l : list Z) (x : Z) : x ∈ l -> (Z.abs x <= sum_abs l)%Z.
Proof.
  induction l as [|y l IH]; [intros H; apply elem_of_nil in H; contradiction|].
  pose proof (sum_abs_nonneg l). rewrite elem_of_cons. simpl.
  intros [->|Hin]; [lia|]. specialize (IH Hin). lia.
Qed.

Lemma sum_abs_filter (P : Z -> Prop) `{forall z, Decision (P z)} (l : list Z) :
  (sum_abs (filter P l) <= sum_abs l)%Z.
Proof.
  induction l as [|x l IH]; [simpl; lia|].
  rewrite filter_cons. destruct (decide (P x)); simpl; lia.
Qed.

Lemma sum_abs_scale (a : Z) (l : list Z) :
  (0 <= a)%Z -> sum_abs ((fun d => d * a)%Z <$> l) = (a * sum_abs l)%Z.
Proof.
  intros Ha. induction l as [|x l IH]; [simpl; lia|].
  rewrite fmap_cons. simpl. rewrite IH. rewrite Z.abs_mul. lia.
Qed.

Lemma foldl_add_bound (l : list Z) : forall acc : Z,
  (Z.abs (foldl Z.add acc l) <= Z.abs acc + sum_abs l)%Z.
Proof.
  induction l as [|x l IH]; intros acc; simpl; [lia|].
  specialize (IH (acc + x)%Z). lia.
Qed.

Lemma foldl_add_of_Z (l : list Z) : forall acc : Z,
  (Z.abs acc + sum_abs l < 2 ^ 53)%Z ->
  foldl F64.add (F64.of_Z acc) (F64.of_Z <$> l) = F64.of_Z (foldl Z.add acc l).
Proof.
  induction l as [|x l IH]; intros acc Hb; [reflexivity|].
  pose proof (sum_abs_nonneg l). simpl in Hb.
  rewrite fmap_cons. simpl. rewrite add_of_Z by lia. apply IH. lia.
Qed.

Lemma np_sum_Z (l : list Z) : np_sum l = foldl Z.add 0%Z l.
Proof. rewrite exact_np_sum. reflexivity. Qed.

Lemma pairwise_sum_Z (depth : nat) (l : list Z) :
  pairwise_sum depth l = foldl Z.add 0%Z l.
Proof. rewrite exact_pairwise_sum. reflexivity. Qed.

Lemma sum_abs_app (l1 l2 : list Z) :
  sum_abs (l1 ++ l2) = (sum_abs l1 + sum_abs l2)%Z.
Proof. induction l1 as [|x l1 IH]; simpl; lia. Qed.

Lemma sum_abs_take_drop (n : nat) (l : list Z) :
  (sum_abs (take n l) + sum_abs (drop n l))%Z = sum_abs l.
Proof. rewrite <- sum_abs_app, take_drop. reflexivity. Qed.

Lemma sum_abs_zip_with (r : list Z) : forall b,
  (sum_abs (zip_with Z.add r b) <= sum_abs r + sum_abs b)%Z.
Proof.
  induction r as [|x r IH]; intros [|y b]; simpl;
    try (pose proof (sum_abs_nonneg r)); try (pose proof (sum_abs_nonneg b));
    try lia.
  specialize (IH b). lia.
Qed.

Lemma zip_with_add_of_Z (r : list Z) : forall b,
  (sum_abs r + sum_abs b < 2 ^ 53)%Z ->
  zip_with F64.add (F64.of_Z <$> r) (F64.of_Z <$> b)
  = F64.of_Z <$> zip_with Z.add r b.
Proof.
  induction r as [|x r IH]; intros [|y b] Hb; try reflexivity.
  pose proof (sum_abs_nonneg r). pose proof (sum_abs_nonneg b).
  simpl in Hb. rewrite !fmap_cons. simpl zip_with.
  rewrite fmap_cons, IH, add_of_Z by lia. reflexivity.
Qed.

Lemma unrolled_of_Z (blocks : nat) : forall r l : list Z,
  (sum_abs r + sum_abs l < 2 ^ 53)%Z ->
  unrolled blocks (F64.of_Z <$> r) (F64.of_Z <$> l)
  = (F64.of_Z <$> (unrolled blocks r l).1, F64.of_Z <$> (unrolled blocks r l).2)
  /\ (sum_abs (unrolled blocks r l).1 + sum_abs (unrolled blocks r l).2
      <= sum_abs r + sum_abs l)%Z.
Proof.
  induction blocks as [|blocks IH]; intros r l Hb; [split; [reflexivity|simpl; lia]|].
  pose proof (sum_abs_take_drop 8 l) as Htd.
  pose proof (sum_abs_zip_with r (take 8 l)) as Hz.
  pose proof (sum_abs_nonneg (drop 8 l)).
  change (unrolled (S blocks) r l)
    with (unrolled blocks (zip_with Z.add r (take 8 l)) (drop 8 l)).
  change (unrolled (S blocks) (F64.of_Z <$> r) (F64.of_Z <$> l))
    with (unrolled blocks
            (zip_with F64.add (F64.of_Z <$> r) (take 8 (F64.of_Z <$> l)))
            (drop 8 (F64.of_Z <$> l))).
  rewrite <- fmap_take, <- fmap_drop, zip_with_add_of_Z by lia.
  destruct (IH (zip_with Z.add r (take 8 l)) (drop 8 l)) as [-> Hle]; [lia|].
  split; [reflexivity|lia].
Qed.

Lemma combine8_of_Z (r : list Z) :
  (sum_abs r < 2 ^ 53)%Z ->
  combine8 (F64.of_Z <$> r) = F64.of_Z (combine8 r)
  /\ (Z.abs (combine8 r) <= sum_abs r)%Z.
Proof.
  intros Hb.
  do 8 (destruct r as [|? r]; [split; [reflexivity|simpl; lia]|]).
  destruct r as [|? r];
    [|pose proof (sum_abs_nonneg r); split; [reflexivity|simpl; lia]].
  unfold sum_abs, foldr in Hb. unfold combine8, sum_abs, foldr.
  rewrite !fmap_cons, fmap_nil. simpl num_add.
  rewrite !add_of_Z by lia. split; [reflexivity|lia].
Qed.

Lemma block_sum_of_Z (l : list Z) :
  (sum_abs l < 2 ^ 53)%Z ->
  block_sum (F64.of_Z <$> l) = F64.of_Z (block_sum l).
Proof.
  intros Hb. pose proof (sum_abs_take_drop 8 l) as Htd. unfold block_sum.
  rewrite length_fmap, <- fmap_take, <- fmap_drop.
  destruct (unrolled_of_Z (length l / 8 - 1) (take 8 l) (drop 8 l))
    as [-> Hle]; [lia|].
  destruct (unrolled _ (take 8 l) _) as [r rest]. simpl in Hle |- *.
  pose proof (sum_abs_nonneg r). pose proof (sum_abs_nonneg rest).
  destruct (combine8_of_Z r) as [-> Hc]; [lia|].
  simpl num_add. apply foldl_add_of_Z. lia.
Qed.

Lemma pairwise_sum_of_Z (depth : nat) : forall l : list Z,
  (sum_abs l < 2 ^ 53)%Z ->
  pairwise_sum depth (F64.of_Z <$> l) = F64.of_Z (pairwise_sum depth l).
Proof.
  induction depth as [|depth IH]; intros l Hb;
    rewrite !pairwise_sum_eq, length_fmap;
    destruct (length l <? 8)%nat;
    try (by apply (foldl_add_of_Z l 0%Z));
    destruct (length l <=? 128)%nat; try (by apply block_sum_of_Z).
  cbv zeta. set (n2 := (length l / 2 - (length l / 2) mod 8)%nat).
  pose proof (sum_abs_take_drop n2 l) as Htd.
  pose proof (sum_abs_nonneg (take n2 l)). pose proof (sum_abs_nonneg (drop n2 l)).
  pose proof (foldl_add_bound (take n2 l) 0%Z) as Hl.
  pose proof (foldl_add_bound (drop n2 l) 0%Z) as Hr.
  rewrite <- fmap_take, <- fmap_drop, !IH by lia.
  simpl num_add. rewrite !pairwise_sum_Z. apply add_of_Z; lia.
Qed.

(** The sum of integers held in binary64 is exact while the sum of the
    magnitudes stays below 2^53, however numpy groups the additions. *)
Lemma np_sum_of_Z (l : list Z) :
  (sum_abs l < 2 ^ 53)%Z -> np_sum (F64.of_Z <$> l) = F64.of_Z (np_sum l).
Proof.
  intros Hb. pose proof (sum_abs_nonneg l).
  pose proof (foldl_add_bound l 0%Z) as Hl.
  unfold np_sum. rewrite length_fmap, pairwise_sum_of_Z by exact Hb.
  simpl num_add. simpl num_zero. rewrite pairwise_sum_Z.
  apply (add_of_Z 0); simpl; lia.
Qed.

Lemma select_of_Z (l : list Z) :
  Forall (fun z => (Z.abs z < 2 ^ 53)%Z) l ->
  select_negative (F64.of_Z <$> l) = F64.of_Z <$> select_negative l
  /\ select_positive (F64.of_Z <$> l) = F64.of_Z <$> select_positive l.
Proof.
  unfold select_negative, select_positive. simpl num_ltb. simpl num_zero.
  induction 1 as [|x l Hx Hl [IHn IHp]]; [split; reflexivity|].
  destruct (ltb_of_Z_zero x Hx) as [Hneg Hpos].
  rewrite fmap_cons, !filter_cons. split.
  - destruct (decide (F64.ltb (F64.of_Z x) F64.zero = true)) as [Hf|Hf],
      (decide ((x <? 0)%Z = true)) as [Hz|Hz];
      rewrite ?fmap_cons, IHn; try reflexivity; congruence.
  - destruct (decide (F64.ltb F64.zero (F64.of_Z x) = true)) as [Hf|Hf],
      (decide ((0 <? x)%Z = true)) as [Hz|Hz];
      rewrite ?fmap_cons, IHp; try reflexivity; congruence.
Qed.

(** With integer-valued differences and an integer pixel area the three
    figures are computed without rounding as long as
    [pixel_area * sum |difference|] stays below 2^53, and then the net
    change is the pixel area times the sum of the differences. *)
Lemma volume_estimate_of_Z (zd : list Z) (a : Z) (r : ChangeResult float) :
  data (difference r) = F64.of_Z <$> zd ->
  (0 < a < 2 ^ 53)%Z -> (a * sum_abs zd < 2 ^ 53)%Z ->
  net_change_m3 (volume_estimate (F64.of_Z a) r) = F64.of_Z (a * np_sum zd)
  /\ F64.mul (F64.of_Z a) (np_sum (data (difference r)))
     = F64.of_Z (a * np_sum zd).
Proof.
  intros Hd Ha Hb. pose proof (sum_abs_nonneg zd) as Hnn.
  assert (Hzd : (sum_abs zd <= a * sum_abs zd)%Z) by nia.
  set (vz := (fun d => d * a)%Z <$> zd).
  assert (Hvz : sum_abs vz = (a * sum_abs zd)%Z) by (apply sum_abs_scale; lia).
  assert (Hscaled : (fun d => F64.mul d (F64.of_Z a)) <$> (F64.of_Z <$> zd)
                    = F64.of_Z <$> vz).
  { unfold vz. rewrite <- !list_fmap_compose.
    apply list_fmap_ext. intros i d Hi. simpl.
    assert (Hin : d ∈ zd) by (apply list_elem_of_lookup; eauto).
    pose proof (sum_abs_elem _ _ Hin).
    apply mul_of_Z; try lia. rewrite Z.abs_mul. nia. }
  assert (Hsmall : Forall (fun z => (Z.abs z < 2 ^ 53)%Z) vz).
  { apply Forall_forall. intros z Hz. pose proof (sum_abs_elem _ _ Hz). lia. }
  destruct (select_of_Z vz Hsmall) as [Hneg Hpos].
  pose proof (sum_abs_filter (fun v => (v <? 0)%Z = true) vz) as Hbn.
  pose proof (sum_abs_filter (fun v => (0 <? v)%Z = true) vz) as Hbp.
  pose proof (foldl_add_bound (select_negative vz) 0%Z) as Hsn.
  pose proof (foldl_add_bound (select_positive vz) 0%Z) as Hsp.
  pose proof (foldl_add_bound vz 0%Z) as Hsv.
  pose proof (foldl_add_bound zd 0%Z) as Hsz.
  pose proof (exact_sum_split vz) as Hsplit.
  pose proof (exact_sum_scale a zd) as Hscale.
  simpl num_add in Hsplit. simpl num_mul in Hscale. fold vz in Hscale.
  unfold select_negative, select_positive in Hsn, Hsp, Hsplit.
  simpl num_ltb in *. simpl num_zero in *.
  rewrite <- !np_sum_Z in Hsn, Hsp, Hsv, Hsz.
  simpl Z.abs in Hsn, Hsp, Hsv, Hsz.
  split.
  - unfold volume_estimate. simpl net_change_m3. simpl data.
    simpl num_sub. simpl num_opp. simpl num_mul.
    rewrite Hd, Hscaled, Hneg, Hpos.
    rewrite sub_opp, !np_sum_of_Z by (unfold select_negative, select_positive; simpl; lia).
    unfold select_negative, select_positive. simpl num_ltb. simpl num_zero.
    rewrite add_of_Z by lia.
    rewrite Hsplit, Hscale. f_equal. lia.
  - rewrite Hd, np_sum_of_Z by lia.
    rewrite mul_of_Z; [reflexivity|lia|lia| |lia|lia].
    rewrite Z.abs_mul. nia.
Qed.

(** The difference of two integer rasters of pixels below 2^52 in
    magnitude is the integer difference, pixel by pixel. *)
Lemma difference_of_Z (l2 l1 : list Z) :
  Forall (fun z => (Z.abs z < 2 ^ 52)%Z) l2 ->
  Forall (fun z => (Z.abs z < 2 ^ 52)%Z) l1 ->
  zip_with F64.sub (F64.of_Z <$> l2) (F64.of_Z <$> l1)
  = F64.of_Z <$> zip_with Z.sub l2 l1.
Proof.
  intros H2. revert l1. induction H2 as [|x l2 Hx H2 IH]; intros l1 H1.
  - reflexivity.
  - destruct H1 as [|y l1 Hy H1]; [reflexivity|].
    rewrite !fmap_cons. simpl zip_with. rewrite fmap_cons, IH by assumption.
    rewrite sub_of_Z by lia. reflexivity.
Qed.

(** C10, as stated, does not hold: for two pixels that rise by 0.1 and
    0.2 and the default pixel area 100, net_change is 30.0 while
    100 * (0.1 + 0.2) is 30.000000000000004 in binary64. *)
Lemma C10_net_change_is_not_area_times_sum :
  exists r v,
    results_of tenths = [("2023-01-15_to_2023-02-10", r)]
    /\ data (difference r) = [one_tenth; two_tenths]
    /\ one_tenth = F64.div (F64.of_Z 1) (F64.of_Z 10)
    /\ two_tenths = F64.div (F64.of_Z 2) (F64.of_Z 10)
    /\ outcome (estimate_volume_changes (results_of tenths) default_pixel_area)
       = inr [("2023-01-15_to_2023-02-10", v)]
    /\ net_change_m3 v = F64.of_Z 30
    /\ F64.mul default_pixel_area (np_sum (data (difference r)))
       = S754_finite false 8444249301319681 (-48)
    /\ net_change_m3 v
       <> F64.mul default_pixel_area (np_sum (data (difference r))).
Proof.
  eexists _, _. split; [vm_compute; reflexivity|].
  split; [reflexivity|]. split; [vm_compute; reflexivity|].
  split; [vm_compute; reflexivity|]. split; [vm_compute; reflexivity|].
  split; [vm_compute; reflexivity|]. split; [vm_compute; reflexivity|].
  vm_compute. discriminate.
Qed.

(** C10, amended: every estimate has material_removed >= 0 and
    material_added >= 0, and net_change = material_added -
    material_removed, where a zero-valued pixel is taken by neither sum.
    net_change equals pixelArea times the sum of the signed differences in
    exact arithmetic (any element type that obeys the ring and order
    laws, such as the integers), and in binary64 whenever nothing is
    rounded: for integer-valued differences, as integer rasters give, and
    a positive integer pixel area with pixelArea * sum |difference| below
    2^53.  On other values rounding can make the two differ. *)
Theorem C10_signs_and_exact_net_change :
  (forall (results : dict (ChangeResult float)) (pixel_area : float)
          out estimates period v,
     estimate_volume_changes results pixel_area = (out, inr estimates) ->
     (period, v) ∈ estimates ->
     F64.leb F64.zero (material_removed_m3 v) = true
     /\ F64.leb F64.zero (material_added_m3 v) = true
     /\ net_change_m3 v = F64.sub (material_added_m3 v) (material_removed_m3 v))
  /\ (forall pixel_area d : float,
        F64.is_zero d = true ->
        select_negative [F64.mul d pixel_area] = []
        /\ select_positive [F64.mul d pixel_area] = [])
  /\ (forall (F : Type) (HF : Num F), ExactNum F ->
      forall (results : dict (ChangeResult F)) (pixel_area : F)
             out estimates period v,
        estimate_volume_changes results pixel_area = (out, inr estimates) ->
        (period, v) ∈ estimates ->
        exists r, (period, r) ∈ results
                  /\ net_change_m3 v
                     = num_mul pixel_area (np_sum (data (difference r))))
  /\ (forall (zd : list Z) (a : Z) (r : ChangeResult float),
        data (difference r) = F64.of_Z <$> zd ->
        (0 < a < 2 ^ 53)%Z -> (a * sum_abs zd < 2 ^ 53)%Z ->
        net_change_m3 (volume_estimate (F64.of_Z a) r)
        = F64.mul (F64.of_Z a) (np_sum (data (difference r))))
  /\ (forall d1 d2 (a1 a2 : ndarray Z) (r : ChangeResult float),
        change_result d1 d2 (IntRaster a1) (IntRaster a2) = Some r ->
        Forall (fun z => (Z.abs z < 2 ^ 52)%Z) (data a1) ->
        Forall (fun z => (Z.abs z < 2 ^ 52)%Z) (data a2) ->
        data (difference r)
        = F64.of_Z <$> zip_with Z.sub (data a2) (data a1)).
Proof.
  split; [|split; [|split; [|split]]].
  - intros results pixel_area out estimates period v Hrun Hin.
    destruct (estimate_entries _ _ _ _ _ _ Hrun Hin) as (r & _ & ->).
    unfold volume_estimate. simpl.
    split; [apply opp_nonpos, sum_negative_nonpos|].
    split; [apply sum_positive_nonneg|reflexivity].
  - intros pixel_area d Hz.
    destruct (mul_zero_unselected d pixel_area Hz) as [Hneg Hpos].
    unfold select_negative, select_positive. simpl num_ltb. simpl num_zero.
    rewrite !filter_cons_False, !filter_nil by congruence. auto.
  - intros F HF HE results pixel_area out estimates period v Hrun Hin.
    destruct (estimate_entries _ _ _ _ _ _ Hrun Hin) as (r & Hr & ->).
    exists r. split; [exact Hr|]. apply exact_net_change.
  - intros zd a r Hd Ha Hb.
    destruct (volume_estimate_of_Z zd a r Hd Ha Hb) as [-> ->]. reflexivity.
  - intros d1 d2 a1 a2 r Hr H1 H2.
    destruct (change_result_fields _ _ _ _ _ Hr) as (-> & _).
    apply difference_of_Z; assumption.
Qed.

Lemma C10_signs_and_exact_net_change_witness :
  (exists v,
     outcome (estimate_volume_changes exact_results 100%Z)
     = inr [("2023-01-15_to_2023-02-10", v)]
     /\ net_change_m3 v = (100 * (3 + -5 + 0))%Z)
  /\ (exists k r,
        head (results_of two_to_zero) = Some (k, r)
        /\ net_change_m3 (volume_estimate (F64.of_Z 100) r)
           = F64.mul (F64.of_Z 100) (np_sum (data (difference r)))).
Proof.
  split.
  - eexists. split; [vm_compute; reflexivity|].
    edestruct (proj1 (proj2 (proj2 C10_signs_and_exact_net_change))
                 Z exact_Z exact_Z_laws exact_results 100%Z)
      as (r & Hr & Hnet); [vm_compute; reflexivity|left|].
    apply list_elem_of_singleton in Hr. injection Hr as ->.
    etransitivity; [exact Hnet|]. reflexivity.
  - eexists _, _. split; [vm_compute; reflexivity|].
    apply (proj1 (proj2 (proj2 (proj2 C10_signs_and_exact_net_change)))
             [(-2)%Z] 100%Z); [vm_compute; reflexivity|lia|vm_compute; reflexivity].
Defined.

(** * The loader as a whole *)

(** ** Assignment and lookup in a dictionary *)

Section DictUpdate.
Context {V : Type}.
Implicit Types (d : dict V) (k : string) (v : V).

Lemma dict_get_set k k' v d :
  dict_get k (dict_set k' v d)
  = if String.eqb k' k then Some v else dict_get k d.
Proof.
  induction d as [|[k0 v0] d IH]; simpl; [done|].
  destruct (String.eqb_spec k0 k') as [->|Hne]; simpl.
  - destruct (String.eqb_spec k' k); done.
  - rewrite IH. destruct (String.eqb_spec k0 k) as [->|]; [|done].
    destruct (String.eqb_spec k' k); congruence.
Qed.

Lemma dict_set_keys k v d :
  dict_keys (dict_set k v d)
  = if decide (k ∈ dict_keys d) then dict_keys d else dict_keys d ++ [k].
Proof.
  induction d as [|[k0 v0] d IH].
  - destruct (decide _) as [Hin|_]; [|done]. by apply elem_of_nil in Hin.
  - change (dict_keys ((k0, v0) :: d)) with (k0 :: dict_keys d).
    change (dict_set k v ((k0, v0) :: d))
      with (if String.eqb k0 k then (k0, v) :: d else (k0, v0) :: dict_set k v d).
    destruct (String.eqb_spec k0 k) as [->|Hne].
    + rewrite decide_True; [done|]. apply list_elem_of_here.
    + change (dict_keys ((k0, v0) :: dict_set k v d))
        with (k0 :: dict_keys (dict_set k v d)).
      rewrite IH. destruct (decide (k ∈ dict_keys d)) as [Hin|Hout].
      * rewrite decide_True; [done|]. by apply list_elem_of_further.
      * rewrite decide_False; [done|].
        intros [?|?]%elem_of_cons; congruence.
Qed.

Lemma dict_set_NoDup k v d :
  NoDup (dict_keys d) -> NoDup (dict_keys (dict_set k v d)).
Proof.
  intros Hd. rewrite dict_set_keys. case_decide; [done|].
  apply NoDup_app. split_and!; [done| |apply NoDup_singleton].
  intros x Hx ->%list_elem_of_singleton. done.
Qed.

Lemma dict_set_length k v d : length d <= length (dict_set k v d) <= S (length d).
Proof.
  induction d as [|[k0 v0] d IH]; simpl; [lia|].
  destruct (String.eqb k0 k); simpl; lia.
Qed.

(** A loop of assignments: the last one to a key decides its value. *)
Lemma dict_get_foldl_store {A} (g : A -> option (string * V)) (l : list A) :
  forall d k,
  dict_get k (foldl (fun acc a => store_entry acc (g a)) d l)
  = match last (omap (fun a => kv ← g a;
                        if decide (kv.1 = k) then Some kv.2 else None) l) with
    | Some v => Some v
    | None => dict_get k d
    end.
Proof.
  induction l as [|a l IH] using rev_ind; intros d k; [done|].
  rewrite foldl_app, omap_app. simpl.
  destruct (g a) as [[k' v]|]; simpl.
  - rewrite dict_get_set. case_decide as Hk; simpl in Hk.
    + subst. rewrite String.eqb_refl. by rewrite last_snoc.
    + destruct (String.eqb_spec k' k); [done|]. rewrite app_nil_r. apply IH.
  - rewrite app_nil_r. apply IH.
Qed.

Lemma foldl_store_NoDup {A} (g : A -> option (string * V)) (l : list A) :
  forall d, NoDup (dict_keys d) ->
  NoDup (dict_keys (foldl (fun acc a => store_entry acc (g a)) d l)).
Proof.
  induction l as [|a l IH]; intros d Hd; simpl; [done|].
  apply IH. destruct (g a) as [[k v]|]; simpl; [|done].
  by apply dict_set_NoDup.
Qed.

Lemma foldl_store_length {A} (g : A -> option (string * V)) (l : list A) :
  forall d,
  length (foldl (fun acc a => store_entry acc (g a)) d l) <= length d + length l.
Proof.
  induction l as [|a l IH]; intros d; simpl; [lia|].
  etransitivity; [apply IH|].
  destruct (g a) as [[k v]|]; simpl; [|lia].
  pose proof (dict_set_length k v d). lia.
Qed.

Lemma foldl_store_elem {A} (g : A -> option (string * V)) (l : list A) :
  forall d kv,
  kv ∈ foldl (fun acc a => store_entry acc (g a)) d l ->
  kv ∈ d \/ exists a, a ∈ l /\ g a = Some kv.
Proof.
  induction l as [|a l IH]; intros d kv Hin; simpl in *; [by left|].
  apply IH in Hin as [Hin|(a' & Ha' & Hg)].
  - destruct (g a) as [[k v]|] eqn:Hg; simpl in Hin.
    + apply dict_set_elem in Hin as [->|Hin]; [|by left].
      right. exists a. split; [apply list_elem_of_here|done].
    + by left.
  - right. exists a'. split; [by apply list_elem_of_further|done].
Qed.
End DictUpdate.

(** ** The keys [strftime] writes *)

Lemma is_digit_digit_char (n : nat) : is_digit (digit_char n) = true.
Proof.
  unfold is_digit, digit_char.
  pose proof (Nat.mod_upper_bound n 10 ltac:(lia)) as Hlt.
  rewrite nat_ascii_embedding by lia.
  apply andb_true_iff. split; apply Nat.leb_le; lia.
Qed.

Lemma strftime_iso_key (d : date) : iso_date_key (strftime_iso d) = true.
Proof.
  unfold iso_date_key, strftime_iso.
  rewrite String.list_ascii_of_string_of_list_ascii.
  by rewrite !is_digit_digit_char.
Qed.

(** From the year 1000 on, and everywhere with a C library that pads,
    [strftime] writes the form YYYY-MM-DD. *)
Lemma strftime_four_digits (pad_year : bool) (d : date) :
  pad_year = true \/ four_digit_year d -> strftime pad_year d = strftime_iso d.
Proof.
  unfold strftime, four_digit_year. intros [->|Hy]; [reflexivity|].
  destruct (Nat.leb_spec 1000 (year d)) as [_|Hlt]; [|lia].
  by rewrite orb_true_r.
Qed.

Lemma strftime_key (pad_year : bool) (d : date) :
  pad_year = true \/ four_digit_year d ->
  iso_date_key (strftime pad_year d) = true.
Proof. intros H. rewrite strftime_four_digits by exact H. apply strftime_iso_key. Qed.

(** ** The loader, run to its end *)

Lemma for_each_stops {L A S} (body : S -> A -> Py L S)
    (lines : A -> list L) (step : S -> A -> S) (before after : list A)
    (a : A) (out : list L) (e : exn) : forall s,
  (forall s x, x ∈ before -> body s x = (lines x, inr (step s x))) ->
  body (foldl step s before) a = (out, inl e) ->
  for_each body (before ++ a :: after) s = ((before ≫= lines) ++ out, inl e).
Proof.
  induction before as [|b before IH]; intros s Hbody Ha.
  - simpl in *. by rewrite Ha.
  - simpl. rewrite Hbody by apply list_elem_of_here. simpl.
    rewrite IH; [by rewrite app_assoc| |done].
    intros s' x Hx. apply Hbody. by apply list_elem_of_further.
Qed.

Section LoaderRun.
Variable scandir : string -> list string.
Variable glob_dirs : string -> list string.
Variable strptime : string -> string -> option date.
Variable pad_year : bool.
Variable getctime : string -> exn + date.
Variable read_raster : string -> option raster.

(** The date of a file cannot be resolved exactly when its name gives
    none and the creation time cannot be had. *)
Lemma resolve_date_raises tiff_file e :
  resolve_date strptime getctime tiff_file = inl e -> getctime tiff_file = inl e.
Proof.
  unfold resolve_date, extract_date, outcome.
  destruct (scan_parts _) as [[date_str fmt]|].
  - by destruct (strptime date_str fmt).
  - by destruct (getctime tiff_file).
Qed.

Lemma resolves_date tiff_file :
  resolves strptime getctime tiff_file = true
  <-> exists d, resolve_date strptime getctime tiff_file = inr d.
Proof.
  unfold resolves. destruct (resolve_date _ _ _) as [e|d]; split.
  - done.
  - by intros [? ?].
  - by eexists.
  - done.
Qed.

Lemma load_file_run images tiff_file :
  resolves strptime getctime tiff_file = true ->
  load_file strptime pad_year getctime read_raster images tiff_file
  = (file_lines strptime pad_year getctime read_raster tiff_file,
     inr (store_entry images
            (file_entry strptime pad_year getctime read_raster tiff_file))).
Proof.
  unfold resolves, load_file, file_lines, file_entry, date_key, resolve_date,
    resolve_lines, outcome, stdout.
  destruct (extract_date _ _ _) as [lines [e|date_obj]]; [done|]. intros _.
  cbn -[strftime]. by destruct (read_raster tiff_file).
Qed.

Lemma load_file_raises images tiff_file e :
  resolve_date strptime getctime tiff_file = inl e ->
  load_file strptime pad_year getctime read_raster images tiff_file
  = (resolve_lines strptime getctime tiff_file, inl e).
Proof.
  unfold load_file, resolve_date, resolve_lines, outcome, stdout.
  destruct (extract_date _ _ _) as [lines [e'|date_obj]]; [|done].
  by intros [= ->].
Qed.

Lemma load_images_run directory :
  Forall (fun f => resolves strptime getctime f = true)
    (found_tiff_files scandir glob_dirs directory) ->
  load_images_from_directory scandir glob_dirs strptime pad_year getctime
    read_raster directory
  = (header_line directory (found_tiff_files scandir glob_dirs directory)
     :: (found_tiff_files scandir glob_dirs directory
         ≫= file_lines strptime pad_year getctime read_raster),
     inr (foldl (fun acc f =>
                   store_entry acc
                     (file_entry strptime pad_year getctime read_raster f))
            []
            (found_tiff_files scandir glob_dirs directory))).
Proof.
  intros Hok. unfold load_images_from_directory.
  destruct (found_tiff_files scandir glob_dirs directory)
    as [|f files] eqn:Hfiles; [done|].
  rewrite (for_each_total _ (file_lines strptime pad_year getctime read_raster)
             (fun acc f => store_entry acc
                (file_entry strptime pad_year getctime read_raster f))).
  - done.
  - intros s a Ha. apply load_file_run. rewrite Forall_forall in Hok.
    by apply Hok.
Qed.

Lemma load_images_raises directory before tiff_file after e :
  found_tiff_files scandir glob_dirs directory = before ++ tiff_file :: after ->
  Forall (fun f => resolves strptime getctime f = true) before ->
  resolve_date strptime getctime tiff_file = inl e ->
  load_images_from_directory scandir glob_dirs strptime pad_year getctime
    read_raster directory
  = (FoundTiffFiles (length (before ++ tiff_file :: after))
     :: (before ≫= file_lines strptime pad_year getctime read_raster)
     ++ resolve_lines strptime getctime tiff_file,
     inl e).
Proof.
  intros Hfiles Hok He. unfold load_images_from_directory. rewrite Hfiles.
  destruct (before ++ tiff_file :: after) as [|f files] eqn:Hl;
    [by destruct before|].
  rewrite <- Hl.
  rewrite (for_each_stops _ (file_lines strptime pad_year getctime read_raster)
             (fun acc f => store_entry acc
                (file_entry strptime pad_year getctime read_raster f))
             before after tiff_file
             (resolve_lines strptime getctime tiff_file) e).
  - done.
  - intros s a Ha. apply load_file_run. rewrite Forall_forall in Hok.
    by apply Hok.
  - by apply load_file_raises.
Qed.

Lemma load_images_cases directory :
  Forall (fun f => resolves strptime getctime f = true)
    (found_tiff_files scandir glob_dirs directory)
  \/ exists before tiff_file after e,
       found_tiff_files scandir glob_dirs directory
       = before ++ tiff_file :: after
       /\ Forall (fun f => resolves strptime getctime f = true) before
       /\ resolve_date strptime getctime tiff_file = inl e.
Proof.
  set (files := found_tiff_files scandir glob_dirs directory).
  destruct (list_find (fun f => resolves strptime getctime f = false) files)
    as [[i f]|] eqn:Hfind.
  - right. apply list_find_Some in Hfind as (Hi & Hf & Hbefore).
    unfold resolves in Hf.
    destruct (resolve_date strptime getctime f) as [e|d] eqn:He; [|done].
    exists (take i files), f, (drop (S i) files), e.
    split; [by rewrite take_drop_middle|]. split; [|done].
    apply Forall_forall. intros x Hx.
    apply list_elem_of_lookup in Hx as [j Hj].
    apply lookup_take_Some in Hj as [Hj Hlt].
    specialize (Hbefore j x Hj Hlt).
    by destruct (resolves strptime getctime x).
  - left. apply list_find_None in Hfind.
    eapply Forall_impl; [exact Hfind|]. simpl. intros x Hx.
    by destruct (resolves strptime getctime x).
Qed.

Lemma load_images_returns directory out images :
  load_images_from_directory scandir glob_dirs strptime pad_year getctime
    read_raster directory = (out, inr images) ->
  Forall (fun f => resolves strptime getctime f = true)
    (found_tiff_files scandir glob_dirs directory).
Proof.
  destruct (load_images_cases directory)
    as [Hok|(before & f & after & e & Hfiles & Hok & He)]; [done|].
  by rewrite (load_images_raises _ _ _ _ _ Hfiles Hok He).
Qed.

Lemma load_images_fault directory out e :
  load_images_from_directory scandir glob_dirs strptime pad_year getctime
    read_raster directory = (out, inl e) ->
  exists tiff_file,
    tiff_file ∈ found_tiff_files scandir glob_dirs directory
    /\ getctime tiff_file = inl e.
Proof.
  destruct (load_images_cases directory)
    as [Hok|(before & f & after & e' & Hfiles & Hok & He)].
  - by rewrite load_images_run.
  - rewrite (load_images_raises _ _ _ _ _ Hfiles Hok He). intros [= _ <-].
    exists f. split; [|by apply (resolve_date_raises f)].
    rewrite Hfiles. apply elem_of_app. right. apply list_elem_of_here.
Qed.

Lemma file_entry_key tiff_file k e :
  file_entry strptime pad_year getctime read_raster tiff_file = Some (k, e) ->
  exists image_data date_obj,
    read_raster tiff_file = Some image_data
    /\ resolve_date strptime getctime tiff_file = inr date_obj
    /\ k = strftime pad_year date_obj
    /\ e = entry_of tiff_file image_data.
Proof.
  unfold file_entry, date_key.
  destruct (resolve_date _ _ _) as [?|d]; [done|].
  destruct (read_raster tiff_file) as [r|]; simpl; [|done].
  intros [= <- <-]. by exists r, d.
Qed.

(** What the loader returns holds distinct keys, and each entry holds
    the pixels read from a discovered file. *)
Lemma loaded_images directory out images :
  load_images_from_directory scandir glob_dirs strptime pad_year getctime
    read_raster directory = (out, inr images) ->
  NoDup (dict_keys images)
  /\ Forall (fun kv =>
               exists tiff_file,
                 tiff_file ∈ found_tiff_files scandir glob_dirs directory
                 /\ read_raster tiff_file = Some (entry_data kv.2)) images.
Proof.
  intros Hrun. pose proof (load_images_returns _ _ _ Hrun) as Hok.
  revert Hrun. rewrite load_images_run by done. intros [= _ <-]. split.
  - apply foldl_store_NoDup. apply NoDup_nil_2.
  - apply Forall_forall. intros [k e] Hin.
    apply foldl_store_elem in Hin as [Hin|(f & Hf & Hentry)];
      [by apply elem_of_nil in Hin|].
    apply file_entry_key in Hentry as (r & d & Hr & Hd & -> & ->). simpl.
    exists f. split; [done|].
    unfold entry_of. by destruct (raster_shape r) as [|? [|? [|? [|? ?]]]].
Qed.

Lemma entry_of_data path r :
  entry_data (entry_of path r) = r
  /\ file_path (entry_metadata (entry_of path r)) = path.
Proof.
  unfold entry_of. by destruct (raster_shape r) as [|? [|? [|? [|? ?]]]].
Qed.
End LoaderRun.
(** ** What the loader returns *)

(** X1: for discovered files with ASCII stems, the loader raises only at
    a file whose date cannot be resolved: no segment of its stem parses
    and the creation-time call raises.  It then ends with the exception of that call, at the first
    such file in discovery order, after the lines of the files before
    it.  When every discovered file resolves, the loader returns, and
    what it stores under a date is the entry of the last discovered
    file, in discovery order, that resolves to this date and decodes: a
    later file of the same date silently replaces an earlier one, and a
    date none of whose files decodes has no entry. *)
Theorem loader_last_file_of_a_date_wins
    (scandir glob_dirs : string -> list string)
    (strptime : string -> string -> option date) (pad_year : bool)
    (getctime : string -> exn + date) (read_raster : string -> option raster)
    (directory : string) :
  ascii_stems (found_tiff_files scandir glob_dirs directory) ->
  let files := found_tiff_files scandir glob_dirs directory in
  let run :=
    load_images_from_directory scandir glob_dirs strptime pad_year getctime
      read_raster directory in
  match list_find (fun f => resolves strptime getctime f = false) files with
  | Some (i, tiff_file) =>
      exists e,
        getctime tiff_file = inl e
        /\ run
           = (FoundTiffFiles (length files)
              :: (take i files
                  ≫= file_lines strptime pad_year getctime read_raster)
              ++ [ErrorExtractingDate (path_stem tiff_file)],
              inl e)
  | None =>
      exists images,
        run
        = (header_line directory files
           :: (files ≫= file_lines strptime pad_year getctime read_raster),
           inr images)
        /\ forall k,
             dict_get k images
             = last (omap (entry_for strptime pad_year getctime read_raster k)
                       files)
  end.
Proof.
  intros _ files run. subst run.
  destruct (list_find _ files) as [[i f]|] eqn:Hfind.
  - apply list_find_Some in Hfind as (Hi & Hf & Hbefore).
    unfold resolves in Hf.
    destruct (resolve_date strptime getctime f) as [e|d] eqn:He; [|done].
    exists e. split; [by apply (resolve_date_raises strptime)|].
    assert (resolve_lines strptime getctime f
            = [ErrorExtractingDate (path_stem f)]) as Hlines.
    { revert He. unfold resolve_date, resolve_lines, extract_date, outcome, stdout.
      destruct (scan_parts _) as [[date_str fmt]|].
      - by destruct (strptime date_str fmt).
      - by destruct (getctime f). }
    rewrite <- Hlines.
    rewrite (load_images_raises scandir glob_dirs strptime pad_year getctime
               read_raster directory (take i files) f (drop (S i) files) e).
    + fold files. by rewrite (take_drop_middle files i f Hi).
    + fold files. by rewrite (take_drop_middle files i f Hi).
    + apply Forall_forall. intros x Hx.
      apply list_elem_of_lookup in Hx as [j Hj].
      apply lookup_take_Some in Hj as [Hj Hlt].
      specialize (Hbefore j x Hj Hlt).
      by destruct (resolves strptime getctime x).
    + done.
  - apply list_find_None in Hfind.
    assert (Forall (fun f => resolves strptime getctime f = true) files) as Hok.
    { eapply Forall_impl; [exact Hfind|]. simpl. intros x Hx.
      by destruct (resolves strptime getctime x). }
    eexists. split; [by apply load_images_run|].
    intros k. rewrite dict_get_foldl_store. simpl. fold files.
    rewrite (list_omap_ext _
               (entry_for strptime pad_year getctime read_raster k) _ files).
    + by destruct (last _).
    + apply Forall_Forall2_diag, Forall_forall. intros f _.
      unfold file_entry, entry_for.
      destruct (date_key strptime pad_year getctime f) as [k'|]; simpl.
      * destruct (read_raster f); simpl; repeat case_decide; congruence.
      * first [done|by case_decide].
Qed.

Lemma loader_last_file_of_a_date_wins_witness :
  exists images,
    outcome (sample_load ["a_20230115.tif"; "b_2023-01-15.tiff"] "data")
    = inr images
    /\ dict_get "2023-01-15" images
       = Some (entry_of "data/b_2023-01-15.tiff"
                 (IntRaster (NdArray [1; 1; 1] [0%Z]))).
Proof.
  pose proof (loader_last_file_of_a_date_wins
                (sample_scandir ["a_20230115.tif"; "b_2023-01-15.tiff"])
                sample_glob_dirs strptime_cpython false sample_getctime
                sample_read_raster "data"
                ltac:(apply (bool_decide_unpack _); vm_compute; exact I))
    as H.
  cbv zeta in H.
  destruct (list_find _ _) as [[i f]|] eqn:Hfind;
    [vm_compute in Hfind; discriminate|].
  destruct H as (images & Hrun & Hget). exists images.
  unfold sample_load. rewrite Hrun. split; [reflexivity|].
  rewrite Hget. vm_compute. reflexivity.
Defined.

(** X2: when every discovered file has an ASCII stem and resolves to a
    date, the loader returns, and every entry it returns comes from a discovered file
    that decoded: its key is the file's resolved date as [strftime]
    writes it, in the form YYYY-MM-DD for a year from 1000 on (and for
    every year where the C library pads), its pixels are what was read
    and its metadata names the file; the keys are pairwise distinct, and
    there are at most as many entries as discovered files. *)
Theorem loader_entries_come_from_files
    (scandir glob_dirs : string -> list string)
    (strptime : string -> string -> option date) (pad_year : bool)
    (getctime : string -> exn + date) (read_raster : string -> option raster)
    (directory : string) :
  ascii_stems (found_tiff_files scandir glob_dirs directory) ->
  Forall (fun f => resolves strptime getctime f = true)
    (found_tiff_files scandir glob_dirs directory) ->
  exists out images,
    load_images_from_directory scandir glob_dirs strptime pad_year getctime
      read_raster directory
    = (out, inr images)
    /\ NoDup (dict_keys images)
    /\ length images <= length (found_tiff_files scandir glob_dirs directory)
    /\ forall k e, (k, e) ∈ images ->
         exists tiff_file image_data date_obj,
           tiff_file ∈ found_tiff_files scandir glob_dirs directory
           /\ read_raster tiff_file = Some image_data
           /\ resolve_date strptime getctime tiff_file = inr date_obj
           /\ k = strftime pad_year date_obj
           /\ (pad_year = true \/ four_digit_year date_obj ->
               iso_date_key k = true)
           /\ entry_data e = image_data
           /\ file_path (entry_metadata e) = tiff_file.
Proof.
  intros _ Hok. eexists _, _. split; [by apply load_images_run|]. split_and!.
  - apply foldl_store_NoDup. apply NoDup_nil_2.
  - etransitivity; [apply foldl_store_length|]. simpl. lia.
  - intros k e Hin.
    apply foldl_store_elem in Hin as [Hin|(f & Hf & Hentry)];
      [by apply elem_of_nil in Hin|].
    apply file_entry_key in Hentry as (r & d & Hr & Hd & -> & ->).
    exists f, r, d. pose proof (entry_of_data f r) as [? ?].
    split_and!; try done. apply strftime_key.
Qed.

Lemma compare_images_short image_dict :
  length image_dict < 2 ->
  compare_images image_dict = ([NeedTwoImages], inr None).
Proof.
  intros Hlen. unfold compare_images.
  by destruct (Nat.ltb_spec (length image_dict) 2); [|lia].
Qed.

Lemma loaded_entries (P : raster -> Prop) scandir glob_dirs strptime pad_year
    getctime read_raster directory out images :
  (forall tiff_file image_data,
     tiff_file ∈ found_tiff_files scandir glob_dirs directory ->
     read_raster tiff_file = Some image_data -> P image_data) ->
  Forall (resolves_to_iso strptime pad_year getctime)
    (found_tiff_files scandir glob_dirs directory) ->
  load_images_from_directory scandir glob_dirs strptime pad_year getctime
    read_raster directory = (out, inr images) ->
  NoDup (dict_keys images)
  /\ Forall (fun kv => iso_date_key kv.1 = true /\ P (entry_data kv.2)) images.
Proof.
  intros HP Hiso.
  assert (Forall (fun f => resolves strptime getctime f = true)
            (found_tiff_files scandir glob_dirs directory)) as Hok.
  { eapply Forall_impl; [exact Hiso|]. simpl. intros f (d & Hd & _).
    apply resolves_date. by exists d. }
  rewrite load_images_run by done. intros [= _ <-]. split.
  - apply foldl_store_NoDup. apply NoDup_nil_2.
  - apply Forall_forall. intros [k e] Hin.
    apply foldl_store_elem in Hin as [Hin|(f & Hf & Hentry)];
      [by apply elem_of_nil in Hin|].
    apply file_entry_key in Hentry as (r & d & Hr & Hd & -> & ->). simpl.
    rewrite Forall_forall in Hiso.
    destruct (Hiso f Hf) as (d' & Hd' & Hyear).
    assert (d' = d) as -> by congruence.
    split; [by apply strftime_key|].
    destruct (entry_of_data f r) as [-> _]. by eapply HP.
Qed.

(** X3: when every discovered file has an ASCII stem and resolves to a
    date that [strftime]
    writes as YYYY-MM-DD (a year from 1000 on, or a C library that
    pads), and every file that decodes holds at least one pixel, the
    loader returns a raster collection (distinct ISO date keys,
    non-empty rasters), so the detector accepts it: run on the loader's
    output it raises nothing, and it returns a result mapping exactly
    when at least two dates were loaded. *)
Theorem loader_output_is_a_raster_collection
    (scandir glob_dirs : string -> list string)
    (strptime : string -> string -> option date) (pad_year : bool)
    (getctime : string -> exn + date) (read_raster : string -> option raster)
    (directory : string) :
  ascii_stems (found_tiff_files scandir glob_dirs directory) ->
  Forall (resolves_to_iso strptime pad_year getctime)
    (found_tiff_files scandir glob_dirs directory) ->
  (forall tiff_file image_data,
     tiff_file ∈ found_tiff_files scandir glob_dirs directory ->
     read_raster tiff_file = Some image_data ->
     raster_size image_data <> 0) ->
  exists out images,
    load_images_from_directory scandir glob_dirs strptime pad_year getctime
      read_raster directory
    = (out, inr images)
    /\ raster_collection images
    /\ exists lines results,
         compare_images images = (lines, inr results)
         /\ (is_Some results <-> 2 <= length images).
Proof.
  intros _ Hiso Hsize.
  assert (Forall (fun f => resolves strptime getctime f = true)
            (found_tiff_files scandir glob_dirs directory)) as Hok.
  { eapply Forall_impl; [exact Hiso|]. simpl. intros f (d & Hd & _).
    apply resolves_date. by exists d. }
  eexists _, _. split; [by apply load_images_run|].
  set (images := foldl _ _ _).
  assert (raster_collection images) as Hcoll.
  { destruct (loaded_entries (fun r => raster_size r <> 0) scandir glob_dirs
                strptime pad_year getctime read_raster directory _ images
                Hsize Hiso (load_images_run _ _ _ _ _ _ _ Hok)) as [Hnd Hall].
    by split. }
  split; [done|].
  destruct (Nat.lt_ge_cases (length images) 2) as [Hlt|Hge].
  - eexists _, _. split; [by apply compare_images_short|].
    split; [by intros [? [=]]|lia].
  - eexists _, _. split; [by apply compare_images_closed_form|].
    split; [done|by eexists].
Qed.

Lemma sample_files_resolve (listing : list string) (directory : string) :
  Forall (resolves_to_iso strptime_cpython false sample_getctime)
    (found_tiff_files (sample_scandir listing) sample_glob_dirs directory)
  <-> Forall (fun f =>
                match resolve_date strptime_cpython sample_getctime f with
                | inr d => (1000 <=? year d)%nat
                | inl _ => false
                end = true)
        (found_tiff_files (sample_scandir listing) sample_glob_dirs directory).
Proof.
  apply Forall_iff. intros f. unfold resolves_to_iso.
  destruct (resolve_date _ _ f) as [e|d]; split.
  - by intros (? & ? & ?).
  - done.
  - intros (? & [= <-] & [?|?]); [done|]. apply Nat.leb_le. lia.
  - intros H%Nat.leb_le. exists d. split; [done|]. right. lia.
Qed.

Lemma loader_output_is_a_raster_collection_witness :
  exists out images,
    sample_load ["a_20230115.tif"; "b_2023-02-10.tiff"] "data"
    = (out, inr images)
    /\ raster_collection images.
Proof.
  destruct (loader_output_is_a_raster_collection
              (sample_scandir ["a_20230115.tif"; "b_2023-02-10.tiff"])
              sample_glob_dirs strptime_cpython false
              sample_getctime sample_read_raster "data")
    as (out & images & Hrun & Hcoll & _).
  - apply (bool_decide_unpack _). vm_compute. exact I.
  - apply sample_files_resolve. apply (bool_decide_unpack _).
    vm_compute. exact I.
  - intros f r _ [= <-]. simpl. lia.
  - exists out, images. split; assumption.
Defined.

Lemma loader_entries_come_from_files_witness :
  exists out images,
    sample_load ["a_20230115.tif"; "b_2023-01-15.tiff"] "data"
    = (out, inr images)
    /\ NoDup (dict_keys images)
    /\ length images <= 2.
Proof.
  destruct (loader_entries_come_from_files
              (sample_scandir ["a_20230115.tif"; "b_2023-01-15.tiff"])
              sample_glob_dirs strptime_cpython false
              sample_getctime sample_read_raster "data")
    as (out & images & Hrun & Hnd & Hlen & _).
  - apply (bool_decide_unpack _). vm_compute. exact I.
  - apply (bool_decide_unpack _). vm_compute. exact I.
  - exists out, images. split_and!; [exact Hrun|exact Hnd|exact Hlen].
Defined.

(** ** Dates in file names: reading and writing agree *)

Lemma digit_value_Some (c : ascii) :
  is_digit c = true ->
  exists n, digit_value c = Some n /\ n < 10 /\ ascii_of_nat (48 + n) = c.
Proof.
  intros Hc. unfold digit_value. rewrite Hc.
  apply andb_true_iff in Hc as [H1%Nat.leb_le H2%Nat.leb_le].
  exists (nat_of_ascii c - 48). split_and!; [done|lia|].
  replace (48 + (nat_of_ascii c - 48)) with (nat_of_ascii c) by lia.
  apply ascii_nat_embedding.
Qed.

Lemma strftime_iso_Date (y m d : nat) :
  strftime_iso (Date y m d)
  = String.string_of_list_ascii
      [digit_char (y / 1000); digit_char (y / 100); digit_char (y / 10);
       digit_char y; "-"%char; digit_char (m / 10); digit_char m; "-"%char;
       digit_char (d / 10); digit_char d].
Proof. reflexivity. Qed.

Lemma strftime_iso_digits (a b c d e f g h : nat) :
  a < 10 -> b < 10 -> c < 10 -> d < 10 -> e < 10 -> f < 10 -> g < 10 ->
  h < 10 ->
  strftime_iso (Date (100 * (10 * a + b) + (10 * c + d)) (10 * e + f)
                  (10 * g + h))
  = String.string_of_list_ascii
      [ascii_of_nat (48 + a); ascii_of_nat (48 + b); ascii_of_nat (48 + c);
       ascii_of_nat (48 + d); "-"%char; ascii_of_nat (48 + e);
       ascii_of_nat (48 + f); "-"%char; ascii_of_nat (48 + g);
       ascii_of_nat (48 + h)].
Proof.
  intros. rewrite strftime_iso_Date. unfold digit_char.
  set (y := 100 * (10 * a + b) + (10 * c + d)).
  assert ((y / 1000) mod 10 = a) as -> by lia.
  assert ((y / 100) mod 10 = b) as -> by lia.
  assert ((y / 10) mod 10 = c) as -> by lia.
  assert (y mod 10 = d) as -> by lia.
  assert (((10 * e + f) / 10) mod 10 = e) as -> by lia.
  assert ((10 * e + f) mod 10 = f) as -> by lia.
  assert (((10 * g + h) / 10) mod 10 = g) as -> by lia.
  assert ((10 * g + h) mod 10 = h) as -> by lia.
  reflexivity.
Qed.

Lemma strptime_dashed_round_trip (s : string) (d : date) :
  iso_date_key s = true ->
  strptime_cpython s "%Y-%m-%d" = Some d ->
  strftime_iso d = s.
Proof.
  unfold iso_date_key, strptime_cpython.
  change (String.eqb "%Y-%m-%d" "%Y%m%d") with false.
  change (String.eqb "%Y-%m-%d" "%Y-%m-%d") with true. cbv iota.
  intros Hk Hp. rewrite <- (String.string_of_list_ascii_of_string s).
  revert Hk Hp. generalize (String.list_ascii_of_string s). intros l.
  destruct l as [|y1 [|y2 [|y3 [|y4 [|s1 [|m1 [|m2 [|s2 [|d1 [|d2 [|? ?]]]]]]]]]]];
    try done.
  intros Hk Hp.
  do 9 (apply andb_true_iff in Hk as [Hk ?]).
  repeat match goal with
  | H : (_ =? _)%char = true |- _ => apply Ascii.eqb_eq in H; subst
  | H : is_digit _ = true |- _ =>
      let n := fresh "n" in
      apply digit_value_Some in H as (n & ? & ? & ?)
  end.
  unfold number4, month2, day2, number2 in Hp.
  repeat match goal with
  | H : digit_value _ = Some _ |- _ => rewrite H in Hp; clear H
  end.
  destruct (Ascii.eqb_spec d1 " ") as [Hsp|_].
  { subst d1. apply (f_equal nat_of_ascii) in Hsp.
    rewrite nat_ascii_embedding in Hsp by lia.
    change (nat_of_ascii " ") with 32 in Hsp. lia. }
  cbn -[Nat.mul Nat.add Nat.leb make_date] in Hp.
  unfold make_date in Hp.
  repeat match type of Hp with
  | context [if ?c then _ else _] =>
      destruct c; cbn -[Nat.mul Nat.add Nat.leb] in Hp
  end; try done.
  injection Hp as <-. subst. by apply strftime_iso_digits.
Qed.

Lemma strptime_compact_round_trip (s : string) (d : date) :
  strptime_cpython s "%Y%m%d" = Some d ->
  strftime_iso d = dashed s.
Proof.
  unfold strptime_cpython.
  change (String.eqb "%Y%m%d" "%Y%m%d") with true. cbv iota.
  intros Hp. rewrite <- (String.string_of_list_ascii_of_string s).
  revert Hp. generalize (String.list_ascii_of_string s). intros l.
  destruct l as [|y1 [|y2 [|y3 [|y4 [|m1 [|m2 [|d1 [|d2 [|? ?]]]]]]]]];
    try done.
  intros Hp. unfold number4, month2, number2, make_date in Hp.
  repeat match type of Hp with
  | context [digit_value ?c] =>
      let n := fresh "n" in
      let Hc := fresh "Hc" in
      destruct (is_digit c) eqn:Hc;
      [apply digit_value_Some in Hc as (n & Hc & ? & ?); rewrite Hc in Hp;
       clear Hc;
       cbn -[Nat.mul Nat.add Nat.leb digit_value] in Hp
      |unfold digit_value in Hp; rewrite Hc in Hp; by cbn in Hp]
  | context [if ?c then _ else _] =>
      destruct c; cbn -[Nat.mul Nat.add Nat.leb digit_value] in Hp;
      [|discriminate Hp]
  end.
  injection Hp as <-. subst. by apply strftime_iso_digits.
Qed.

Lemma four_digit_year_spec (d : date) :
  (1000 <=? Z.of_nat (year d))%Z = true -> four_digit_year d.
Proof. apply Z.leb_le. Qed.

(** X4: the date in a file name comes back as the key.  For a file
    whose stem is ASCII, when the first date-like segment of the stem is
    a calendar date that [strptime] accepts, with a year from 1000 on
    (or any year where the C library pads), the file is stored under
    that very string if it is written YYYY-MM-DD, and under the same
    digits with dashes if it is written YYYYMMDD; the creation time
    plays no part, even if it cannot be had. *)
Theorem date_in_file_name_is_the_key
    (pad_year : bool) (getctime : string -> exn + date)
    (tiff_file part : string) (d : date) :
  is_ascii (path_stem tiff_file) = true ->
  List.find (fun p => is_yyyymmdd p || is_dashed p)
    (split_on "_" (path_stem tiff_file)) = Some part ->
  pad_year = true \/ four_digit_year d ->
  (iso_date_key part = true ->
   strptime_cpython part "%Y-%m-%d" = Some d ->
   date_key strptime_cpython pad_year getctime tiff_file = Some part)
  /\ (is_yyyymmdd part = true ->
      strptime_cpython part "%Y%m%d" = Some d ->
      date_key strptime_cpython pad_year getctime tiff_file
      = Some (dashed part)).
Proof.
  intros _ Hfind Hyear. unfold date_key, resolve_date, extract_date, outcome.
  rewrite scan_parts_find, Hfind. split.
  - intros Hiso Hd.
    assert (is_yyyymmdd part = false) as ->.
    { unfold is_yyyymmdd. by rewrite (iso_date_key_length _ Hiso). }
    rewrite Hd. cbn [snd mret py_ret].
    rewrite strftime_four_digits by exact Hyear.
    f_equal. by apply strptime_dashed_round_trip.
  - intros -> Hd. rewrite Hd. cbn [snd mret py_ret].
    rewrite strftime_four_digits by exact Hyear.
    f_equal. by apply strptime_compact_round_trip.
Qed.

Lemma date_in_file_name_is_the_key_witness :
  date_key strptime_cpython false (fun path => inl (OSError path))
    "data/scene_2023-01-15_B04.tif"
  = Some "2023-01-15"
  /\ date_key strptime_cpython false (fun path => inl (OSError path))
       "data/S2_20230210.tiff"
     = Some "2023-02-10".
Proof.
  split.
  - apply (proj1 (date_in_file_name_is_the_key false
                    (fun path => inl (OSError path))
                    "data/scene_2023-01-15_B04.tif" "2023-01-15"
                    (Date 2023 1 15) eq_refl eq_refl
                    (or_intror (four_digit_year_spec (Date 2023 1 15) eq_refl))));
      reflexivity.
  - apply (proj2 (date_in_file_name_is_the_key false
                    (fun path => inl (OSError path))
                    "data/S2_20230210.tiff" "20230210"
                    (Date 2023 2 10) eq_refl eq_refl
                    (or_intror (four_digit_year_spec (Date 2023 2 10) eq_refl))));
      reflexivity.
Defined.

(** ** Sorting date keys sorts the dates *)

Lemma compare_digit_char (a b : nat) :
  Ascii.compare (digit_char a) (digit_char b) = (a mod 10 ?= b mod 10).
Proof.
  unfold Ascii.compare, digit_char, ascii_of_nat.
  pose proof (Nat.mod_upper_bound a 10 ltac:(lia)).
  pose proof (Nat.mod_upper_bound b 10 ltac:(lia)).
  rewrite !N_ascii_embedding by lia.
  rewrite <- Nnat.Nat2N.inj_compare.
  destruct (Nat.compare_spec (48 + a mod 10) (48 + b mod 10)),
    (Nat.compare_spec (a mod 10) (b mod 10)); try done; lia.
Qed.

Lemma compare_strftime_iso (y m d y' m' d' : nat) :
  String.compare (strftime_iso (Date y m d)) (strftime_iso (Date y' m' d'))
  = lex ((y / 1000) mod 10 ?= (y' / 1000) mod 10)
      (lex ((y / 100) mod 10 ?= (y' / 100) mod 10)
         (lex ((y / 10) mod 10 ?= (y' / 10) mod 10)
            (lex (y mod 10 ?= y' mod 10)
               (lex ((m / 10) mod 10 ?= (m' / 10) mod 10)
                  (lex (m mod 10 ?= m' mod 10)
                     (lex ((d / 10) mod 10 ?= (d' / 10) mod 10)
                        (d mod 10 ?= d' mod 10))))))).
Proof.
  rewrite !strftime_iso_Date.
  cbn [String.string_of_list_ascii String.compare].
  rewrite !compare_digit_char.
  change (Ascii.compare "-" "-") with Eq. cbv iota.
  unfold lex.
  repeat match goal with
  | |- context [?a ?= ?b] => destruct (a ?= b); try reflexivity
  end.
Qed.

Lemma lex_digit (a b c d : nat) :
  c < 10 -> d < 10 -> lex (a ?= b) (c ?= d) = (10 * a + c ?= 10 * b + d).
Proof.
  intros Hc Hd. unfold lex.
  destruct (Nat.compare_spec a b), (Nat.compare_spec c d),
    (Nat.compare_spec (10 * a + c) (10 * b + d)); try done; lia.
Qed.

Lemma lex_assoc (a b c : comparison) : lex a (lex b c) = lex (lex a b) c.
Proof. by destruct a, b. Qed.

Lemma compare_dates (d1 d2 : date) :
  datetime_range d1 -> datetime_range d2 ->
  String.compare (strftime_iso d1) (strftime_iso d2)
  = lex (year d1 ?= year d2) (lex (month d1 ?= month d2) (day d1 ?= day d2)).
Proof.
  destruct d1 as [y m d], d2 as [y' m' d'].
  unfold datetime_range. cbn [year month day].
  intros (Hy & Hm & Hd) (Hy' & Hm' & Hd').
  rewrite compare_strftime_iso.
  assert (forall n, n mod 10 < 10) as Hmod
    by (intros; apply Nat.mod_upper_bound; lia).
  assert (forall n n', (Z.of_nat n <= 9999)%Z -> (Z.of_nat n' <= 9999)%Z ->
            lex ((n / 1000) mod 10 ?= (n' / 1000) mod 10)
              (lex ((n / 100) mod 10 ?= (n' / 100) mod 10)
                 (lex ((n / 10) mod 10 ?= (n' / 10) mod 10)
                    (n mod 10 ?= n' mod 10)))
            = (n ?= n')) as Hfour.
  { intros n n' Hn Hn'. rewrite !lex_assoc, !lex_digit by apply Hmod.
    f_equal; lia. }
  assert (forall n n', n <= 99 -> n' <= 99 ->
            lex ((n / 10) mod 10 ?= (n' / 10) mod 10) (n mod 10 ?= n' mod 10)
            = (n ?= n')) as Htwo.
  { intros n n' Hn Hn'. rewrite lex_digit by apply Hmod. f_equal; lia. }
  rewrite <- (Hfour y y'), <- (Htwo m m'), <- (Htwo d d') by lia.
  by rewrite !lex_assoc.
Qed.

Lemma string_compare_refl (s : string) : String.compare s s = Eq.
Proof.
  induction s as [|c s IH]; [done|]. cbn [String.compare].
  unfold Ascii.compare. by rewrite N.compare_refl.
Qed.

(** X5: sorting the keys sorts the dates.  For dates in the range of a
    Python datetime that [strftime] writes with a four-digit year (from
    the year 1000 on, or any year where the C library pads), the keys
    compare as strings the way the dates compare on the calendar, and
    two keys are equal only for the same day: the detector's
    [sorted(image_dict.keys())] is then the chronological order, and two
    files share an entry exactly when they resolve to the same day. *)
Theorem iso_keys_sort_chronologically (pad_year : bool) (d1 d2 : date) :
  datetime_range d1 -> datetime_range d2 ->
  pad_year = true \/ (four_digit_year d1 /\ four_digit_year d2) ->
  (str_le (strftime pad_year d1) (strftime pad_year d2) <-> date_le d1 d2)
  /\ (strftime pad_year d1 = strftime pad_year d2 <-> d1 = d2).
Proof.
  intros H1 H2 Hpad.
  rewrite !strftime_four_digits by tauto.
  pose proof (compare_dates d1 d2 H1 H2) as Hcmp.
  destruct d1 as [y m d], d2 as [y' m' d']. cbn [year month day] in Hcmp.
  split.
  - unfold str_le, String.leb, date_le. rewrite Hcmp. cbn [year month day].
    unfold lex.
    destruct (Nat.compare_spec y y'), (Nat.compare_spec m m'),
      (Nat.compare_spec d d'); split; try done; try lia; intros _; lia.
  - split; [|by intros ->]. intros Heq.
    rewrite Heq in Hcmp.
    assert (String.compare (strftime_iso (Date y' m' d'))
              (strftime_iso (Date y' m' d')) = Eq) as Hrefl
      by apply string_compare_refl.
    rewrite Hrefl in Hcmp. unfold lex in Hcmp.
    destruct (Nat.compare_spec y y'), (Nat.compare_spec m m'),
      (Nat.compare_spec d d'); try done; by subst.
Qed.

Lemma iso_keys_sort_chronologically_witness :
  str_le (strftime false (Date 2023 2 10)) (strftime false (Date 2023 11 5))
  <-> date_le (Date 2023 2 10) (Date 2023 11 5).
Proof.
  apply (proj1 (iso_keys_sort_chronologically false (Date 2023 2 10)
                  (Date 2023 11 5)
                  ltac:(unfold datetime_range; cbn [year month day]; lia)
                  ltac:(unfold datetime_range; cbn [year month day]; lia)
                  (or_intror
                     (conj (four_digit_year_spec (Date 2023 2 10) eq_refl)
                        (four_digit_year_spec (Date 2023 11 5) eq_refl))))).
Defined.

(** Below the year 1000, without padding, the keys leave the calendar
    order: the year 999 is written [999] and sorts after 2023. *)
Lemma unpadded_year_sorts_late :
  strftime false (Date 999 1 1) = "999-01-01"
  /\ strftime true (Date 999 1 1) = "0999-01-01"
  /\ date_le (Date 999 1 1) (Date 2023 1 1)
  /\ ~ str_le (strftime false (Date 999 1 1)) (strftime false (Date 2023 1 1)).
Proof.
  split; [vm_compute; reflexivity|]. split; [vm_compute; reflexivity|].
  split; [left; cbn [year]; apply Nat.ltb_lt; reflexivity|].
  unfold str_le. vm_compute. discriminate.
Qed.

(** * The detector *)

(** ** When the detector raises *)

Lemma for_each_raises {L A S} (body : S -> A -> Py L S) (bad : A -> bool)
    (e : exn) (l : list A) : forall s,
  (forall s a, a ∈ l ->
     if bad a then body s a = ([], inl e)
     else exists out s', body s a = (out, inr s')) ->
  Exists (fun a => bad a = true) l ->
  exists out, for_each body l s = (out, inl e).
Proof.
  induction l as [|a l IH]; intros s Hbody Hex; [by inversion Hex|].
  simpl. pose proof (Hbody s a (list_elem_of_here _ _)) as Ha.
  destruct (bad a) eqn:Hbad.
  - rewrite Ha. by eexists.
  - destruct Ha as (out & s' & ->).
    destruct (IH s') as [out' Hrest].
    + intros s0 a0 Hin. apply Hbody. by apply list_elem_of_further.
    + inversion Hex; subst; [congruence|done].
    + unfold mbind, py_bind. rewrite Hrest. by eexists.
Qed.

Lemma change_result_None d1 d2 image1 image2 :
  change_result d1 d2 image1 image2 = None
  <-> raster_size image1 = 0 \/ raster_size image2 = 0.
Proof.
  unfold change_result. simpl.
  rewrite <- !astype_float_length.
  destruct (data (astype_float image2)) as [|x2 l2],
    (data (astype_float image1)) as [|x1 l1]; simpl;
    split; auto; try done.
  by intros [|].
Qed.

Lemma compare_pair_cases image_dict results p :
  is_Some (dict_get p.1 image_dict) -> is_Some (dict_get p.2 image_dict) ->
  if zero_size_pair image_dict p
  then compare_pair image_dict results p
       = ([], inl (ValueError zero_size_message))
  else compare_pair image_dict results p
       = (pair_lines image_dict p,
          inr (store_entry results (pair_entry image_dict p))).
Proof.
  intros [e1 H1] [e2 H2]. unfold zero_size_pair. rewrite H1, H2.
  destruct (decide (raster_shape (entry_data e1) = raster_shape (entry_data e2)))
    as [Heq|Hne].
  - rewrite bool_decide_eq_true_2 by done. simpl.
    destruct (Nat.eqb_spec (raster_size (entry_data e1)) 0) as [Hz1|Hz1];
      [|destruct (Nat.eqb_spec (raster_size (entry_data e2)) 0) as [Hz2|Hz2]];
      simpl; [| |by apply compare_pair_run with e1 e2].
    all: unfold compare_pair, subscript; rewrite H1, H2; simpl;
      rewrite decide_False by (by intros ?);
      rewrite (proj2 (change_result_None _ _ _ _)) by auto; done.
  - rewrite bool_decide_eq_false_2 by done. simpl.
    unfold compare_pair, pair_lines, pair_entry, subscript.
    rewrite H1, H2. simpl. by rewrite !decide_True by done.
Qed.

Lemma sorted_pairs_lookup (image_dict : dict image_entry) p :
  p ∈ adjacent_pairs (sorted (dict_keys image_dict)) ->
  is_Some (dict_get p.1 image_dict) /\ is_Some (dict_get p.2 image_dict).
Proof.
  destruct p as [a b]. intros [Ha Hb]%sorted_pairs_keys.
  split; by apply dict_get_is_Some.
Qed.

(** X6: the detector fails in one way only.  It never raises [KeyError];
    it raises the [ValueError] of [np.max] exactly when the collection
    has at least two entries and some pair of adjacent dates has rasters
    of one shape that hold no pixel; in every other case it returns, and
    it returns a result mapping exactly when there are at least two
    entries. *)
Theorem detector_raises_exactly_on_zero_size_pairs
    (image_dict : dict image_entry) :
  let pairs := adjacent_pairs (sorted (dict_keys image_dict)) in
  match outcome (compare_images image_dict) with
  | inl e =>
      e = ValueError zero_size_message
      /\ 2 <= length image_dict
      /\ Exists (fun p => zero_size_pair image_dict p = true) pairs
  | inr results =>
      (is_Some results <-> 2 <= length image_dict)
      /\ (2 <= length image_dict ->
          Forall (fun p => zero_size_pair image_dict p = false) pairs)
  end.
Proof.
  intros pairs.
  destruct (Nat.lt_ge_cases (length image_dict) 2) as [Hlt|Hge].
  { rewrite compare_images_short by done. simpl.
    split; [|lia]. split; [by intros [? [=]]|lia]. }
  unfold compare_images.
  destruct (Nat.ltb_spec (length image_dict) 2) as [?|_]; [lia|].
  fold pairs.
  destruct (decide (Exists (fun p => zero_size_pair image_dict p = true) pairs))
    as [Hex|Hall].
  - destruct (for_each_raises (compare_pair image_dict)
                (zero_size_pair image_dict) (ValueError zero_size_message)
                pairs []) as [out Hrun]; [|done|].
    + intros s p [H1 H2]%sorted_pairs_lookup.
      pose proof (compare_pair_cases image_dict s p H1 H2) as Hcase.
      destruct (zero_size_pair image_dict p); [done|by eexists _, _].
    + unfold mbind, py_bind. rewrite Hrun. simpl. done.
  - apply not_Exists_Forall in Hall; [|intros p; apply _].
    assert (Forall (fun p => zero_size_pair image_dict p = false) pairs)
      as Hgood.
    { eapply Forall_impl; [exact Hall|]. simpl. intros p Hp.
      by destruct (zero_size_pair image_dict p). }
    rewrite (for_each_total _ (pair_lines image_dict)
               (fun acc p => store_entry acc (pair_entry image_dict p))).
    + simpl. split; [|done]. split; [done|by eexists].
    + intros s p Hin.
      pose proof (sorted_pairs_lookup _ _ Hin) as [H1 H2].
      pose proof (compare_pair_cases image_dict s p H1 H2) as Hcase.
      rewrite Forall_forall in Hgood. by rewrite (Hgood p Hin) in Hcase.
Qed.

(** ** The summaries are never negative *)

Lemma nan_or_nonneg_abs (x : float) : nan_or_nonneg (F64.abs x).
Proof. destruct x as [s|s| |s m e]; first [by right|by left]. Qed.

Lemma nan_or_nonneg_add (x y : float) :
  nan_or_nonneg x -> nan_or_nonneg y -> nan_or_nonneg (F64.add x y).
Proof.
  intros [Hx|Hx] [Hy|Hy].
  - destruct x; try done. by left.
  - destruct x; try done. by left.
  - destruct y; try done. destruct x; by left.
  - right. by apply add_nonneg.
Qed.

Lemma nan_or_nonneg_sum (l : list float) :
  Forall nan_or_nonneg l -> nan_or_nonneg (np_sum l).
Proof.
  apply (np_sum_closed nan_or_nonneg); [by right|apply nan_or_nonneg_add].
Qed.

Lemma foldl_maximum_elem (l : list float) : forall acc,
  foldl maximum acc l ∈ acc :: l.
Proof.
  induction l as [|x l IH]; intros acc; simpl; [apply list_elem_of_here|].
  specialize (IH (maximum acc x)).
  apply elem_of_cons in IH as [IH|IH]; [|by do 2 apply list_elem_of_further].
  rewrite IH. unfold maximum. destruct (_ || _);
    [apply list_elem_of_here|apply list_elem_of_further, list_elem_of_here].
Qed.

Lemma np_max_elem (l : list float) (m : float) : np_max l = Some m -> m ∈ l.
Proof.
  destruct l as [|x l]; simpl; [done|]. intros [= <-]. apply foldl_maximum_elem.
Qed.

Lemma div_eucl_nonneg (a b : Z) :
  (0 <= a)%Z -> (0 < b)%Z -> (0 <= (Z.div_eucl a b).1)%Z.
Proof.
  intros Ha Hb. change ((Z.div_eucl a b).1) with (a / b)%Z.
  by apply Z.div_pos.
Qed.

Lemma div_finite_sign sx mx ex sy my ey :
  same_sign (xorb sx sy)
    (F64.div (S754_finite sx mx ex) (S754_finite sy my ey)).
Proof.
  unfold F64.div, SFdiv, SFdiv_core_binary.
  set (m' := match _ with Z.pos _ => _ | _ => _ end).
  assert (0 <= m')%Z as Hm'.
  { subst m'. destruct (_ - _ - _)%Z; try lia.
    apply Z.shiftl_nonneg. lia. }
  pose proof (div_eucl_nonneg m' (Z.pos my) Hm' ltac:(lia)) as Hq.
  destruct (Z.div_eucl m' (Z.pos my)) as [q r]. simpl in Hq.
  by apply binary_round_aux_sign.
Qed.

Lemma nan_or_nonneg_div (x y : float) :
  nan_or_nonneg x -> same_sign false y -> nan_or_nonneg (F64.div x y).
Proof.
  intros [Hx|Hx] Hy.
  { destruct x; try done. by left. }
  destruct y as [sy|sy| |sy my ey]; simpl in Hy; try done; subst sy.
  - destruct x as [sx|[]| |[] mx ex]; try done; first [by left|by right].
  - destruct x as [sx|[]| |[] mx ex]; try done; first [by left|by right].
  - destruct x as [[]|[]| |[] mx ex]; try done; try by right.
    right. pose proof (div_finite_sign false mx ex false my ey) as Hs.
    change (xorb false false) with false in Hs. revert Hs.
    generalize (F64.div (S754_finite false mx ex) (S754_finite false my ey)).
    intros z Hz. destruct z as [s|s| |s m e]; simpl in Hz; try done;
      by subst.
Qed.

Lemma of_Z_nonneg (z : Z) : (0 <= z)%Z -> same_sign false (F64.of_Z z).
Proof.
  intros Hz. unfold F64.of_Z, binary_normalize.
  destruct z as [|p|p]; [done| |lia]. apply binary_round_sign.
Qed.

Lemma change_result_nonneg d1 d2 image1 image2 r :
  change_result d1 d2 image1 image2 = Some r ->
  Forall nan_or_nonneg (data (abs_difference r))
  /\ nan_or_nonneg (total_difference r)
  /\ nan_or_nonneg (mean_difference r)
  /\ nan_or_nonneg (max_difference r).
Proof.
  intros Hr.
  destruct (change_result_fields _ _ _ _ _ Hr) as (_ & Ha & _ & Ht & Hm & Hmax).
  assert (Forall nan_or_nonneg (data (abs_difference r))) as Habs.
  { rewrite Ha. simpl. apply Forall_fmap, Forall_forall. intros x _.
    apply nan_or_nonneg_abs. }
  split_and!; [done| | |].
  - rewrite Ht. by apply nan_or_nonneg_sum.
  - rewrite Hm. apply nan_or_nonneg_div; [by apply nan_or_nonneg_sum|].
    apply of_Z_nonneg. lia.
  - apply np_max_elem in Hmax. rewrite Forall_forall in Habs. by apply Habs.
Qed.

(** X7: the summaries are never negative.  In every record of the
    result mapping, each element of abs_difference and each of
    total_difference, mean_difference and max_difference is NaN or a
    number that is not below zero. *)
Theorem summaries_are_never_negative (image_dict : dict image_entry)
    (out : list compare_line) (results : dict (ChangeResult float))
    (k : string) (r : ChangeResult float) :
  compare_images image_dict = (out, inr (Some results)) ->
  (k, r) ∈ results ->
  Forall nan_or_nonneg (data (abs_difference r))
  /\ nan_or_nonneg (total_difference r)
  /\ nan_or_nonneg (mean_difference r)
  /\ nan_or_nonneg (max_difference r).
Proof.
  intros Hrun Hin.
  destruct (compare_images_entries _ _ _ _ _ Hrun Hin)
    as (e1 & e2 & _ & _ & _ & _ & Hr & _).
  by eapply change_result_nonneg.
Qed.

Lemma summaries_are_never_negative_witness :
  exists k r,
    head (results_of with_nodata) = Some (k, r)
    /\ total_difference r = S754_nan
    /\ nan_or_nonneg (total_difference r)
    /\ nan_or_nonneg (mean_difference r).
Proof.
  eexists _, _. split; [vm_compute; reflexivity|].
  split; [vm_compute; reflexivity|].
  edestruct (summaries_are_never_negative with_nodata
               (stdout (compare_images with_nodata)) (results_of with_nodata))
    as (_ & Ht & Hm & _);
    [vm_compute; reflexivity|vm_compute; left|].
  split; [exact Ht|exact Hm].
Defined.

Lemma same_sign_nonneg (x : float) :
  same_sign false x -> F64.leb F64.zero x = true.
Proof. destruct x as [s|s| |s m e]; simpl; try done; by intros ->. Qed.

Lemma div_nonneg (x : float) (my : positive) (ey : Z) :
  F64.leb F64.zero x = true ->
  F64.leb F64.zero (F64.div x (S754_finite false my ey)) = true.
Proof.
  intros Hx. destruct x as [[]|[]| |[] mx ex]; try done.
  apply same_sign_nonneg.
  apply (div_finite_sign false mx ex false my ey).
Qed.

Lemma abs_sub_finite_nonneg (a b : float) :
  F64.is_finite a = true -> F64.is_finite b = true ->
  F64.leb F64.zero (F64.abs (F64.sub a b)) = true.
Proof.
  intros Ha Hb. pose proof (sub_finite_not_nan a b Ha Hb) as Hn.
  rewrite <- abs_not_nan in Hn.
  destruct (nan_or_nonneg_abs (F64.sub a b)) as [H|H]; [congruence|done].
Qed.

(** X8: finite rasters give numeric summaries.  When every raster of the
    collection holds only finite values once promoted (as integer rasters
    do), total_difference and max_difference of every record are numbers
    that are not below zero, never NaN; so is mean_difference when the
    raster has fewer than 2^53 pixels. *)
Theorem finite_rasters_give_numeric_summaries
    (image_dict : dict image_entry)
    (out : list compare_line) (results : dict (ChangeResult float))
    (k : string) (r : ChangeResult float) :
  Forall (fun kv => promoted_finite (entry_data kv.2)) image_dict ->
  compare_images image_dict = (out, inr (Some results)) ->
  (k, r) ∈ results ->
  Forall (fun x => F64.leb F64.zero x = true) (data (abs_difference r))
  /\ F64.leb F64.zero (total_difference r) = true
  /\ F64.leb F64.zero (max_difference r) = true
  /\ ((Z.of_nat (length (data (abs_difference r))) < 2 ^ 53)%Z ->
      F64.leb F64.zero (mean_difference r) = true).
Proof.
  intros Hfin Hrun Hin. rewrite Forall_forall in Hfin.
  destruct (compare_images_entries _ _ _ _ _ Hrun Hin)
    as (e1 & e2 & _ & H1 & H2 & _ & Hr & _).
  apply dict_get_elem in H1, H2.
  pose proof (Hfin _ H1) as Hf1. pose proof (Hfin _ H2) as Hf2.
  simpl in Hf1, Hf2. unfold promoted_finite in Hf1, Hf2.
  rewrite Forall_forall in Hf1, Hf2.
  destruct (change_result_fields _ _ _ _ _ Hr) as (Hd & Ha & _ & Ht & Hm & Hmax).
  assert (Forall (fun x => F64.leb F64.zero x = true)
            (data (abs_difference r))) as Habs.
  { rewrite Ha, Hd. simpl. apply Forall_fmap, Forall_forall. intros x Hx.
    simpl. apply list_elem_of_lookup in Hx as [i Hx].
    apply lookup_zip_with_Some in Hx as (a & b & -> & Hla & Hea).
    apply abs_sub_finite_nonneg.
    - apply Hf2. apply list_elem_of_lookup. eauto.
    - apply Hf1. apply list_elem_of_lookup. eauto. }
  assert (F64.leb F64.zero (total_difference r) = true) as Htotal.
  { rewrite Ht.
    by apply (np_sum_closed (fun x => F64.leb F64.zero x = true));
      [|apply add_nonneg|]. }
  split_and!; [done|done| |].
  - apply np_max_elem in Hmax. rewrite Forall_forall in Habs. by apply Habs.
  - intros Hsmall. rewrite Hm. unfold np_mean. rewrite <- Ht.
    destruct (data (abs_difference r)) as [|x l] eqn:Hdata; [done|].
    set (n := length (x :: l)) in *.
    assert (Z.of_nat n = Z.pos (Pos.of_nat n)) as Hn.
    { subst n. simpl length. lia. }
    rewrite Hn in *. rewrite of_Z_pos by done. by apply div_nonneg.
Qed.

Lemma finite_rasters_give_numeric_summaries_witness :
  exists k r,
    head (results_of three_dates) = Some (k, r)
    /\ F64.leb F64.zero (total_difference r) = true
    /\ F64.leb F64.zero (mean_difference r) = true.
Proof.
  eexists _, _. split; [vm_compute; reflexivity|].
  edestruct (finite_rasters_give_numeric_summaries three_dates
               (stdout (compare_images three_dates)) (results_of three_dates))
    as (_ & Ht & _ & Hm);
    [|vm_compute; reflexivity|vm_compute; left|].
  - repeat constructor.
  - split; [exact Ht|]. apply Hm. vm_compute. reflexivity.
Defined.

(** ** How many records *)

Lemma filter_all_Forall {A} (P : A -> Prop) `{forall x, Decision (P x)}
    (l : list A) :
  Forall P l -> filter P l = l.
Proof.
  induction 1 as [|x l Hx _ IH]; [done|]. by rewrite filter_cons_True, IH.
Qed.

(** X9: n images give at most n - 1 records.  On a raster collection
    the result mapping holds one record per pair of adjacent dates
    whose rasters have one shape, hence at most one fewer than there are
    images, and exactly one fewer when all rasters have the same
    shape. *)
Theorem detector_result_count (image_dict : dict image_entry)
    (out : list compare_line) (results : dict (ChangeResult float)) :
  raster_collection image_dict ->
  compare_images image_dict = (out, inr (Some results)) ->
  length results
  = length (filter (shapes_agree image_dict)
              (adjacent_pairs (sorted (dict_keys image_dict))))
  /\ length results <= length image_dict - 1
  /\ forall shp,
       Forall (fun kv => raster_shape (entry_data kv.2) = shp) image_dict ->
       length results = length image_dict - 1.
Proof.
  intros Hcoll Hrun.
  destruct (Nat.lt_ge_cases (length image_dict) 2) as [Hlt|Hge].
  { by rewrite compare_images_short in Hrun. }
  rewrite compare_images_closed_form in Hrun by done.
  injection Hrun as _ <-.
  set (pairs := adjacent_pairs (sorted (dict_keys image_dict))).
  assert (length (omap (pair_entry image_dict) pairs)
          = length (filter (shapes_agree image_dict) pairs)) as Hcount.
  { rewrite <- (length_fmap fst), <- (length_fmap (fun p => period_key p.1 p.2)).
    f_equal. by apply result_keys. }
  assert (length pairs = length image_dict - 1) as Hpairs.
  { unfold pairs. rewrite adjacent_pairs_length.
    rewrite (Permutation_length (sorted_Permutation _)).
    unfold dict_keys. by rewrite length_fmap. }
  split_and!; [done| |].
  - rewrite Hcount, <- Hpairs. apply length_filter.
  - intros shp Hshape. rewrite Hcount, <- Hpairs. f_equal.
    apply filter_all_Forall, Forall_forall. intros p Hp.
    destruct (raster_collection_pair image_dict p Hcoll Hp)
      as (e1 & e2 & H1 & H2 & _).
    rewrite Forall_forall in Hshape. unfold shapes_agree.
    rewrite H1, H2. simpl. f_equal.
    apply dict_get_elem in H1, H2.
    pose proof (Hshape _ H1) as Hs1. pose proof (Hshape _ H2) as Hs2.
    simpl in Hs1, Hs2. congruence.
Qed.

Lemma detector_result_count_witness :
  length (results_of mixed_shapes) <= length mixed_shapes - 1.
Proof.
  destruct (detector_result_count mixed_shapes
              (stdout (compare_images mixed_shapes)) (results_of mixed_shapes))
    as (_ & Hle & _); [|vm_compute; reflexivity|exact Hle].
  split; [|repeat constructor; simpl; lia].
  repeat constructor; vm_compute; intros H;
    repeat (apply elem_of_cons in H as [H|H]; [discriminate H|]);
    by apply elem_of_nil in H.
Defined.

(** ** Integer rasters: the summaries without rounding *)

Lemma compare_shiftl (a b : positive) (n : N) :
  (Pos.shiftl a n ?= Pos.shiftl b n)%positive = (a ?= b)%positive.
Proof.
  change ((Z.pos (Pos.shiftl a n) ?= Z.pos (Pos.shiftl b n))%Z
          = (Z.pos a ?= Z.pos b)%Z).
  rewrite !shiftl_mul.
  assert (0 < 2 ^ Z.of_N n)%Z by (apply Z.pow_pos_nonneg; lia).
  destruct (Z.compare_spec (Z.pos a * 2 ^ Z.of_N n) (Z.pos b * 2 ^ Z.of_N n)),
    (Z.compare_spec (Z.pos a) (Z.pos b)); try done; nia.
Qed.

Lemma digits2_pos_lt (a b : positive) :
  (Z.pos (digits2_pos a) < Z.pos (digits2_pos b))%Z -> (a < b)%positive.
Proof.
  intros Hd. pose proof (digits2_pos_upper a). pose proof (digits2_pos_lower b).
  assert (2 ^ Z.pos (digits2_pos a) <= 2 ^ (Z.pos (digits2_pos b) - 1))%Z
    by (apply Z.pow_le_mono_r; lia).
  lia.
Qed.

Lemma leb_fin53 (a b : positive) :
  F64.leb (fin53 false a) (fin53 false b) = (a <=? b)%positive.
Proof.
  unfold F64.leb, SFleb, SFcompare, fin53, Pos.leb.
  destruct (Z.compare_spec (Z.pos (digits2_pos a) - 53)
              (Z.pos (digits2_pos b) - 53)) as [Heq|Hlt|Hgt].
  - assert (digits2_pos a = digits2_pos b) as -> by lia.
    change (Pos.compare_cont Eq ?x ?y) with (x ?= y)%positive.
    rewrite compare_shiftl. by destruct (a ?= b)%positive.
  - assert (a < b)%positive as Hab by (apply digits2_pos_lt; lia).
    by rewrite Hab.
  - assert (b < a)%positive as Hba by (apply digits2_pos_lt; lia).
    apply Pos.lt_gt in Hba. by rewrite Hba.
Qed.

Lemma leb_of_Z (a b : Z) :
  (0 <= a < 2 ^ 53)%Z -> (0 <= b < 2 ^ 53)%Z ->
  F64.leb (F64.of_Z a) (F64.of_Z b) = (a <=? b)%Z.
Proof.
  intros Ha Hb. destruct a as [|a|a], b as [|b|b]; try lia.
  - done.
  - rewrite of_Z_zero, of_Z_pos by lia. done.
  - rewrite of_Z_zero, of_Z_pos by lia. done.
  - rewrite !of_Z_pos by lia. apply leb_fin53.
Qed.

Lemma maximum_of_Z (a b : Z) :
  (0 <= a < 2 ^ 53)%Z -> (0 <= b < 2 ^ 53)%Z ->
  maximum (F64.of_Z a) (F64.of_Z b) = F64.of_Z (Z.max a b).
Proof.
  intros Ha Hb. unfold maximum.
  assert (F64.is_nan (F64.of_Z a) = false) as ->
    by apply binary_normalize_not_nan.
  simpl. rewrite leb_of_Z by done.
  destruct (Z.leb_spec b a); f_equal; lia.
Qed.

Lemma abs_of_Z (z : Z) :
  (Z.abs z < 2 ^ 53)%Z -> F64.abs (F64.of_Z z) = F64.of_Z (Z.abs z).
Proof.
  intros Hz. destruct z as [|p|p].
  - done.
  - change (Z.abs (Z.pos p)) with (Z.pos p) in *. by rewrite of_Z_pos.
  - change (Z.abs (Z.neg p)) with (Z.pos p) in *.
    by rewrite of_Z_neg, of_Z_pos.
Qed.

Lemma sum_abs_abs (l : list Z) : sum_abs (Z.abs <$> l) = sum_abs l.
Proof.
  unfold sum_abs. induction l as [|z l IH]; csimpl; [done|]. rewrite IH. lia.
Qed.

Lemma np_sum_abs (l : list Z) : np_sum (Z.abs <$> l) = sum_abs l.
Proof.
  rewrite np_sum_Z.
  assert (forall acc, foldl Z.add acc (Z.abs <$> l) = (acc + sum_abs l)%Z) as H.
  { unfold sum_abs.
    induction l as [|z l IH]; intros acc; csimpl; [lia|]. rewrite IH. lia. }
  by rewrite H.
Qed.

Lemma foldl_max_abs (l : list Z) : forall acc,
  (0 <= acc)%Z ->
  foldl Z.max acc (Z.abs <$> l) = Z.max acc (max_abs l).
Proof.
  unfold max_abs.
  induction l as [|z l IH]; intros acc Hacc; csimpl; [lia|].
  rewrite IH by lia. lia.
Qed.

Lemma foldl_maximum_of_Z (l : list Z) : forall acc,
  (0 <= acc < 2 ^ 53)%Z -> Forall (fun z => (0 <= z < 2 ^ 53)%Z) l ->
  foldl maximum (F64.of_Z acc) (F64.of_Z <$> l) = F64.of_Z (foldl Z.max acc l).
Proof.
  induction l as [|z l IH]; intros acc Hacc Hl; simpl; [done|].
  inversion Hl; subst. rewrite maximum_of_Z by done. apply IH; [lia|done].
Qed.

Lemma abs_fmap_of_Z (l : list Z) :
  (sum_abs l < 2 ^ 53)%Z ->
  F64.abs <$> (F64.of_Z <$> l) = F64.of_Z <$> (Z.abs <$> l).
Proof.
  intros Hsum. rewrite <- !list_fmap_compose.
  apply Forall_fmap_ext, Forall_forall. intros z Hz. simpl.
  apply abs_of_Z. pose proof (sum_abs_elem l z Hz). lia.
Qed.

Lemma np_max_of_Z (l : list Z) (m : float) :
  (sum_abs l < 2 ^ 53)%Z ->
  np_max (F64.of_Z <$> (Z.abs <$> l)) = Some m ->
  m = F64.of_Z (max_abs l).
Proof.
  intros Hsum. destruct l as [|z l]; csimpl; [done|]. intros [= <-].
  assert (Z.abs z + sum_abs l < 2 ^ 53)%Z as Hsum' by exact Hsum.
  pose proof (sum_abs_nonneg l) as Hl.
  rewrite foldl_maximum_of_Z.
  - rewrite foldl_max_abs by lia. done.
  - lia.
  - apply Forall_fmap, Forall_forall. intros x Hx. simpl.
    pose proof (sum_abs_elem l x Hx). lia.
Qed.

(** X10: on integer rasters the summaries are free of rounding.  When
    both rasters of a record are integer rasters with pixels below 2^52
    in magnitude and the magnitudes of the pixel changes add up to less
    than 2^53, abs_difference holds the exact magnitudes,
    total_difference is their exact sum and max_difference the largest
    of them; mean_difference is that exact sum divided by the pixel
    count, rounded once. *)
Theorem integer_rasters_exact_summaries
    (image_dict : dict image_entry)
    (out : list compare_line) (results : dict (ChangeResult float))
    (k : string) (r : ChangeResult float)
    (e1 e2 : image_entry) (a1 a2 : ndarray Z) :
  compare_images image_dict = (out, inr (Some results)) ->
  (k, r) ∈ results ->
  dict_get (date1 r) image_dict = Some e1 ->
  dict_get (date2 r) image_dict = Some e2 ->
  entry_data e1 = IntRaster a1 -> entry_data e2 = IntRaster a2 ->
  Forall (fun z => (Z.abs z < 2 ^ 52)%Z) (data a1) ->
  Forall (fun z => (Z.abs z < 2 ^ 52)%Z) (data a2) ->
  let diffs := zip_with Z.sub (data a2) (data a1) in
  (sum_abs diffs < 2 ^ 53)%Z ->
  data (abs_difference r) = F64.of_Z <$> (Z.abs <$> diffs)
  /\ total_difference r = F64.of_Z (sum_abs diffs)
  /\ max_difference r = F64.of_Z (max_abs diffs)
  /\ mean_difference r
     = F64.div (F64.of_Z (sum_abs diffs)) (F64.of_Z (Z.of_nat (length diffs))).
Proof.
  intros Hrun Hin H1 H2 E1 E2 Hs1 Hs2 diffs Hsum.
  destruct (compare_images_entries _ _ _ _ _ Hrun Hin)
    as (e1' & e2' & _ & H1' & H2' & _ & Hr & _).
  rewrite H1 in H1'. rewrite H2 in H2'.
  injection H1' as <-. injection H2' as <-. rewrite E1, E2 in Hr.
  destruct (change_result_fields _ _ _ _ _ Hr) as (Hd & Ha & _ & Ht & Hm & Hmax).
  assert (data (abs_difference r) = F64.of_Z <$> (Z.abs <$> diffs)) as Habs.
  { rewrite Ha, Hd. simpl. rewrite difference_of_Z by done.
    by apply abs_fmap_of_Z. }
  assert (total_difference r = F64.of_Z (sum_abs diffs)) as Htotal.
  { rewrite Ht, Habs, np_sum_of_Z by (by rewrite sum_abs_abs).
    by rewrite np_sum_abs. }
  split_and!; [done|done| |].
  - rewrite Habs in Hmax. by apply np_max_of_Z.
  - rewrite Hm. unfold np_mean. rewrite <- Ht, Htotal, Habs.
    by rewrite !length_fmap.
Qed.

Lemma integer_rasters_exact_summaries_witness :
  exists k r,
    head (results_of three_dates) = Some (k, r)
    /\ total_difference r = F64.of_Z 5
    /\ max_difference r = F64.of_Z 5.
Proof.
  eexists _, _. split; [vm_compute; reflexivity|].
  match goal with
  | |- total_difference ?r = _ /\ _ =>
      destruct (integer_rasters_exact_summaries three_dates
                  (stdout (compare_images three_dates))
                  (results_of three_dates) "2023-01-15_to_2023-02-10" r
                  (int_image [1; 1; 1] [0%Z]) (int_image [1; 1; 1] [5%Z])
                  (NdArray [1; 1; 1] [0%Z]) (NdArray [1; 1; 1] [5%Z]))
        as (_ & Ht & Hmax & _)
  end;
    [vm_compute; reflexivity|vm_compute; left|reflexivity|reflexivity
    |reflexivity|reflexivity| | | |].
  - repeat constructor.
  - repeat constructor.
  - vm_compute. reflexivity.
  - split; [exact Ht|exact Hmax].
Defined.

(** ** A raster that did not change *)

Lemma sub_diag (x : float) : F64.is_finite x = true -> F64.sub x x = F64.zero.
Proof.
  destruct x as [[]| | |s m e]; try done. intros _.
  unfold F64.sub, SFsub. by rewrite Z.sub_diag.
Qed.

Lemma zip_with_sub_diag (l : list float) :
  Forall (fun x => F64.is_finite x = true) l ->
  zip_with F64.sub l l = replicate (length l) F64.zero.
Proof.
  induction 1 as [|x l Hx _ IH]; simpl; [done|]. by rewrite sub_diag, IH.
Qed.

Lemma np_sum_zeros (n : nat) : np_sum (replicate n F64.zero) = F64.zero.
Proof.
  apply (np_sum_closed (fun x => x = F64.zero)); [done|by intros x y -> ->|].
  apply Forall_forall. by intros x [-> _]%elem_of_replicate.
Qed.

Lemma foldl_maximum_zeros (n : nat) :
  foldl maximum F64.zero (replicate n F64.zero) = F64.zero.
Proof. induction n as [|n IH]; simpl; done. Qed.

(** X11: a raster that did not change.  When the two rasters of a record
    hold the same finite values, every element of difference and of
    abs_difference is +0.0, and total_difference and max_difference are
    +0.0; so is mean_difference when the raster has fewer than 2^53
    pixels. *)
Theorem unchanged_raster_gives_zero_change
    (image_dict : dict image_entry)
    (out : list compare_line) (results : dict (ChangeResult float))
    (k : string) (r : ChangeResult float) (e1 e2 : image_entry) :
  compare_images image_dict = (out, inr (Some results)) ->
  (k, r) ∈ results ->
  dict_get (date1 r) image_dict = Some e1 ->
  dict_get (date2 r) image_dict = Some e2 ->
  data (astype_float (entry_data e2)) = data (astype_float (entry_data e1)) ->
  promoted_finite (entry_data e1) ->
  let n := raster_size (entry_data e1) in
  data (difference r) = replicate n F64.zero
  /\ data (abs_difference r) = replicate n F64.zero
  /\ total_difference r = F64.zero
  /\ max_difference r = F64.zero
  /\ ((Z.of_nat n < 2 ^ 53)%Z -> mean_difference r = F64.zero).
Proof.
  intros Hrun Hin H1 H2 Hsame Hfin n.
  destruct (compare_images_entries _ _ _ _ _ Hrun Hin)
    as (e1' & e2' & _ & H1' & H2' & _ & Hr & _).
  rewrite H1 in H1'. rewrite H2 in H2'.
  injection H1' as <-. injection H2' as <-.
  destruct (change_result_fields _ _ _ _ _ Hr) as (Hd & Ha & _ & Ht & Hm & Hmax).
  assert (data (difference r) = replicate n F64.zero) as Hdiff.
  { rewrite Hd. simpl. rewrite Hsame, zip_with_sub_diag by done.
    by rewrite astype_float_length. }
  assert (data (abs_difference r) = replicate n F64.zero) as Habs.
  { rewrite Ha. simpl. rewrite Hdiff. by rewrite fmap_replicate. }
  assert (total_difference r = F64.zero) as Htotal.
  { by rewrite Ht, Habs, np_sum_zeros. }
  split_and!; [done|done|done| |].
  - rewrite Habs in Hmax. destruct n as [|n']; simpl in Hmax; [done|].
    rewrite foldl_maximum_zeros in Hmax. congruence.
  - intros Hsmall. rewrite Hm. unfold np_mean. rewrite <- Ht, Htotal, Habs.
    rewrite length_replicate.
    destruct n as [|n'] eqn:Hn; [by rewrite Habs in Hmax|].
    assert (Z.of_nat (S n') = Z.pos (Pos.of_succ_nat n')) as -> by lia.
    rewrite of_Z_pos by lia. done.
Qed.

Lemma unchanged_raster_gives_zero_change_witness :
  exists k r,
    results_of [("2023-01-15", int_image [1; 1; 2] [4; 9]%Z);
                ("2023-02-10", int_image [1; 1; 2] [4; 9]%Z)] = [(k, r)]
    /\ total_difference r = F64.zero
    /\ mean_difference r = F64.zero.
Proof.
  eexists _, _. split; [vm_compute; reflexivity|].
  match goal with
  | |- total_difference ?r = _ /\ _ =>
      destruct (unchanged_raster_gives_zero_change
                  [("2023-01-15", int_image [1; 1; 2] [4; 9]%Z);
                   ("2023-02-10", int_image [1; 1; 2] [4; 9]%Z)]
                  (stdout (compare_images
                     [("2023-01-15", int_image [1; 1; 2] [4; 9]%Z);
                      ("2023-02-10", int_image [1; 1; 2] [4; 9]%Z)]))
                  [("2023-01-15_to_2023-02-10", r)]
                  "2023-01-15_to_2023-02-10" r
                  (int_image [1; 1; 2] [4; 9]%Z) (int_image [1; 1; 2] [4; 9]%Z))
        as (_ & _ & Ht & _ & Hm)
  end; [vm_compute; reflexivity|left|reflexivity|reflexivity|reflexivity| |].
  - repeat constructor.
  - split; [exact Ht|]. apply Hm. vm_compute. reflexivity.
Defined.

(** * The estimator *)

(** ** A period without decrease *)

Lemma add_same_sign_false (x y : float) :
  same_sign false x -> same_sign false y -> same_sign false (F64.add x y).
Proof.
  intros Hx Hy.
  destruct x as [s|s| |s mx ex]; simpl in Hx; try done; subst s;
    destruct y as [s|s| |s my ey]; simpl in Hy; try done; subst s; try done.
  apply add_finite_same_sign.
Qed.

Lemma positive_sign (y : float) :
  F64.ltb F64.zero y = true -> same_sign false y.
Proof. by destruct y as [[]|[]| |[] my ey]. Qed.

Lemma sum_positive_sign (l : list float) :
  same_sign false (np_sum (select_positive l)).
Proof.
  apply (np_sum_closed (same_sign false)); [done|apply add_same_sign_false|].
  apply Forall_forall. intros y [Hy _]%list_elem_of_filter.
  by apply positive_sign.
Qed.

Lemma sub_negative_zero (x : float) :
  same_sign false x -> F64.sub x (S754_zero true) = x.
Proof. destruct x as [s|s| |s m e]; simpl; try done; by intros ->. Qed.

Lemma filter_nil_Forall {A} (P : A -> Prop) `{forall x, Decision (P x)}
    (l : list A) :
  Forall (fun x => ~ P x) l -> filter P l = [].
Proof.
  induction 1 as [|x l Hx _ IH]; [done|].
  by rewrite filter_cons_False.
Qed.

Section EstimatorLookup.
Context {F : Type} `{Num F}.

Lemma estimate_lookup (results : dict (ChangeResult F)) (pixel_area : F)
    (period : string) (r : ChangeResult F) :
  NoDup (dict_keys results) ->
  dict_get period results = Some r ->
  exists out estimates,
    estimate_volume_changes results pixel_area = (out, inr estimates)
    /\ dict_get period estimates = Some (volume_estimate pixel_area r)
    /\ Forall (fun line => line ∈ out) (volume_lines pixel_area (period, r)).
Proof.
  intros Hnd Hget. eexists _, _.
  split; [by apply estimate_volume_changes_run|]. split.
  - by rewrite dict_get_fmap_value, Hget.
  - apply dict_get_elem in Hget. apply Forall_forall. intros line Hline.
    apply list_elem_of_bind. by exists (period, r).
Qed.

Lemma volume_estimate_figures (pixel_area : F) (r : ChangeResult F) :
  let volume_change_per_pixel :=
    (fun d => num_mul d pixel_area) <$> data (difference r) in
  material_removed_m3 (volume_estimate pixel_area r)
  = num_opp (np_sum (select_negative volume_change_per_pixel))
  /\ material_added_m3 (volume_estimate pixel_area r)
     = np_sum (select_positive volume_change_per_pixel)
  /\ net_change_m3 (volume_estimate pixel_area r)
     = num_sub (material_added_m3 (volume_estimate pixel_area r))
         (material_removed_m3 (volume_estimate pixel_area r)).
Proof. done. Qed.
End EstimatorLookup.

(** X12: a period without decrease.  When no element of
    difference * pixel_area is below zero, the estimator stores and
    prints negative zero (-0.0) as material_removed, and net_change is
    material_added itself. *)
Theorem no_decrease_gives_negative_zero
    (results : dict (ChangeResult float)) (pixel_area : float)
    (period : string) (r : ChangeResult float) :
  NoDup (dict_keys results) ->
  dict_get period results = Some r ->
  Forall (fun d => F64.ltb (F64.mul d pixel_area) F64.zero = false)
    (data (difference r)) ->
  exists out estimates v,
    estimate_volume_changes results pixel_area = (out, inr estimates)
    /\ dict_get period estimates = Some v
    /\ material_removed_m3 v = S754_zero true
    /\ net_change_m3 v = material_added_m3 v
    /\ MaterialRemoved (S754_zero true) ∈ out.
Proof.
  intros Hnd Hget Hnone.
  destruct (estimate_lookup results pixel_area period r Hnd Hget)
    as (out & estimates & Hrun & Hv & Hlines).
  exists out, estimates, (volume_estimate pixel_area r).
  assert (material_removed_m3 (volume_estimate pixel_area r) = S754_zero true)
    as Hremoved.
  { rewrite (proj1 (volume_estimate_figures pixel_area r)).
    unfold select_negative. rewrite filter_nil_Forall; [done|].
    apply Forall_fmap. eapply Forall_impl; [exact Hnone|].
    simpl. intros d Hd. congruence. }
  split_and!; [done|done|done| |].
  - destruct (volume_estimate_figures pixel_area r) as (_ & Hadded & ->).
    rewrite Hremoved, Hadded.
    apply sub_negative_zero, sum_positive_sign.
  - rewrite Forall_forall in Hlines. apply Hlines.
    rewrite <- Hremoved.
    apply (list_elem_of_further _ _ (_ :: _)), list_elem_of_here.
Qed.

Lemma no_decrease_gives_negative_zero_witness :
  exists v,
    outcome (estimate_volume_changes (results_of zero_to_five)
               default_pixel_area)
    = inr [("2023-01-15_to_2023-02-10", v)]
    /\ material_removed_m3 v = S754_zero true
    /\ net_change_m3 v = F64.of_Z 500.
Proof.
  eexists. split; [vm_compute; reflexivity|].
  match goal with
  | |- material_removed_m3 ?v = _ /\ _ =>
      destruct (no_decrease_gives_negative_zero (results_of zero_to_five)
                  default_pixel_area "2023-01-15_to_2023-02-10"
                  (MkChangeResult (NdArray [1; 1; 1] [F64.of_Z 5])
                     (NdArray [1; 1; 1] [F64.of_Z 5])
                     (NdArray [1; 1; 1]
                        [F64.mul (F64.div (F64.of_Z 5) epsilon) (F64.of_Z 100)])
                     (F64.of_Z 5) (F64.of_Z 5) (F64.of_Z 5)
                     "2023-01-15" "2023-02-10"))
        as (out & estimates & v' & Hrun & Hv & Hremoved & Hnet & _)
  end.
  - vm_compute. apply NoDup_singleton.
  - vm_compute. reflexivity.
  - repeat constructor.
  - vm_compute. split; reflexivity.
Defined.

(** ** Pixels the estimator does not see *)

Lemma mul_nan_unselected (d a : float) :
  F64.is_nan d = true ->
  F64.ltb (F64.mul d a) F64.zero = false
  /\ F64.ltb F64.zero (F64.mul d a) = false.
Proof. by destruct d. Qed.

Lemma select_ignores (f : float -> float) (P Q : float -> Prop)
    `{forall x, Decision (P x)} `{forall x, Decision (Q x)} (l : list float) :
  (forall d, ~ P d -> ~ Q (f d)) ->
  filter Q (f <$> filter P l) = filter Q (f <$> l).
Proof.
  intros Hskip. induction l as [|d l IH]; [done|].
  rewrite fmap_cons, (filter_cons Q), (filter_cons P).
  destruct (decide (P d)) as [Hd|Hd].
  - rewrite fmap_cons, filter_cons. by rewrite IH.
  - rewrite IH. by rewrite decide_False by by apply Hskip.
Qed.

(** X13: pixels the estimator does not see.  A difference that is NaN
    (a no-data pixel) or zero enters none of the three volume figures:
    dropping all such pixels from the difference array leaves
    material_removed, material_added and net_change as they are, whatever
    the pixel area. *)
Theorem estimator_ignores_nan_and_zero
    (pixel_area : float) (r r' : ChangeResult float) :
  data (difference r')
  = filter (fun d => F64.is_nan d = false /\ F64.is_zero d = false)
      (data (difference r)) ->
  volume_estimate pixel_area r' = volume_estimate pixel_area r.
Proof.
  intros Hdata.
  assert (forall d, ~ (F64.is_nan d = false /\ F64.is_zero d = false) ->
            F64.ltb (F64.mul d pixel_area) F64.zero = false
            /\ F64.ltb F64.zero (F64.mul d pixel_area) = false) as Hskip.
  { intros d Hd. destruct (F64.is_nan d) eqn:Hnan;
      [by apply mul_nan_unselected|].
    destruct (F64.is_zero d) eqn:Hzero; [by apply mul_zero_unselected|].
    by destruct Hd. }
  unfold volume_estimate, select_negative, select_positive. simpl data.
  rewrite Hdata.
  rewrite !(select_ignores (fun d => F64.mul d pixel_area)); [done| |].
  - intros d Hd. destruct (Hskip d Hd) as [_ Hp]. simpl. congruence.
  - intros d Hd. destruct (Hskip d Hd) as [Hn _]. simpl. congruence.
Qed.

Lemma estimator_ignores_nan_and_zero_witness :
  volume_estimate default_pixel_area
    (MkChangeResult (NdArray [1; 1; 1] [F64.of_Z 3])
       (NdArray [1; 1; 1] [F64.of_Z 3]) (NdArray [1; 1; 1] [F64.zero])
       (F64.of_Z 3) (F64.of_Z 3) (F64.of_Z 3) "2023-01-15" "2023-02-10")
  = volume_estimate default_pixel_area
      (MkChangeResult (NdArray [1; 1; 3] [S754_nan; F64.of_Z 3; F64.zero])
         (NdArray [1; 1; 3] [S754_nan; F64.of_Z 3; F64.zero])
         (NdArray [1; 1; 3] [S754_nan; F64.zero; F64.zero])
         S754_nan S754_nan S754_nan "2023-01-15" "2023-02-10").
Proof. apply estimator_ignores_nan_and_zero. vm_compute. reflexivity. Defined.

(** ** Integer rasters: the volume figures without rounding *)

Lemma select_scale (a : Z) (zd : list Z) :
  (0 < a)%Z ->
  select_positive ((fun d => d * a)%Z <$> zd)
  = (fun d => d * a)%Z <$> select_positive zd
  /\ select_negative ((fun d => d * a)%Z <$> zd)
     = (fun d => d * a)%Z <$> select_negative zd.
Proof.
  intros Ha. unfold select_positive, select_negative.
  simpl num_ltb. simpl num_zero.
  induction zd as [|d zd [IHp IHn]]; [done|].
  rewrite fmap_cons, !filter_cons, IHp, IHn. split.
  - destruct (decide ((0 <? d * a)%Z = true)) as [H1|H1],
      (decide ((0 <? d)%Z = true)) as [H2|H2]; try done;
      exfalso; apply H2 || apply H1; apply Z.ltb_lt;
      apply Z.ltb_lt in H1 || apply Z.ltb_lt in H2; nia.
  - destruct (decide ((d * a <? 0)%Z = true)) as [H1|H1],
      (decide ((d <? 0)%Z = true)) as [H2|H2]; try done;
      exfalso; apply H2 || apply H1; apply Z.ltb_lt;
      apply Z.ltb_lt in H1 || apply Z.ltb_lt in H2; nia.
Qed.

Lemma volume_figures_of_Z (zd : list Z) (a : Z) (r : ChangeResult float) :
  data (difference r) = F64.of_Z <$> zd ->
  (0 < a < 2 ^ 53)%Z -> (a * sum_abs zd < 2 ^ 53)%Z ->
  material_added_m3 (volume_estimate (F64.of_Z a) r)
  = F64.of_Z (a * np_sum (select_positive zd))
  /\ material_removed_m3 (volume_estimate (F64.of_Z a) r)
     = F64.opp (F64.of_Z (a * np_sum (select_negative zd))).
Proof.
  intros Hd Ha Hb. pose proof (sum_abs_nonneg zd) as Hnn.
  assert (Hzd : (sum_abs zd <= a * sum_abs zd)%Z) by nia.
  set (vz := (fun d => d * a)%Z <$> zd).
  assert (Hvz : sum_abs vz = (a * sum_abs zd)%Z) by (apply sum_abs_scale; lia).
  assert (Hscaled : (fun d => F64.mul d (F64.of_Z a)) <$> (F64.of_Z <$> zd)
                    = F64.of_Z <$> vz).
  { unfold vz. rewrite <- !list_fmap_compose.
    apply list_fmap_ext. intros i d Hi. simpl.
    assert (Hin : d ∈ zd) by (apply list_elem_of_lookup; eauto).
    pose proof (sum_abs_elem _ _ Hin).
    apply mul_of_Z; try lia. rewrite Z.abs_mul. nia. }
  assert (Hsmall : Forall (fun z => (Z.abs z < 2 ^ 53)%Z) vz).
  { apply Forall_forall. intros z Hz. pose proof (sum_abs_elem _ _ Hz). lia. }
  destruct (select_of_Z vz Hsmall) as [Hneg Hpos].
  destruct (select_scale a zd ltac:(lia)) as [Hsp Hsn]. fold vz in Hsp, Hsn.
  pose proof (sum_abs_filter (fun v => (v <? 0)%Z = true) vz) as Hbn.
  pose proof (sum_abs_filter (fun v => (0 <? v)%Z = true) vz) as Hbp.
  destruct (volume_estimate_figures (F64.of_Z a) r) as (-> & -> & _).
  simpl num_mul. simpl num_opp. rewrite Hd, Hscaled, Hneg, Hpos.
  rewrite !np_sum_of_Z by (unfold select_negative, select_positive; simpl; lia).
  pose proof (exact_sum_scale (F:=Z) a (select_positive zd)) as Ep.
  pose proof (exact_sum_scale (F:=Z) a (select_negative zd)) as En.
  simpl num_mul in Ep, En. rewrite Hsp, Hsn, Ep, En.
  by rewrite !(Z.mul_comm _ a).
Qed.

(** X14: integer rasters give exact volumes.  For a record of the
    detector whose two rasters are integer rasters with pixels below 2^52
    in magnitude, and an integer pixel area a > 0 with a times the sum of
    the magnitudes of the pixel changes below 2^53, the estimator's
    figures carry no rounding: material_added is a times the sum of the
    rises, material_removed is the negation of a times the (negative) sum
    of the falls, and net_change is a times the sum of all changes. *)
Theorem integer_rasters_give_exact_volumes
    (image_dict : dict image_entry)
    (out : list compare_line) (results : dict (ChangeResult float))
    (a : Z) (lines : list (volume_line float))
    (estimates : dict (VolumeEstimate float))
    (period : string) (v : VolumeEstimate float) :
  compare_images image_dict = (out, inr (Some results)) ->
  estimate_volume_changes results (F64.of_Z a) = (lines, inr estimates) ->
  (period, v) ∈ estimates ->
  (0 < a < 2 ^ 53)%Z ->
  exists r e1 e2,
    (period, r) ∈ results
    /\ dict_get (date1 r) image_dict = Some e1
    /\ dict_get (date2 r) image_dict = Some e2
    /\ forall a1 a2,
         entry_data e1 = IntRaster a1 -> entry_data e2 = IntRaster a2 ->
         Forall (fun z => (Z.abs z < 2 ^ 52)%Z) (data a1) ->
         Forall (fun z => (Z.abs z < 2 ^ 52)%Z) (data a2) ->
         let diffs := zip_with Z.sub (data a2) (data a1) in
         (a * sum_abs diffs < 2 ^ 53)%Z ->
         material_added_m3 v = F64.of_Z (a * np_sum (select_positive diffs))
         /\ material_removed_m3 v
            = F64.opp (F64.of_Z (a * np_sum (select_negative diffs)))
         /\ net_change_m3 v = F64.of_Z (a * np_sum diffs).
Proof.
  intros Hrun Hest Hin Ha.
  destruct (estimate_entries _ _ _ _ _ _ Hest Hin) as (r & Hr & ->).
  destruct (compare_images_entries _ _ _ _ _ Hrun Hr)
    as (e1 & e2 & _ & H1 & H2 & _ & Hres & _).
  exists r, e1, e2. split_and!; [done|done|done|].
  intros a1 a2 E1 E2 Hs1 Hs2 diffs Hb. rewrite E1, E2 in Hres.
  destruct (change_result_fields _ _ _ _ _ Hres) as (Hd & _).
  assert (data (difference r) = F64.of_Z <$> diffs) as Hdiff.
  { rewrite Hd. simpl. by rewrite difference_of_Z. }
  destruct (volume_figures_of_Z diffs a r Hdiff Ha Hb) as [Hadd Hrem].
  destruct (volume_estimate_of_Z diffs a r Hdiff Ha Hb) as [Hnet _].
  done.
Qed.

Lemma integer_rasters_give_exact_volumes_witness :
  exists v,
    outcome (estimate_volume_changes (results_of two_to_zero)
               (F64.of_Z 100))
    = inr [("2023-01-15_to_2023-02-10", v)]
    /\ net_change_m3 v = F64.of_Z (100 * -2).
Proof.
  eexists. split; [vm_compute; reflexivity|].
  match goal with
  | |- net_change_m3 ?v = _ =>
      destruct (integer_rasters_give_exact_volumes two_to_zero
                  (stdout (compare_images two_to_zero))
                  (results_of two_to_zero) 100
                  (stdout (estimate_volume_changes (results_of two_to_zero)
                             (F64.of_Z 100)))
                  [("2023-01-15_to_2023-02-10", v)]
                  "2023-01-15_to_2023-02-10" v)
        as (r & e1 & e2 & _ & H1 & H2 & Hexact)
  end; [vm_compute; reflexivity|vm_compute; reflexivity|left|lia|].
  vm_compute. reflexivity.
Defined.

(** * The renderer *)

Lemma act_iter_total {L A} (body : A -> Act L unit) (lines : A -> list L)
    (l : list A) :
  (forall a, a ∈ l -> body a = (lines a, inr tt)) ->
  act_iter body l = (l ≫= lines, inr tt).
Proof.
  induction l as [|a l IH]; intros Hbody; [done|].
  simpl. rewrite Hbody by apply list_elem_of_here.
  rewrite IH by (intros; apply Hbody; by apply list_elem_of_further).
  done.
Qed.

Lemma index0_drawable {L} (a : ndarray float) :
  drawable a = true ->
  index0 (L:=L) a = ([], inr (slice0 a))
  /\ imshow_accepts (shape (slice0 a)) = true.
Proof.
  unfold drawable, index0, slice0.
  by destruct (shape a) as [|[|c] rest].
Qed.

Lemma save_figure_run output_dir d1 d2 :
  save_figure output_dir d1 d2 = (save_lines output_dir d1 d2, inr tt).
Proof. by destruct output_dir as [[|c s]|]. Qed.

Lemma thresholded_shape (m : float) (panel : ndarray float) :
  shape (thresholded m panel) = shape panel.
Proof. done. Qed.

Lemma render_item_run output_dir item :
  drawable (difference item.2) = true ->
  drawable (abs_difference item.2) = true ->
  render_item output_dir item = (item_lines output_dir item.2, inr tt).
Proof.
  intros [Hd Hda]%(index0_drawable (L:=render_line))
         [Ha Haa]%(index0_drawable (L:=render_line)).
  unfold render_item, imshow. rewrite Hd, Ha, save_figure_run.
  cbn -[slice0 thresholded imshow_accepts save_lines].
  rewrite Hda. cbn -[slice0 thresholded imshow_accepts save_lines].
  rewrite Haa. cbn -[slice0 thresholded imshow_accepts save_lines].
  rewrite thresholded_shape, Haa.
  cbn -[slice0 thresholded imshow_accepts save_lines].
  done.
Qed.

Lemma act_iter_stops {L A} (body : A -> Act L unit) (lines : A -> list L)
    (before after : list A) (a : A) (out : list L) (f : fault) :
  (forall x, x ∈ before -> body x = (lines x, inr tt)) ->
  body a = (out, inl f) ->
  act_iter body (before ++ a :: after) = ((before ≫= lines) ++ out, inl f).
Proof.
  induction before as [|b before IH]; intros Hbody Ha.
  - simpl. by rewrite Ha.
  - simpl. rewrite Hbody by apply list_elem_of_here.
    rewrite IH; [|intros x Hx; apply Hbody; by apply list_elem_of_further|done].
    cbn. by rewrite app_assoc.
Qed.

Lemma panel_fault_None {A} (a : ndarray A) :
  panel_fault a = None <-> drawable a = true.
Proof.
  unfold panel_fault, drawable.
  destruct (shape a) as [|[|c] rest]; try done.
  by destruct (imshow_accepts rest).
Qed.

Lemma panel_fault_shape {A} (a : ndarray A) (f : fault) :
  panel_fault a = Some f -> shape_fault f.
Proof.
  unfold panel_fault, shape_fault.
  destruct (shape a) as [|[|c] rest].
  - intros [= <-]. left. by eexists.
  - intros [= <-]. left. by eexists.
  - destruct (imshow_accepts rest); [done|]. intros [= <-]. right. by eexists.
Qed.

Lemma record_fault_None (r : ChangeResult float) :
  record_fault r = None <-> drawable_record r = true.
Proof.
  unfold record_fault, drawable_record.
  rewrite andb_true_iff, <- !panel_fault_None.
  destruct (panel_fault (difference r)), (panel_fault (abs_difference r));
    split; try done; by intros [? ?].
Qed.

Lemma record_fault_shape (r : ChangeResult float) (n : nat) (f : fault) :
  record_fault r = Some (n, f) -> shape_fault f.
Proof.
  unfold record_fault.
  destruct (panel_fault (difference r)) as [f1|] eqn:H1.
  - intros [= _ <-]. by eapply panel_fault_shape.
  - destruct (panel_fault (abs_difference r)) as [f2|] eqn:H2; [|done].
    intros [= _ <-]. by eapply panel_fault_shape.
Qed.

(** A record that cannot be drawn stops the renderer where its first
    bad array is met: the lines before it are those of a drawn record. *)
Lemma render_item_stops output_dir item n f :
  record_fault item.2 = Some (n, f) ->
  render_item output_dir item = (take n (item_lines output_dir item.2), inl f).
Proof.
  unfold record_fault, panel_fault, render_item, index0, imshow, item_lines.
  destruct item as [k r]. simpl fst. simpl snd.
  destruct (shape (difference r)) as [|[|c] rest] eqn:Hd.
  - by intros [= <- <-].
  - by intros [= <- <-].
  - destruct (imshow_accepts rest) eqn:Hrest.
    2: { intros [= <- <-]. cbn -[imshow_accepts]. by rewrite Hrest. }
    cbn -[imshow_accepts thresholded slice0 take]. rewrite Hrest.
    cbn -[imshow_accepts thresholded slice0 take].
    assert (NdArray rest (take (foldr Nat.mul 1 rest) (data (difference r)))
            = slice0 (difference r)) as ->
      by (unfold slice0; by rewrite Hd).
    destruct (shape (abs_difference r)) as [|[|c'] rest'] eqn:Ha.
    + by intros [= <- <-].
    + by intros [= <- <-].
    + destruct (imshow_accepts rest') eqn:Hrest'; [done|].
      intros [= <- <-]. cbn -[imshow_accepts thresholded slice0 take].
      by rewrite Hrest'.
Qed.

(** The directory step of the renderer. *)
Lemma visualize_changes_prefix path_exists can_create output_dir :
  match output_dir with
  | Some (String _ _ as dir) =>
      if negb (path_exists dir) then makedirs MakeDirs can_create dir
      else mret tt
  | _ => mret tt
  end
  = match missing_dir path_exists output_dir with
    | Some dir =>
        if can_create dir then ([MakeDirs dir], inr tt)
        else ([], inl (Raised (OSError dir)))
    | None => ([], inr tt)
    end.
Proof.
  destruct output_dir as [[|c s]|]; try done. simpl. unfold makedirs.
  by destruct (path_exists (String c s)).
Qed.

Lemma visualize_changes_ready path_exists can_create output_dir :
  (forall dir, missing_dir path_exists output_dir = Some dir ->
               can_create dir = true) ->
  match output_dir with
  | Some (String _ _ as dir) =>
      if negb (path_exists dir) then makedirs MakeDirs can_create dir
      else mret tt
  | _ => mret tt
  end = (dir_lines path_exists output_dir, inr tt).
Proof.
  intros Hready. rewrite visualize_changes_prefix.
  unfold missing_dir, dir_lines in *.
  destruct output_dir as [[|c s]|]; try done.
  destruct (path_exists (String c s)); [done|].
  by rewrite (Hready (String c s)).
Qed.

Lemma visualize_changes_run path_exists can_create results output_dir :
  (forall dir, missing_dir path_exists output_dir = Some dir ->
               can_create dir = true) ->
  Forall (fun kr : string * ChangeResult float =>
            drawable_record kr.2 = true) results ->
  visualize_changes path_exists can_create (Some results) output_dir
  = (dir_lines path_exists output_dir
     ++ (results ≫= fun kr => item_lines output_dir kr.2), inr tt).
Proof.
  intros Hready Hok. unfold visualize_changes.
  rewrite visualize_changes_ready by done. simpl items.
  unfold mbind, act_bind, mret, act_ret.
  rewrite (act_iter_total _ (fun kr => item_lines output_dir kr.2)); [done|].
  intros kr Hin. rewrite Forall_forall in Hok.
  apply Hok, andb_true_iff in Hin as [Hd Ha]. by apply render_item_run.
Qed.


(** ** One figure per period *)

Lemma compare_pair_NoDup image_dict results p out results' :
  compare_pair image_dict results p = (out, inr results') ->
  NoDup (dict_keys results) -> NoDup (dict_keys results').
Proof.
  unfold compare_pair, subscript.
  destruct (dict_get p.1 image_dict) as [e1|]; [|done].
  destruct (dict_get p.2 image_dict) as [e2|]; [|done]. simpl.
  destruct (decide _); [by intros [= _ <-]|].
  destruct (change_result _ _ _ _) as [r|]; [|done].
  intros [= _ <-] Hnd. by apply dict_set_NoDup.
Qed.

Lemma compare_images_NoDup image_dict out results :
  compare_images image_dict = (out, inr (Some results)) ->
  NoDup (dict_keys results).
Proof.
  unfold compare_images. destruct (_ <? _)%nat; [done|].
  destruct (for_each _ _ _) as [lines [e|res]] eqn:Hloop; [done|].
  unfold mbind, py_bind, mret, py_ret. simpl. intros [= _ <-].
  refine (for_each_invariant (compare_pair image_dict)
            (fun res => NoDup (dict_keys res)) _ [] lines res _ _ Hloop);
    [|apply NoDup_nil_2].
  intros s a o s' _ Hs Hbody. by eapply compare_pair_NoDup.
Qed.

Lemma change_result_shapes d1 d2 image1 image2 r :
  change_result d1 d2 image1 image2 = Some r ->
  shape (difference r) = raster_shape image2
  /\ shape (abs_difference r) = raster_shape image2.
Proof.
  intros Hr.
  destruct (change_result_fields _ _ _ _ _ Hr) as (Hd & Ha & _).
  rewrite Ha, Hd. simpl. by rewrite astype_float_shape.
Qed.

Lemma band_stack_drawable d1 d2 image1 image2 r :
  change_result d1 d2 image1 image2 = Some r ->
  band_stack image2 = true -> drawable_record r = true.
Proof.
  intros [Hd Ha]%change_result_shapes Hband.
  unfold drawable_record, drawable. rewrite Hd, Ha.
  unfold band_stack in Hband.
  by destruct (raster_shape image2) as [|[|c] [|h [|w [|? ?]]]].
Qed.

Lemma append_inj_r (a b s : string) : a +:+ s = b +:+ s -> a = b.
Proof.
  intros Heq. apply (append_inj_length a b s s); [|done].
  apply (f_equal String.length) in Heq. rewrite !length_append in Heq. lia.
Qed.

Lemma figure_path_period (dir d1 d2 : string) :
  figure_path dir d1 d2
  = (if String.eqb dir "" || endswith dir "/" then dir else dir +:+ "/")
    +:+ "change_" +:+ period_key d1 d2 +:+ ".png".
Proof.
  unfold figure_path, posixpath_join, period_key.
  change (String.prefix "/" ("change_" +:+ ?s)) with false. cbv iota.
  rewrite !append_assoc. by destruct (_ || _); rewrite ?append_assoc.
Qed.

Lemma figure_path_inj (dir k k' : string) :
  (if String.eqb dir "" || endswith dir "/" then dir else dir +:+ "/")
  +:+ "change_" +:+ k +:+ ".png"
  = (if String.eqb dir "" || endswith dir "/" then dir else dir +:+ "/")
    +:+ "change_" +:+ k' +:+ ".png" ->
  k = k'.
Proof.
  intros Heq. apply append_inj_l in Heq. apply append_inj_l in Heq.
  by apply append_inj_r in Heq.
Qed.

Lemma saved_paths_item (dir : string) (r : ChangeResult float) :
  dir <> "" ->
  saved_paths (item_lines (Some dir) r) = [figure_path dir (date1 r) (date2 r)].
Proof. by destruct dir. Qed.

Lemma saved_paths_bind {A} (f : A -> list render_line) (l : list A) :
  saved_paths (l ≫= f) = l ≫= (fun a => saved_paths (f a)).
Proof.
  induction l as [|a l IH]; [done|].
  rewrite !bind_cons. unfold saved_paths at 1. rewrite omap_app.
  by rewrite <- IH.
Qed.

Lemma bind_singleton {A B} (g : A -> B) (l : list A) :
  l ≫= (fun a => [g a]) = g <$> l.
Proof. induction l as [|a l IH]; [done|]. by rewrite bind_cons, fmap_cons, IH. Qed.

Lemma created_dirs_item output_dir (r : ChangeResult float) :
  created_dirs (item_lines output_dir r) = [].
Proof. by destruct output_dir as [[|c s]|]. Qed.

Lemma created_dirs_bind {A} (f : A -> list render_line) (l : list A) :
  (forall a, created_dirs (f a) = []) -> created_dirs (l ≫= f) = [].
Proof.
  intros Hf. induction l as [|a l IH]; [done|].
  rewrite bind_cons. unfold created_dirs. rewrite omap_app.
  fold (created_dirs (f a)). fold (created_dirs (l ≫= f)).
  by rewrite Hf, IH.
Qed.

Lemma detector_records_drawable image_dict out results :
  compare_images image_dict = (out, inr (Some results)) ->
  Forall (fun kv => band_stack (entry_data kv.2) = true) image_dict ->
  Forall (fun kr : string * ChangeResult float =>
            drawable_record kr.2 = true) results.
Proof.
  intros Hrun Hband. rewrite Forall_forall in Hband.
  apply Forall_forall. intros [k r] Hin.
  destruct (compare_images_entries _ _ _ _ _ Hrun Hin)
    as (e1 & e2 & _ & _ & H2 & _ & Hr & _).
  apply dict_get_elem in H2. apply Hband in H2.
  by eapply band_stack_drawable.
Qed.



(** ** The threshold of the third panel *)

Lemma ltb_nan_r (x : float) : F64.ltb x S754_nan = false.
Proof. by destruct x. Qed.

Lemma mul_nan_r (x : float) : F64.mul x S754_nan = S754_nan.
Proof. by destruct x. Qed.

Lemma thresholded_nan (m : float) (panel : ndarray float) :
  F64.is_nan m = true -> thresholded m panel = panel.
Proof.
  destruct m; try done. intros _. unfold thresholded, array_map.
  rewrite mul_nan_r. destruct panel as [shp l]. simpl. f_equal.
  rewrite <- (list_fmap_id l) at 2. apply list_fmap_ext.
  intros i x _. by rewrite ltb_nan_r.
Qed.

(** X17: the threshold of the third panel.  Thresholding keeps the shape
    of the panel and changes no element except to +0.0, and only an
    element that is below one tenth of the maximum; a NaN element is
    never changed.  When the maximum itself is NaN, which is the case as
    soon as one pixel change of the record is NaN, nothing is zeroed:
    the panel of significant changes is the panel of absolute
    differences. *)
Theorem threshold_keeps_or_zeroes :
  (forall (m : float) (panel : ndarray float),
     shape (thresholded m panel) = shape panel
     /\ length (data (thresholded m panel)) = length (data panel)
     /\ forall i x,
          data panel !! i = Some x ->
          data (thresholded m panel) !! i
          = Some (if F64.ltb x (F64.mul one_tenth m) then F64.zero else x)
          /\ (F64.is_nan x = true -> data (thresholded m panel) !! i = Some x))
  /\ (forall (image_dict : dict image_entry) out results k r,
        compare_images image_dict = (out, inr (Some results)) ->
        (k, r) ∈ results ->
        Exists (fun x => F64.is_nan x = true) (data (abs_difference r)) ->
        thresholded (max_difference r) (slice0 (abs_difference r))
        = slice0 (abs_difference r)).
Proof.
  split.
  - intros m panel. split_and!; [done|apply length_fmap|].
    intros i x Hx. unfold thresholded, array_map. simpl.
    rewrite list_lookup_fmap, Hx. simpl. split; [done|].
    intros Hnan. destruct x; try done.
  - intros image_dict out results k r Hrun Hin Hnan.
    destruct (compare_images_entries _ _ _ _ _ Hrun Hin)
      as (e1 & e2 & _ & _ & _ & _ & Hr & _).
    destruct (change_result_fields _ _ _ _ _ Hr) as (_ & _ & _ & _ & _ & Hmax).
    apply thresholded_nan. by rewrite (np_max_nan _ _ Hmax Hnan).
Qed.

Lemma threshold_keeps_or_zeroes_witness :
  exists k r,
    head (results_of with_nodata) = Some (k, r)
    /\ thresholded (max_difference r) (slice0 (abs_difference r))
       = slice0 (abs_difference r).
Proof.
  eexists _, _. split; [vm_compute; reflexivity|].
  eapply (proj2 threshold_keeps_or_zeroes with_nodata
            (stdout (compare_images with_nodata)) (results_of with_nodata));
    [vm_compute; reflexivity|vm_compute; left|].
  vm_compute. left. reflexivity.
Defined.

(** * The driver *)

Section ActFacts.
Context {L A B : Type}.
Implicit Types (m : Act L A) (k : A -> Act L B).

Lemma act_bind_ok m k out a :
  m = (out, inr a) -> m ≫= k = (out ++ trace (k a), result (k a)).
Proof. intros ->. unfold mbind, act_bind. by destruct (k a). Qed.

Lemma prints_only_bind (P : L -> Prop) m k :
  prints_only P m ->
  (forall a, result m = inr a -> prints_only P (k a)) ->
  prints_only P (m ≫= k).
Proof.
  destruct m as [out [f|a]]; intros Hm Hk; [done|].
  rewrite (act_bind_ok _ _ out a) by done.
  apply Forall_app. split; [done|]. by apply Hk.
Qed.

Lemma fails_only_bind (Q : fault -> Prop) m k :
  fails_only Q m ->
  (forall a, result m = inr a -> fails_only Q (k a)) ->
  fails_only Q (m ≫= k).
Proof.
  destruct m as [out [f|a]]; intros Hm Hk; [done|].
  rewrite (act_bind_ok _ _ out a) by done. by apply Hk.
Qed.

Lemma act_bind_eq m k out a out' r :
  m = (out, inr a) -> k a = (out', r) -> m ≫= k = (out ++ out', r).
Proof. intros -> Hk. unfold mbind, act_bind. by rewrite Hk. Qed.

Lemma ret_bind_eq (a : A) k out' r :
  k a = (out', r) -> mret a ≫= k = (out', r).
Proof. intros Hk. unfold mbind, act_bind, mret, act_ret. by rewrite Hk. Qed.
End ActFacts.

Lemma emit_bind_eq {L B} (line : L) (k : unit -> Act L B) out' r :
  k tt = (out', r) -> emit line ≫= k = (line :: out', r).
Proof. intros Hk. unfold mbind, act_bind, emit. by rewrite Hk. Qed.

Lemma lift_bind_eq {L L' A B} (tag : L -> L') (m : Py L A)
    (k : A -> Act L' B) out a out' r :
  m = (out, inr a) -> k a = (out', r) ->
  lift tag m ≫= k = ((tag <$> out) ++ out', r).
Proof. intros -> Hk. unfold mbind, act_bind, lift. simpl. by rewrite Hk. Qed.

Lemma within_bind_eq {L L' A B} (tag : L -> L') (m : Act L A)
    (k : A -> Act L' B) out a out' r :
  m = (out, inr a) -> k a = (out', r) ->
  within tag m ≫= k = ((tag <$> out) ++ out', r).
Proof. intros -> Hk. unfold mbind, act_bind, within. simpl. by rewrite Hk. Qed.

(** ** What each stage prints and raises *)

Lemma for_each_lines {L A S} (P : L -> Prop) (body : S -> A -> Py L S)
    (l : list A) :
  (forall s a, a ∈ l -> Forall P (stdout (body s a))) ->
  forall s, Forall P (stdout (for_each body l s)).
Proof.
  induction l as [|a l IH]; intros Hbody s; [by constructor|].
  simpl. pose proof (Hbody s a (list_elem_of_here _ _)) as Ha.
  destruct (body s a) as [out [e|s']]; [done|].
  unfold mbind, py_bind.
  assert (Forall P (stdout (for_each body l s'))) as Hrest
    by (apply IH; intros; apply Hbody; by apply list_elem_of_further).
  destruct (for_each body l s') as [out' r]. simpl in *.
  apply Forall_app. by split.
Qed.

Lemma for_each_faults {L A S} (Q : exn -> Prop) (body : S -> A -> Py L S)
    (l : list A) :
  (forall s a e, a ∈ l -> outcome (body s a) = inl e -> Q e) ->
  forall s e, outcome (for_each body l s) = inl e -> Q e.
Proof.
  induction l as [|a l IH]; intros Hbody s e; [done|].
  simpl. pose proof (Hbody s a) as Ha.
  destruct (body s a) as [out [e'|s']].
  - intros [= <-]. by apply Ha; [apply list_elem_of_here|].
  - unfold mbind, py_bind.
    pose proof (IH (fun s a e Hin => Hbody s a e (list_elem_of_further _ _ _ Hin))
                  s' e) as Hrest.
    destruct (for_each body l s') as [out' r]. simpl in *. exact Hrest.
Qed.

Lemma compare_images_long (image_dict : dict image_entry) :
  2 <= length image_dict ->
  Forall (fun line => line <> NeedTwoImages) (stdout (compare_images image_dict))
  /\ match outcome (compare_images image_dict) with
     | inl e => e = ValueError zero_size_message
     | inr results => is_Some results
     end.
Proof.
  intros Hlen. unfold compare_images.
  destruct (Nat.ltb_spec (length image_dict) 2) as [?|_]; [lia|].
  set (pairs := adjacent_pairs (sorted (dict_keys image_dict))).
  assert (forall s p, p ∈ pairs ->
            Forall (fun line => line <> NeedTwoImages)
              (stdout (compare_pair image_dict s p))
            /\ forall e, outcome (compare_pair image_dict s p) = inl e ->
                         e = ValueError zero_size_message) as Hpair.
  { intros s p [H1 H2]%sorted_pairs_lookup.
    pose proof (compare_pair_cases image_dict s p H1 H2) as Hcase.
    destruct (zero_size_pair image_dict p); rewrite Hcase; simpl.
    - split; [by constructor|]. by intros e [= <-].
    - split; [|done]. unfold pair_lines.
      destruct (dict_get p.1 image_dict) as [e1|];
        [|by constructor].
      destruct (dict_get p.2 image_dict) as [e2|];
        [|by constructor].
      destruct (decide _); [by repeat constructor|].
      destruct (change_result _ _ _ _); by repeat constructor. }
  pose proof (for_each_lines (fun line => line <> NeedTwoImages)
                (compare_pair image_dict) pairs
                (fun s a Hin => proj1 (Hpair s a Hin)) []) as Hlines.
  pose proof (for_each_faults (fun e => e = ValueError zero_size_message)
                (compare_pair image_dict) pairs
                (fun s a e Hin => proj2 (Hpair s a Hin) e) []) as Hfaults.
  destruct (for_each (compare_pair image_dict) pairs []) as [out [e|res]];
    simpl in *.
  - split; [done|]. by apply Hfaults.
  - rewrite app_nil_r. split; [done|by eexists].
Qed.

Lemma act_iter_lines {L A} (P : L -> Prop) (body : A -> Act L unit)
    (l : list A) :
  (forall a, a ∈ l -> prints_only P (body a)) ->
  prints_only P (act_iter body l).
Proof.
  induction l as [|a l IH]; intros Hbody; [by constructor|].
  simpl. apply prints_only_bind; [apply Hbody, list_elem_of_here|].
  intros _ _. apply IH. intros; apply Hbody; by apply list_elem_of_further.
Qed.

Lemma act_iter_faults {L A} (Q : fault -> Prop) (body : A -> Act L unit)
    (l : list A) :
  (forall a, a ∈ l -> fails_only Q (body a)) ->
  fails_only Q (act_iter body l).
Proof.
  induction l as [|a l IH]; intros Hbody; [done|].
  simpl. apply fails_only_bind; [apply Hbody, list_elem_of_here|].
  intros _ _. apply IH. intros; apply Hbody; by apply list_elem_of_further.
Qed.

Lemma index0_quiet {L A} (a : ndarray A) :
  trace (index0 (L:=L) a) = []
  /\ fails_only shape_fault (index0 (L:=L) a).
Proof.
  unfold index0. destruct (shape a) as [|[|c] rest]; split; try done;
    left; by eexists.
Qed.

Lemma imshow_lines axis image c vmin vmax :
  prints_only (fun line => forall path, line <> MakeDirs path)
    (imshow axis image c vmin vmax)
  /\ fails_only shape_fault (imshow axis image c vmin vmax).
Proof.
  unfold imshow. destruct (imshow_accepts (shape image)); split; try done.
  - by repeat constructor.
  - by constructor.
  - right. by eexists.
Qed.

Lemma emit_lines {L} (P : L -> Prop) (Q : fault -> Prop) (line : L) :
  P line -> prints_only P (emit line) /\ fails_only Q (emit line).
Proof. intros Hline. split; [by repeat constructor|done]. Qed.

Lemma render_item_lines output_dir item :
  prints_only (fun line => forall path, line <> MakeDirs path)
    (render_item output_dir item)
  /\ fails_only shape_fault (render_item output_dir item).
Proof.
  unfold render_item.
  assert (forall line : render_line,
            (forall path, line <> MakeDirs path) ->
            prints_only (fun line => forall path, line <> MakeDirs path)
              (emit line)
            /\ fails_only shape_fault (emit line)) as Hemit
    by (intros; by apply emit_lines).
  assert (prints_only (fun line => forall path, line <> MakeDirs path)
            (save_figure output_dir (date1 item.2) (date2 item.2))
          /\ fails_only shape_fault
               (save_figure output_dir (date1 item.2) (date2 item.2)))
    as Hsave.
  { rewrite save_figure_run. split; [|done].
    destruct output_dir as [[|c s]|]; by repeat constructor. }
  split.
  - repeat (apply prints_only_bind; [|intros ? _]);
      first [ by apply Hemit | by apply imshow_lines | by apply Hsave
            | (unfold prints_only; by rewrite (proj1 (index0_quiet _))) ].
  - repeat (apply fails_only_bind; [|intros ? _]);
      first [ by apply Hemit | by apply imshow_lines | by apply Hsave
            | by apply index0_quiet ].
Qed.

Lemma visualize_changes_lines path_exists can_create results dir :
  path_exists dir = true ->
  prints_only (fun line => forall path, line <> MakeDirs path)
    (visualize_changes path_exists can_create (Some results) (Some dir))
  /\ fails_only shape_fault
       (visualize_changes path_exists can_create (Some results) (Some dir)).
Proof.
  intros Hdir.
  assert (visualize_changes path_exists can_create (Some results) (Some dir)
          = (mret tt;; res ← items (Some results);
             act_iter (render_item (Some dir)) res)) as ->.
  { unfold visualize_changes. destruct dir as [|c s]; [done|].
    by rewrite Hdir. }
  simpl items. split.
  - apply prints_only_bind; [by constructor|]. intros _ _.
    apply prints_only_bind; [by constructor|]. intros res [= <-].
    apply act_iter_lines. intros; apply render_item_lines.
  - apply fails_only_bind; [done|]. intros _ _.
    apply fails_only_bind; [done|]. intros res [= <-].
    apply act_iter_faults. intros; apply render_item_lines.
Qed.

Lemma lift_facts {L L' A} (tag : L -> L') (m : Py L A)
    (P : L' -> Prop) (Q : fault -> Prop) :
  Forall (fun line => P (tag line)) (stdout m) ->
  (forall e, outcome m = inl e -> Q (Raised e)) ->
  prints_only P (lift tag m) /\ fails_only Q (lift tag m).
Proof.
  destruct m as [out [e|a]]; intros Hout He; split; try done.
  - by apply Forall_fmap.
  - by apply He.
  - by apply Forall_fmap.
Qed.

Lemma lift_result {L L' A} (tag : L -> L') (m : Py L A) (a : A) :
  result (lift tag m) = inr a -> outcome m = inr a.
Proof. destruct m as [out [e|a']]; simpl; [done|]. by intros [= ->]. Qed.

Lemma within_facts {L L' A} (tag : L -> L') (m : Act L A)
    (P : L' -> Prop) (Q : fault -> Prop) :
  prints_only (fun line => P (tag line)) m -> fails_only Q m ->
  prints_only P (within tag m) /\ fails_only Q (within tag m).
Proof.
  destruct m as [out r]; intros Hout Hr; split; [|done]. by apply Forall_fmap.
Qed.

Lemma estimator_total {F} `{Num F} (results : dict (ChangeResult F))
    (pixel_area : F) (e : exn) :
  outcome (estimate_volume_changes results pixel_area) <> inl e.
Proof.
  intros He. unfold estimate_volume_changes in He.
  apply (for_each_faults (fun _ => False) (estimate_item pixel_area) results)
    in He; [done|].
  intros s a e' _. by rewrite estimate_item_run.
Qed.

(** The first step of [main]: the output directory. *)
Lemma main_output_dir path_exists can_create :
  (if negb (path_exists output_dir)
   then makedirs MainMakeDirs can_create output_dir;;
        mret (created output_dir path_exists)
   else mret path_exists)
  = if path_exists output_dir then ([], inr path_exists)
    else if can_create output_dir
         then ([MainMakeDirs output_dir], inr (created output_dir path_exists))
         else ([], inl (Raised (OSError output_dir))).
Proof.
  unfold makedirs. destruct (path_exists output_dir); [done|].
  by destruct (can_create output_dir).
Qed.

Lemma main_output_dir_ready path_exists can_create :
  output_dir_available path_exists can_create ->
  (if negb (path_exists output_dir)
   then makedirs MainMakeDirs can_create output_dir;;
        mret (created output_dir path_exists)
   else mret path_exists)
  = (main_dir_lines path_exists,
     inr (if path_exists output_dir then path_exists
          else created output_dir path_exists)).
Proof.
  intros Havail. rewrite main_output_dir. unfold main_dir_lines.
  destruct (path_exists output_dir) eqn:Hpe; [done|].
  destruct Havail as [?|Hc]; [congruence|by rewrite Hc].
Qed.


(** ** The runs of [main] *)

(** X19: fewer than two dates.  When the output directory exists or can
    be created and the loader returns fewer than two entries, [main] has
    created the output directory if it was missing, prints "Loading
    images...", the loader's lines and "Need at least two images for
    comparison", and returns: no comparison, no figure and no estimate
    is made. *)
Theorem main_stops_without_two_dates
    (path_exists can_create : string -> bool)
    (scandir glob_dirs : string -> list string) (pad_year : bool)
    (getctime : string -> exn + date) (read_raster : string -> option raster)
    (out : list load_line) (images : dict image_entry) :
  output_dir_available path_exists can_create ->
  load_images_from_directory scandir glob_dirs strptime_cpython pad_year
    getctime read_raster data_dir = (out, inr images) ->
  length images < 2 ->
  main path_exists can_create scandir glob_dirs pad_year getctime read_raster
  = (main_dir_lines path_exists
     ++ LoadingImages :: (FromLoader <$> out) ++ [NeedTwoImagesForComparison],
     inr tt).
Proof.
  intros Havail Hload Hlen. unfold main.
  eapply act_bind_eq; [by apply main_output_dir_ready|].
  apply emit_bind_eq. eapply lift_bind_eq; [exact Hload|].
  destruct (Nat.ltb_spec (length images) 2) as [_|?]; [|lia]. done.
Qed.

(** A file system that holds the given files in the data directory of
    [main], and nothing else. *)
Lemma main_stops_without_two_dates_witness :
  main (fun _ => false) (fun _ => true)
    (fun d => if String.eqb d data_dir
              then ["scene_20230115.tif"; "notes.txt"] else [])
    (fun _ => []) false sample_getctime sample_read_raster
  = ([MainMakeDirs output_dir; LoadingImages;
      FromLoader (FoundTiffFiles 1);
      FromLoader (LoadedImage "2023-01-15" [1; 1; 1]);
      NeedTwoImagesForComparison], inr tt).
Proof.
  apply (main_stops_without_two_dates (fun _ => false) (fun _ => true)
           (fun d => if String.eqb d data_dir
                     then ["scene_20230115.tif"; "notes.txt"] else [])
           (fun _ => []) false sample_getctime
           sample_read_raster
           [FoundTiffFiles 1; LoadedImage "2023-01-15" [1; 1; 1]]
           [("2023-01-15",
             entry_of
               "/Users/user/Desktop/satellite-inference/data/raw/scene_20230115.tif"
               (IntRaster (NdArray [1; 1; 1] [0%Z])))]).
  - by right.
  - vm_compute. reflexivity.
  - simpl. lia.
Defined.

Lemma band_stack_size (r : raster) :
  band_stack r = true -> raster_size r <> 0.
Proof.
  unfold band_stack.
  destruct (raster_shape r) as [|[|c] [|h [|w [|? ?]]]]; try done.
  by intros ?%negb_true_iff%Nat.eqb_neq.
Qed.



(** * The stem of a discovered file *)

Lemma normcase_dot (os : platform) (c : ascii) :
  match os with
  | Posix => c
  | Windows => lower_ascii (backslash_of_slash c)
  end = "."%char <-> c = "."%char.
Proof.
  destruct os; [done|].
  destruct c as [[] [] [] [] [] [] [] []]; vm_compute; split; congruence.
Qed.

Lemma normcase_cons (os : platform) (c : ascii) (s : string) :
  normcase os (String c s)
  = String (match os with
            | Posix => c
            | Windows => lower_ascii (backslash_of_slash c)
            end) (normcase os s).
Proof. by destruct os. Qed.

Lemma normcase_length (os : platform) (s : string) :
  String.length (normcase os s) = String.length s.
Proof.
  induction s as [|c s IH]; [by destruct os|].
  rewrite normcase_cons. simpl. by rewrite IH.
Qed.

Lemma last_dot_normcase (os : platform) (s : string) : forall i found,
  last_dot (normcase os s) i found = last_dot s i found.
Proof.
  induction s as [|c s IH]; intros i found; [by destruct os|].
  rewrite normcase_cons. simpl. rewrite IH. f_equal.
  destruct (Ascii.eqb_spec c ".") as [->|Hc].
  - by rewrite (proj2 (normcase_dot os ".") eq_refl).
  - destruct (Ascii.eqb_spec
                (match os with
                 | Posix => c
                 | Windows => lower_ascii (backslash_of_slash c)
                 end) ".") as [Hn%normcase_dot|_]; done.
Qed.

Lemma last_dot_app (a b : string) : forall i found,
  last_dot (a +:+ b) i found
  = last_dot b (i + String.length a) (last_dot a i found).
Proof.
  induction a as [|c a IH]; intros i found; simpl.
  - by rewrite Nat.add_0_r.
  - change (String c a +:+ b) with (String c (a +:+ b)). simpl.
    rewrite IH. f_equal. lia.
Qed.

Lemma stem_extension (os : platform) (name ext : string) :
  ishidden name = false ->
  endswith (normcase os name) (String "." ext) = true ->
  (forall i found, last_dot ext i found = found) ->
  0 < String.length ext ->
  stem name
  = String.substring 0 (String.length name - S (String.length ext)) name.
Proof.
  intros Hhidden [q Hq]%endswith_app Hext Hlen.
  pose proof (normcase_length os name) as Hn.
  rewrite Hq, length_append in Hn. simpl in Hn.
  assert (last_dot name 0 None = Some (String.length q)) as Hdot.
  { rewrite <- (last_dot_normcase os), Hq, last_dot_app. simpl.
    by rewrite Hext. }
  assert (q <> "") as Hne.
  { intros ->. destruct name as [|c name]; [simpl in Hn; lia|].
    rewrite normcase_cons in Hq. injection Hq as Hc _.
    apply normcase_dot in Hc. by subst c. }
  unfold stem. rewrite Hdot.
  assert (0 < String.length q) by (destruct q; [done|simpl; lia]).
  destruct (Nat.ltb_spec 0 (String.length q)); [|lia].
  destruct (Nat.ltb_spec (String.length q) (String.length name - 1)); [|lia].
  simpl. f_equal. lia.
Qed.

(** X21: the stem of a discovered file.  For every file the loader
    discovers, on either platform, [Path(tiff_file).stem] is the name
    without its extension: without its last four characters for [.tif]
    and without its last five for [.tiff], whatever precedes them, so
    that the segments searched for a date are those of the bare name. *)
Theorem stem_of_a_discovered_file
    (os : platform) (listing : list string) (name : string) :
  name ∈ tiff_files os listing ->
  (endswith (normcase os name) ".tif" = true
   /\ stem name = String.substring 0 (String.length name - 4) name)
  \/ (endswith (normcase os name) ".tiff" = true
      /\ stem name = String.substring 0 (String.length name - 5) name).
Proof.
  unfold tiff_files.
  intros [Hin|Hin]%elem_of_app;
    apply glob_star_elem in Hin as (_ & Hhidden & Hends).
  - left. assert (normcase os ".tif" = ".tif") as Hnorm by by destruct os.
    rewrite Hnorm in Hends. split; [done|].
    apply (stem_extension os name "tif" Hhidden Hends); [done|simpl; lia].
  - right. assert (normcase os ".tiff" = ".tiff") as Hnorm by by destruct os.
    rewrite Hnorm in Hends. split; [done|].
    apply (stem_extension os name "tiff" Hhidden Hends); [done|simpl; lia].
Qed.

Lemma stem_of_a_discovered_file_witness :
  stem "S2_2023-01-15.v2.TIF" = "S2_2023-01-15.v2".
Proof.
  destruct (stem_of_a_discovered_file Windows
              ["S2_2023-01-15.v2.TIF"; "readme.md"] "S2_2023-01-15.v2.TIF")
    as [[_ ->]|[Hends _]]; [vm_compute; left|reflexivity|done].
Defined.

(** ** The stem of a discovered path *)

Lemma split_on_nonempty (sep : ascii) (s : string) : split_on sep s <> [].
Proof.
  destruct s as [|c s]; [done|]. cbn [split_on].
  destruct (Ascii.eqb c sep); [done|]. by destruct (split_on sep s).
Qed.

Lemma split_on_plain (name : string) :
  has_slash name = false -> split_on "/" name = [name].
Proof.
  induction name as [|c name IH]; [done|]. cbn [has_slash split_on].
  intros [-> Hn]%orb_false_iff. by rewrite IH.
Qed.

Lemma split_on_app (a b : string) :
  split_on "/" (a +:+ "/" +:+ b) = split_on "/" a ++ split_on "/" b.
Proof.
  induction a as [|c a IH]; [done|].
  change (String c a +:+ "/" +:+ b) with (String c (a +:+ "/" +:+ b)).
  cbn [split_on]. rewrite IH.
  destruct (Ascii.eqb c "/"); [done|].
  pose proof (split_on_nonempty "/" a).
  by destruct (split_on "/" a).
Qed.

Lemma path_name_snoc (components : list string) (name : string) :
  name <> "" -> name <> "." ->
  default "" (last (filter (fun x => x <> "" /\ x <> ".")
                      (components ++ [name]))) = name.
Proof.
  intros H1 H2. rewrite filter_app, filter_cons_True by done.
  by rewrite filter_nil, last_snoc.
Qed.

(** The last component of a directory joined with an entry name is the
    entry name. *)
Lemma path_name_join (d name : string) :
  plain_name name -> path_name (posixpath_join d name) = name.
Proof.
  intros (Hne & Hslash & Hdot). unfold path_name, posixpath_join.
  rewrite prefix_slash by exact Hslash.
  destruct (String.eqb_spec d "") as [->|Hd]; cbn [orb].
  - change ("" +:+ name) with name. rewrite split_on_plain by exact Hslash.
    by apply (path_name_snoc []).
  - destruct (endswith d "/") eqn:Hend.
    + apply endswith_app in Hend as [a ->]. rewrite append_assoc.
      rewrite split_on_app, (split_on_plain name Hslash).
      by apply path_name_snoc.
    + rewrite split_on_app, (split_on_plain name Hslash).
      by apply path_name_snoc.
Qed.

(** X22: the date of a discovered file is looked for in the stem of its
    entry name.  For a directory whose name holds no metacharacter of
    [glob], every discovered path is the directory, named without
    trailing slashes, joined with one of its entries; and when the
    entries are plain names (not empty, no slash, not [.]), as a file
    system gives them, [Path(tiff_file).stem] is the stem of that entry
    name: the directory part plays no role in the date. *)
Theorem discovered_path_has_the_stem_of_its_entry
    (scandir glob_dirs : string -> list string)
    (directory tiff_file : string) :
  has_magic directory = false -> directory <> "" ->
  Forall plain_name (scandir (glob_dirname directory)) ->
  tiff_file ∈ found_tiff_files scandir glob_dirs directory ->
  exists name,
    name ∈ tiff_files Posix (scandir (glob_dirname directory))
    /\ tiff_file = posixpath_join (glob_dirname directory) name
    /\ path_name tiff_file = name
    /\ path_stem tiff_file = stem name.
Proof.
  intros Hm Hne Hplain. rewrite found_tiff_files_plain by done.
  intros (name & -> & Hname)%list_elem_of_fmap. exists name.
  assert (plain_name name) as Hp.
  { rewrite Forall_forall in Hplain. apply Hplain.
    unfold tiff_files in Hname. apply elem_of_app in Hname as [H|H];
      apply glob_star_elem in H; tauto. }
  split_and!; [done|done|by apply path_name_join|].
  unfold path_stem. by rewrite path_name_join.
Qed.

Lemma discovered_path_has_the_stem_of_its_entry_witness :
  path_stem "data/S2_20230210.tiff" = "S2_20230210".
Proof.
  destruct (discovered_path_has_the_stem_of_its_entry
              (sample_scandir ["S2_20230210.tiff"; "notes.txt"])
              sample_glob_dirs "data/" "data/S2_20230210.tiff")
    as (name & Hin & _ & _ & Hstem).
  - reflexivity.
  - discriminate.
  - assert (sample_scandir ["S2_20230210.tiff"; "notes.txt"]
              (glob_dirname "data/") = ["S2_20230210.tiff"; "notes.txt"]) as ->
      by (vm_compute; reflexivity).
    by repeat constructor.
  - vm_compute. left.
  - assert (tiff_files Posix
              (sample_scandir ["S2_20230210.tiff"; "notes.txt"]
                 (glob_dirname "data/")) = ["S2_20230210.tiff"]) as E
      by (vm_compute; reflexivity).
    rewrite E in Hin. apply list_elem_of_singleton in Hin as ->.
    rewrite Hstem. vm_compute. reflexivity.
Defined.
